(** * package-spec-schema: the schema generator and the bundler

    A shallow embedding of the generator (package [main] of [.generate]: the
    file of [run], [writeSchemas] and [patchSchema], and the file of
    [GitRepository]) and of [.generate/bundle/main.go].  Go values of type
    [any] produced by the YAML decoder are a tree ([any]); Go maps are
    [gmap]s; in-place mutation is state passing (a function returns the
    final state of what it mutates); [error] values are their message
    text. *)

From Stdlib Require Import ZArith Ascii String DecimalString.
From Stdlib Require DecimalPos.
From stdpp Require Import gmap strings list fin_maps sorting.

Local Open Scope string_scope.

Set Warnings "-register-all".

(** ** The Go [strings] package, as far as the generator uses it *)

Module strings.

Fixpoint drop (n : nat) (s : string) : string :=
  match n, s with
  | O, _ => s
  | S _, EmptyString => EmptyString
  | S n', String _ s' => drop n' s'
  end.

(** [strings.HasPrefix(s, prefix)] *)
Fixpoint HasPrefix (s prefix : string) {struct prefix} : bool :=
  match prefix, s with
  | EmptyString, _ => true
  | String _ _, EmptyString => false
  | String a p', String b s' => if Ascii.eqb a b then HasPrefix s' p' else false
  end.

(** [strings.TrimPrefix(s, prefix)] *)
Definition TrimPrefix (s prefix : string) : string :=
  if HasPrefix s prefix then drop (String.length prefix) s else s.

(** [strings.HasSuffix(s, suffix)] *)
Definition HasSuffix (s suffix : string) : bool :=
  (String.length suffix <=? String.length s)%nat
  && String.eqb (drop (String.length s - String.length suffix) s) suffix.

(** [strings.Contains(s, substr)] *)
Fixpoint Contains (s substr : string) : bool :=
  HasPrefix s substr ||
  match s with
  | EmptyString => false
  | String _ s' => Contains s' substr
  end.

(** [strings.Replace(s, old, new, 1)]: the first instance of [old]
    (scanning from the left) is replaced, the rest of [s] is kept.  An
    empty [old] matches at the beginning of the string. *)
Fixpoint Replace1 (s old new : string) : string :=
  if HasPrefix s old then new +:+ drop (String.length old) s
  else match s with
       | EmptyString => EmptyString
       | String c s' => String c (Replace1 s' old new)
       end.

(** [strings.ReplaceAll(s, old, new)] for a one-byte [old]. *)
Fixpoint ReplaceAll (s : string) (old : Ascii.ascii) (new : string) : string :=
  match s with
  | EmptyString => EmptyString
  | String c s' =>
      if Ascii.eqb c old then new +:+ ReplaceAll s' old new
      else String c (ReplaceAll s' old new)
  end.

(** [strings.SplitN(s, sep, n)] for a one-byte [sep] and [n >= 0]: at most
    [n] substrings, the last one being the unsplit remainder; [n = 0]
    gives no substring. *)
Fixpoint SplitN (s : string) (sep : Ascii.ascii) (n : nat) {struct s} : list string :=
  match n with
  | O => []
  | S O => [s]
  | S (S _ as n') =>
      match s with
      | EmptyString => [EmptyString]
      | String c s' =>
          if Ascii.eqb c sep then EmptyString :: SplitN s' sep n'
          else match SplitN s' sep n with
               | x :: rest => String c x :: rest
               | [] => []
               end
      end
  end.

(** [strings.Join(elems, sep)] *)
Fixpoint Join (elems : list string) (sep : string) : string :=
  match elems with
  | [] => EmptyString
  | [x] => x
  | x :: rest => x +:+ sep +:+ Join rest sep
  end.

(** The first [n] bytes of [s]. *)
Fixpoint take (n : nat) (s : string) : string :=
  match n, s with
  | O, _ => EmptyString
  | S _, EmptyString => EmptyString
  | S n', String c s' => String c (take n' s')
  end.

(** [strings.TrimSuffix(s, suffix)] *)
Definition TrimSuffix (s suffix : string) : string :=
  if HasSuffix s suffix then take (String.length s - String.length suffix) s else s.

(** [strings.NewReplacer(oldnew...).Replace(s)] for one-byte old strings:
    every byte that has a replacement is replaced by it; of two pairs for
    the same byte the first counts. *)
Fixpoint Replacer_Replace (oldnew : list (Ascii.ascii * string)) (s : string) : string :=
  match s with
  | EmptyString => EmptyString
  | String c s' =>
      match list_find (fun on => Ascii.eqb on.1 c = true) oldnew with
      | Some (_, (_, new)) => new +:+ Replacer_Replace oldnew s'
      | None => String c (Replacer_Replace oldnew s')
      end
  end.

End strings.

(** ** Decoded documents *)

(** What [yaml.v3] decodes into an [any]: [nil], [bool], [int], [float64]
    (kept as its literal), [string], [[]any] and, for a mapping whose keys
    are all strings, [map[string]any]; an integer above the largest [int]
    is a [uint64], a timestamp is a [time.Time] (kept as its text), and a
    mapping with a key that is not a string is a [map[interface{}]interface{}],
    here the list of its entries.  The decoder builds a value of its own
    for every alias of an anchor, so a decoded document is a tree: no object
    is reached along two paths. *)
Inductive any : Type :=
| ANil
| ABool (b : bool)
| AInt (n : Z)
| AFloat (lit : string)
| AString (s : string)
| ASlice (l : list any)
| AMap (m : gmap string any)
| AUint (n : Z)
| ATime (t : string)
| AMapI (entries : list (any * any)).

(** [%T] of a decoded value. *)
Definition typeName (v : any) : string :=
  match v with
  | ANil => "<nil>"
  | ABool _ => "bool"
  | AInt _ => "int"
  | AFloat _ => "float64"
  | AString _ => "string"
  | ASlice _ => "[]interface {}"
  | AMap _ => "map[string]interface {}"
  | AUint _ => "uint64"
  | ATime _ => "time.Time"
  | AMapI _ => "map[interface {}]interface {}"
  end.

(** A Go result [(A, error)]: the message of the error, or the value. *)
Definition Err (A : Type) : Type := (string + A)%type.

(** The line feed and the double quote. *)
Definition newline : string := String "010"%char EmptyString.
Definition dquote : string := String "034"%char EmptyString.

(** ** [path/filepath] on slash-separated paths *)

Module filepath.

(** The elements of a path: what stands between its slashes. *)
Fixpoint elements (path : string) : list string :=
  match path with
  | EmptyString => [EmptyString]
  | String c path' =>
      if Ascii.eqb c "/" then EmptyString :: elements path'
      else match elements path' with
           | e :: rest => String c e :: rest
           | [] => [String c EmptyString]
           end
  end.

(** One element in [Clean]; [stack] holds the elements kept so far, the
    last one first.  An empty element and a dot are dropped; a dot-dot
    takes the element before it away, unless that is a dot-dot or there is
    none: then it is kept, except at the root. *)
Definition cleanElement (rooted : bool) (stack : list string) (e : string) : list string :=
  if String.eqb e "" || String.eqb e "." then stack
  else if String.eqb e ".." then
    match stack with
    | top :: rest => if String.eqb top ".." then e :: stack else rest
    | [] => if rooted then [] else [e]
    end
  else e :: stack.

(** [filepath.Clean(path)]: the shortest path that names the same place
    by its text alone. *)
Definition Clean (path : string) : string :=
  if String.eqb path "" then "."
  else
    let rooted := strings.HasPrefix path "/" in
    let stack := foldl (cleanElement rooted) [] (elements path) in
    let out := strings.Join (reverse stack) "/" in
    if rooted then "/" +:+ out
    else if String.eqb out "" then "." else out.

(** [filepath.Join(elem...)]: the elements from the first non-empty one
    on, separated by a slash, and cleaned; the empty string when there is
    no such element. *)
Fixpoint Join (elem : list string) : string :=
  match elem with
  | [] => EmptyString
  | e :: rest =>
      if String.eqb e "" then Join rest else Clean (strings.Join elem "/")
  end.

Arguments Join : simpl never.

(** The part of [path] after its last slash. *)
Fixpoint lastElem (acc path : string) : string :=
  match path with
  | EmptyString => acc
  | String c path' =>
      if Ascii.eqb c "/" then lastElem EmptyString path'
      else lastElem (acc +:+ String c EmptyString) path'
  end.

(** [filepath.Base(path)] of a path that does not end in a slash. *)
Definition Base (path : string) : string :=
  match path with
  | EmptyString => "."
  | _ => lastElem EmptyString path
  end.

(** [filepath.ToSlash(path)]: the separator is the slash already. *)
Definition ToSlash (path : string) : string := path.

End filepath.

(** ** The [os] file system: the regular files, by path

    The map holds the files that the generator and the bundler write and
    remove themselves, each under the paths that name it from the
    directory in which the program runs; [dir] is a cleaned path, as
    [filepath.Join] gives it.  The directory of the clones, [git] in the
    working directory, is in the hands of go-git: what opening, cloning,
    fetching, cleaning and checking out do to the files in it is not part
    of the map, and the directories that the program writes to are taken
    to lie apart from it.
    The operations of [os] succeed: the errors of the operating system are
    not part of the model. *)

Module os.

(** The place that [p] names is [dir] or lies below it. *)
Definition below (dir p : string) : bool :=
  let p := filepath.Clean p in
  String.eqb p dir || strings.HasPrefix p (dir +:+ "/").

(** [os.RemoveAll(dir)] *)
Definition RemoveAll (dir : string) (fs : gmap string string) : gmap string string :=
  filter (fun '(p, _) => below dir p = false) fs.

(** [os.WriteFile(name, data, perm)], after [os.MkdirAll] of its directory
    (directories are implicit in the map). *)
Definition WriteFile (name data : string) (fs : gmap string string) : gmap string string :=
  <[name := data]> fs.

End os.

(** ** [jsonschema.Schema], the fields that [combinedManifestSchema] sets *)

(** A Go value stored in an [any] field of the schema: a [string], or a
    [[]string] (which the JSON encoder writes as an array of strings). *)
Inductive goValue : Type :=
| VString (s : string)
| VStrings (l : list string).

Inductive Schema : Type := mkSchema {
  Schema_ : string;                       (* "$schema" *)
  ID : string;                            (* "$id" *)
  Title : string;
  Description : string;
  Type_ : string;
  Required : list string;
  Properties : gmap string Schema;
  Enum : list goValue;
  Const : option goValue;
  Defs : gmap string Schema;              (* "$defs" *)
  AllOf : list Schema;
  If : option Schema;
  Then : option Schema;
  Ref : string;                           (* "$ref" *)
}.

(** The struct literals of [combinedManifestSchema]; a field that a literal
    does not name has its zero value. *)

(** [jsonschema.Schema{Ref: ref}] *)
Definition refSchema (ref : string) : Schema :=
  {| Schema_ := ""; ID := ""; Title := ""; Description := ""; Type_ := "";
     Required := []; Properties := ∅; Enum := []; Const := None; Defs := ∅;
     AllOf := []; If := None; Then := None; Ref := ref |}.

(** [jsonschema.Schema{Const: jsonschema.Ptr(any(v))}] *)
Definition constSchema (v : goValue) : Schema :=
  {| Schema_ := ""; ID := ""; Title := ""; Description := ""; Type_ := "";
     Required := []; Properties := ∅; Enum := []; Const := Some v; Defs := ∅;
     AllOf := []; If := None; Then := None; Ref := "" |}.

(** [jsonschema.Schema{Properties: props}] *)
Definition propertiesSchema (props : gmap string Schema) : Schema :=
  {| Schema_ := ""; ID := ""; Title := ""; Description := ""; Type_ := "";
     Required := []; Properties := props; Enum := []; Const := None; Defs := ∅;
     AllOf := []; If := None; Then := None; Ref := "" |}.

(** [jsonschema.Schema{If: &i, Then: &t}] *)
Definition ifThenSchema (i t : Schema) : Schema :=
  {| Schema_ := ""; ID := ""; Title := ""; Description := ""; Type_ := "";
     Required := []; Properties := ∅; Enum := []; Const := None; Defs := ∅;
     AllOf := []; If := Some i; Then := Some t; Ref := "" |}.

(** [jsonschema.Schema{Type: typ, Enum: enum}] *)
Definition enumSchema (typ : string) (enum : list goValue) : Schema :=
  {| Schema_ := ""; ID := ""; Title := ""; Description := ""; Type_ := typ;
     Required := []; Properties := ∅; Enum := enum; Const := None; Defs := ∅;
     AllOf := []; If := None; Then := None; Ref := "" |}.

(** ** What the generator takes from outside its own code *)

(** The standard library and the dependencies: [strconv.Quote] (the [%q]
    verb), [net/url], [path.Join], the YAML decoder into a
    [map[string]any] (on what a file holds, and its error on a directory,
    which cannot be read), the error of [Lstat] on a path that is not
    there, the JSON encoders, [plumbing.NewHash],
    [recursivePreReleaseCompare] of go-semver on two non-empty pre-releases,
    and the order in which the Go runtime ranges over a map, which is some
    permutation of its entries. *)
Class Externals := {
  Quote : string -> string;
  URL : Type;
  url_Parse : string -> Err URL;
  url_Path : URL -> string;
  url_setPath : URL -> string -> URL;
  url_String : URL -> string;
  path_Join : list string -> string;
  yaml_Decode : string -> Err (gmap string any);
  yaml_inputError : string -> string;
  lstat_Error : string -> string;
  json_Encode : any -> Err string;
  json_MarshalIndent : Schema -> Err string;
  NewHash : string -> string;
  recursivePreReleaseCompare : string -> string -> comparison;
  rangeOrder : forall A : Type, list A -> list A;
  rangeOrder_Permutation : forall (A : Type) (l : list A), rangeOrder A l ≡ₚ l;
}.

(** The command-line flags of the generator. *)
Class Flags := {
  workDir : string;
  outDir : string;
  dialect : string;
  baseURI : string;
  gitURL : string;
  gitRef : string;
  gitFetch : bool;
}.

(** The defaults set in [init]. *)
Definition defaultFlags : Flags :=
  {| workDir := ".package-spec-schema";
     outDir := ".";
     dialect := "https://json-schema.org/draft/2020-12/schema";
     baseURI := "https://schemas.elastic.dev/package-spec";
     gitURL := "https://github.com/elastic/package-spec.git";
     gitRef := "";
     gitFetch := false |}.

(** ** The recursive patch pass *)

(** [encodeURIFragment] encodes specific characters in URI fragments.  The
    Go function returns [(string, error)]; the second component is [None]
    for a [nil] error. *)
Definition encodeURIFragment (ref : string) : string * option string :=
  if negb (strings.Contains ref "#") then (ref, None)
  else
    let parts := strings.SplitN ref "#"%char 2 in
    match parts with
    | [base; fragment] =>
        if String.eqb fragment "" then (ref, None)
        else
          let encodedFragment := strings.ReplaceAll fragment "^"%char "%5E" in
          (base +:+ "#" +:+ encodedFragment, None)
    | _ => (ref, None)
    end.

Section patch.
Context {E : Externals}.

(** The body of [for key, value := range obj] in
    [patchSchemaInPlaceRecursive]: what becomes of the entry [key] of the
    object ([None]: the entry is deleted), or the error that stops the
    walk.  [rec] is the recursive call at [isRoot = false]. *)
Definition patchEntry (rec : any -> Err any) (isRoot : bool)
    (key : string) (value : any) : Err (option any) :=
  if String.eqb key "$id" then
    inr (if isRoot then Some value else None)
  else if String.eqb key "$ref" then
    match value with
    | AString refStr =>
        let refStr := strings.Replace1 refStr ".spec.yml" ".jsonschema.json" in
        match encodeURIFragment refStr with
        | (refStr, Some err) =>
            inl ("failed to encode $ref " +:+ Quote refStr +:+ ": " +:+ err)
        | (refStr, None) => inr (Some (AString refStr))
        end
    | _ => inr (Some value)
    end
  else if String.eqb key "additionalProperties" then
    let deleted := match value with ABool true => true | _ => false end in
    match rec value with
    | inl err => inl err
    | inr value' => inr (if deleted then None else Some value')
    end
  else
    match rec value with
    | inl err => inl err
    | inr value' => inr (Some value')
    end.

(** The entry an object is left with. *)
Definition keptEntry (r : Err (option any)) : option any :=
  match r with
  | inr (Some v) => Some v
  | _ => None
  end.

Definition errorOf {A} (r : Err A) : option string :=
  match r with
  | inl err => Some err
  | inr _ => None
  end.

Definition valueOr {A} (old : A) (r : Err A) : A :=
  match r with
  | inl _ => old
  | inr v => v
  end.

(** The first error of a loop, in iteration order. *)
Definition firstError (l : list (option string)) : option string :=
  head (omap id l).

(** [patchSchemaInPlaceRecursive] mutates [v] in place and returns an
    error; here it returns the value it leaves behind, or the error.  The
    entries of an object are patched independently of each other, so the
    order in which Go ranges over them does not show in the result. *)
Fixpoint patchSchemaInPlaceRecursive (v : any) (isRoot : bool) {struct v} : Err any :=
  match v with
  | AMap obj =>
      let body := patchEntry (fun value => patchSchemaInPlaceRecursive value false) isRoot in
      let results := map_imap (fun key value => Some (body key value)) obj in
      match firstError (errorOf <$> (map_to_list results).*2) with
      | Some err => inl err
      | None => inr (AMap (omap keptEntry results))
      end
  | ASlice obj =>
      let results := map (fun item => patchSchemaInPlaceRecursive item false) obj in
      match firstError (errorOf <$> results) with
      | Some err => inl err
      | None => inr (ASlice (zip_with valueOr obj results))
      end
  | _ => inr v
  end.

(** [patchSchemaInPlace] applies all schema transformations in a single
    recursive pass. *)
Definition patchSchemaInPlace (v : any) : Err any :=
  patchSchemaInPlaceRecursive v true.

Context {F : Flags}.

Definition schemaID (version relativePath : string) : Err string :=
  match url_Parse baseURI with
  | inl err => inl ("failed to parse base-uri: " +:+ err)
  | inr u =>
      let u := url_setPath u (path_Join [url_Path u; version; relativePath]) in
      inr (url_String u)
  end.

(** [patchSchema] applies schema patches. *)
Definition patchSchema (version relativePath : string) (spec : gmap string any)
    : Err (gmap string any) :=
  let spec := <["$schema" := AString dialect]> spec in
  match schemaID version relativePath with
  | inl err => inl ("failed to make schema id: " +:+ err)
  | inr id =>
      let spec := <["$id" := AString id]> spec in
      match patchSchemaInPlace (AMap spec) with
      | inl err => inl err
      | inr (AMap spec) => inr spec
      | inr _ => inr spec
      end
  end.

(** The [spec] key of the decoded file and its type assertion. *)
Definition specOf (m : gmap string any) : Err (gmap string any) :=
  match m !! "spec" with
  | None => inl "spec key not found in YAML"
  | Some (AMap spec) => inr spec
  | Some v => inl ("spec is not an object, got " +:+ typeName v)
  end.

(** [convertSpecYAMLToJSONSchema]: [r] is what the reader holds, the
    result is what is written to [w]. *)
Definition convertSpecYAMLToJSONSchema (path r version : string) : Err string :=
  match yaml_Decode r with
  | inl err => inl ("failed to decode YAML: " +:+ err)
  | inr m =>
      match specOf m with
      | inl err => inl err
      | inr spec =>
          match patchSchema version path spec with
          | inl err => inl ("failed to patch schema: " +:+ err)
          | inr spec => json_Encode (AMap spec)
          end
      end
  end.

Definition writeSchema (relPath r destDir version : string)
    (fs : gmap string string) : gmap string string * option string :=
  match convertSpecYAMLToJSONSchema relPath r version with
  | inl err =>
      (fs, Some ("failed converting spec.yml file to JSON schema for "
                 +:+ Quote relPath +:+ ": " +:+ err))
  | inr buf =>
      let destFile := filepath.Join [destDir; relPath] in
      (os.WriteFile destFile buf fs, None)
  end.

End patch.

(** ** [github.com/coreos/go-semver/semver] *)

Module semver.

Record Version := {
  Major : Z;
  Minor : Z;
  Patch : Z;
  PreRelease : string;
  Metadata : string;
}.

(** [splitOff(input, delim)]: the part after the first [delim], which it
    cuts off [input]; the pair is the new [input] and the returned value. *)
Definition splitOff (input : string) (delim : Ascii.ascii) : string * string :=
  match strings.SplitN input delim 2 with
  | [before; after] => (before, after)
  | _ => (input, EmptyString)
  end.

Definition isDigit (c : Ascii.ascii) : bool :=
  (48 <=? Ascii.nat_of_ascii c)%nat && (Ascii.nat_of_ascii c <=? 57)%nat.

Definition isIdentChar (c : Ascii.ascii) : bool :=
  let n := Ascii.nat_of_ascii c in
  isDigit c || ((65 <=? n)%nat && (n <=? 90)%nat)
  || ((97 <=? n)%nat && (n <=? 122)%nat) || Ascii.eqb c "-".

Fixpoint allChars (p : Ascii.ascii -> bool) (s : string) : bool :=
  match s with
  | EmptyString => true
  | String c s' => p c && allChars p s'
  end.

(** The maximal runs of [s] between dots. *)
Fixpoint dotFields (cur s : string) : list string :=
  match s with
  | EmptyString => [cur]
  | String c s' =>
      if Ascii.eqb c "." then cur :: dotFields EmptyString s'
      else dotFields (cur +:+ String c EmptyString) s'
  end.

(** [validateIdentifier(id)]: empty, or dot-separated non-empty runs of
    letters, digits and hyphens. *)
Definition validateIdentifier (id : string) : bool :=
  String.eqb id ""
  || forallb (fun f => negb (String.eqb f "") && allChars isIdentChar f)
             (dotFields EmptyString id).

Fixpoint digitsValue (acc : Z) (s : string) : Z :=
  match s with
  | EmptyString => acc
  | String c s' => digitsValue (10 * acc + Z.of_nat (Ascii.nat_of_ascii c - 48)) s'
  end.

(** [strconv.ParseInt(s, 10, 64)] *)
Definition ParseInt (s : string) : option Z :=
  let '(neg, digits) :=
    match s with
    | String "-" r => (true, r)
    | String "+" r => (false, r)
    | _ => (false, s)
    end in
  if String.eqb digits "" || negb (allChars isDigit digits) then None
  else
    let n := digitsValue 0 digits in
    let n := if neg then (- n)%Z else n in
    if ((- 2 ^ 63 <=? n) && (n <=? 2 ^ 63 - 1))%Z then Some n else None.

(** [NewVersion(version)] *)
Definition NewVersion (version : string) : option Version :=
  let '(version, metadata) := splitOff version "+" in
  let '(version, preRelease) := splitOff version "-" in
  match strings.SplitN version "." 3 with
  | [a; b; c] =>
      if negb (validateIdentifier preRelease) then None
      else if negb (validateIdentifier metadata) then None
      else
        match ParseInt a, ParseInt b, ParseInt c with
        | Some major, Some minor, Some patch =>
            Some {| Major := major; Minor := minor; Patch := patch;
                    PreRelease := preRelease; Metadata := metadata |}
        | _, _, _ => None
        end
  | _ => None
  end.

Definition decimal (n : Z) : string :=
  DecimalString.NilZero.string_of_int (Z.to_int n).

(** [Version.String()] *)
Definition String_ (v : Version) : string :=
  decimal (Major v) +:+ "." +:+ decimal (Minor v) +:+ "." +:+ decimal (Patch v)
  +:+ (if String.eqb (PreRelease v) "" then "" else "-" +:+ PreRelease v)
  +:+ (if String.eqb (Metadata v) "" then "" else "+" +:+ Metadata v).

(** [recursiveCompare] on [Version.Slice()], the three numbers. *)
Definition compareNumbers (a b : Version) : comparison :=
  match (Major a ?= Major b)%Z with
  | Eq =>
      match (Minor a ?= Minor b)%Z with
      | Eq => (Patch a ?= Patch b)%Z
      | c => c
      end
  | c => c
  end.

Section compare.
Context {E : Externals}.

Definition preReleaseCompare (a b : Version) : comparison :=
  match String.eqb (PreRelease a) "", String.eqb (PreRelease b) "" with
  | true, true => Eq
  | true, false => Gt
  | false, true => Lt
  | false, false => recursivePreReleaseCompare (PreRelease a) (PreRelease b)
  end.

(** [Version.Compare] *)
Definition Compare (a b : Version) : comparison :=
  match compareNumbers a b with
  | Eq => preReleaseCompare a b
  | c => c
  end.

(** [Version.LessThan] *)
Definition LessThan (a b : Version) : bool :=
  match Compare a b with
  | Lt => true
  | _ => false
  end.

(** [semver.Sort] sorts a slice of pointers with [sort.Sort] and
    [LessThan]; [deref] reads the version a pointer leads to.  The sort
    is a comparison sort that is not stable; which of the sorted orders
    comes out for equal versions is left to the order of its input. *)
Fixpoint insert {A} (deref : A -> Version) (x : A) (l : list A) : list A :=
  match l with
  | [] => [x]
  | y :: l' =>
      if LessThan (deref y) (deref x) then y :: insert deref x l'
      else x :: l
  end.

Definition Sort {A} (deref : A -> Version) (versions : list A) : list A :=
  foldr (insert deref) [] versions.
End compare.

End semver.

(** ** [git.go]: the repository *)

(** [plumbing.Reference]: a name with a hash, or a name with the name of
    another reference. *)
Inductive Reference : Type :=
| HashReference (name hash : string)
| SymbolicReference (name target : string).

Definition Name (r : Reference) : string :=
  match r with
  | HashReference n _ => n
  | SymbolicReference n _ => n
  end.

Definition ZeroHash : string := "0000000000000000000000000000000000000000".

Definition Hash (r : Reference) : string :=
  match r with
  | HashReference _ h => h
  | SymbolicReference _ _ => ZeroHash
  end.

(** [Reference.String()] *)
Definition Reference_String (r : Reference) : string :=
  match r with
  | HashReference n h => h +:+ " " +:+ n
  | SymbolicReference n t => "ref: " +:+ t +:+ " " +:+ n
  end.

(** White space for [fmt]'s scanning at the head of [s]: the number of
    bytes of the white space character that [s] begins with, [0] when it
    begins with none.  The characters are U+0009 to U+000D, U+0020, U+0085,
    U+00A0, U+1680, U+2000 to U+200A, U+2028, U+2029, U+202F, U+205F and
    U+3000, in UTF-8. *)
Definition spaceWidth (s : string) : nat :=
  match s with
  | String c0 s1 =>
      let b0 := Ascii.nat_of_ascii c0 in
      if ((9 <=? b0) && (b0 <=? 13) || (b0 =? 32))%nat then 1
      else
        match s1 with
        | String c1 s2 =>
            let b1 := Ascii.nat_of_ascii c1 in
            if ((b0 =? 194) && ((b1 =? 133) || (b1 =? 160)))%nat then 2
            else
              match s2 with
              | String c2 _ =>
                  let b2 := Ascii.nat_of_ascii c2 in
                  if ((b0 =? 225) && (b1 =? 154) && (b2 =? 128)
                      || (b0 =? 226) && (b1 =? 128)
                         && ((128 <=? b2) && (b2 <=? 138) || (b2 =? 168) || (b2 =? 169)
                             || (b2 =? 175))
                      || (b0 =? 226) && (b1 =? 129) && (b2 =? 159)
                      || (b0 =? 227) && (b1 =? 128) && (b2 =? 128))%nat
                  then 3 else 0
              | EmptyString => 0
              end
        | EmptyString => 0
        end
  | EmptyString => 0
  end.

(** [SkipSpace] of a scan by [fmt.Sscanf]: the input after its leading
    white space; a line feed there is an error ([None]).  [n] bounds the
    number of characters skipped. *)
Fixpoint skipSpace (n : nat) (s : string) : option string :=
  match n with
  | O => Some s
  | S n' =>
      match spaceWidth s with
      | O => Some s
      | S _ as w =>
          if strings.HasPrefix s newline then None
          else skipSpace n' (strings.drop w s)
      end
  end.

(** The bytes of [s] before its first white space. *)
Fixpoint token (s : string) : string :=
  match s with
  | EmptyString => EmptyString
  | String c s' =>
      match spaceWidth s with
      | O => String c (token s')
      | S _ => EmptyString
      end
  end.

(** [fmt.Sscanf(s, prefix + "%s", &res)]: the word scanned into [res], when
    [s] begins with [prefix] and a word follows. *)
Definition scanWord (s prefix : string) : option string :=
  if strings.HasPrefix s prefix then
    match skipSpace (String.length s) (strings.drop (String.length prefix) s) with
    | Some rest => if String.eqb rest "" then None else Some (token rest)
    | None => None
    end
  else None.

(** [ReferenceName.Short()]: the name is scanned with each of the rules
    [refs/%s], [refs/tags/%s], [refs/heads/%s], [refs/remotes/%s] and
    [refs/remotes/%s/HEAD] in turn; every scan that reads a word replaces
    the result, which is the name itself when none does.  The last rule
    reads its word before it looks for [/HEAD], so it reads what the rule
    before it reads. *)
Definition Short (name : string) : string :=
  foldl (fun res prefix => default res (scanWord name prefix)) name
        ["refs/"; "refs/tags/"; "refs/heads/"; "refs/remotes/"; "refs/remotes/"].

(** A file of the working copy: a regular file with what it holds, or a
    directory with its entries, by name, in the order in which they are
    read (the order of the names). *)
Inductive file : Type :=
| Regular (content : string)
| Directory (entries : list (string * file)).

(** A name of a directory entry: not empty, without slash, and neither dot
    nor dot-dot. *)
Definition isName (name : string) : bool :=
  negb (String.eqb name "") && negb (String.eqb name ".") && negb (String.eqb name "..")
  && semver.allChars (fun c => negb (Ascii.eqb c "/")) name.

Fixpoint namesOK (f : file) : bool :=
  match f with
  | Regular _ => true
  | Directory entries =>
      (fix all (entries : list (string * file)) : bool :=
         match entries with
         | [] => true
         | (name, f') :: rest => isName name && namesOK f' && all rest
         end) entries
  end.

(** The file that the elements of a path lead to from [f]. *)
Fixpoint find (f : file) (elems : list string) : option file :=
  match elems with
  | [] => Some f
  | e :: rest =>
      if String.eqb e "" || String.eqb e "." then find f rest
      else
        match f with
        | Directory entries =>
            match list_find (fun entry => String.eqb entry.1 e = true) entries with
            | Some (_, (_, f')) => find f' rest
            | None => None
            end
        | Regular _ => None
        end
  end.

(** [walk] of [util.Walk]: the function is called on [path], and when that
    is a directory, on what is below each of its entries, in turn. *)
Fixpoint visit (path : string) (f : file) : list (string * option file) :=
  (path, Some f) ::
  match f with
  | Regular _ => []
  | Directory entries =>
      (fix each (entries : list (string * file)) : list (string * option file) :=
         match entries with
         | [] => []
         | (name, f') :: rest => (visit (filepath.Join [path; name]) f' ++ each rest)%list
         end) entries
  end.

(** The working copy, as go-git gives it once a hash is checked out: the
    tree of its files, without symbolic links.  Every file of it can be
    opened. *)
Record Filesystem := {
  fs_tree : file;
  fs_names : namesOK fs_tree = true;
}.

(** [Stat(path)] finds something. *)
Definition Stat (fs : Filesystem) (path : string) : bool :=
  bool_decide (is_Some (find (fs_tree fs) (filepath.elements (filepath.Clean path)))).

(** [util.Walk(fs, root, fn)]: the calls of [fn], in order, each with the
    path and the file that [Lstat] found there; the only call when [Lstat]
    finds nothing at [root] is the one that passes its error on. *)
Definition Walk (fs : Filesystem) (root : string) : list (string * option file) :=
  match find (fs_tree fs) (filepath.elements (filepath.Clean root)) with
  | Some f => visit root f
  | None => [(root, None)]
  end.

(** The opened repository, as go-git gives it: [ResolveRevision],
    [References], [Tags], and the working copy that a checkout of a hash
    leaves. *)
Record GitRepository := {
  repo_ResolveRevision : string -> Err string;
  repo_References : Err (list Reference);
  repo_Tags : Err (list Reference);
  repo_Checkout : string -> Err Filesystem;
}.

(** [tagToSemver] converts a git tag reference to a semantic version.
    Returns [None] if the tag is not a valid semantic version. *)
Definition tagToSemver (ref : Reference) : option semver.Version :=
  let tag := Short (Name ref) in
  if negb (strings.HasPrefix tag "v") then None
  else
    let tag := strings.TrimPrefix tag "v" in
    semver.NewVersion tag.

Section git.
Context {E : Externals}.

(** [plumbing.NewReferenceFromStrings(name, target)] *)
Definition NewReferenceFromStrings (name target : string) : Reference :=
  if strings.HasPrefix target "ref: " then SymbolicReference name (strings.drop 5 target)
  else HashReference name (NewHash target).

Definition ResolveReference (g : GitRepository) (ref : string) : Err Reference :=
  match repo_ResolveRevision g ref with
  | inl err => inl ("failed to resolve revision " +:+ Quote ref +:+ ": " +:+ err)
  | inr hash =>
      match repo_References g with
      | inl err => inl ("failed to get references: " +:+ err)
      | inr refs =>
          let foundRef := last (filter (fun r => Hash r = hash) refs) in
          match foundRef with
          | Some r => inr r
          | None => inr (HashReference ("refs/heads/" +:+ ref) hash)
          end
      end
  end.

(** The tags kept by the [ForEach] of [GetReleaseTags], in the order of
    the iterator.  A key of [versionToRef] is the address of a version
    allocated for one tag, so every kept tag has an entry of its own; an
    entry is the version behind the key and the reference it maps to. *)
Definition releaseEntries (tags : list Reference) : list (semver.Version * Reference) :=
  omap (fun reference =>
          match tagToSemver reference with
          | None => None
          | Some ver =>
              if negb (String.eqb (semver.PreRelease ver) "") then None
              else Some (ver, reference)
          end) tags.

(** [GetReleaseTags] returns all release tags sorted by semantic version. *)
Definition GetReleaseTags (g : GitRepository) : Err (list Reference) :=
  match repo_Tags g with
  | inl err => inl ("failed to get tags: " +:+ err)
  | inr tags =>
      let versionToRef := releaseEntries tags in
      let versions := rangeOrder _ versionToRef in
      let versions := semver.Sort fst versions in
      inr (map snd versions)
  end.

End git.

(** ** [git.go]: opening the repository *)

(** The errors of go-git that the generator tells apart with [errors.Is],
    and the others. *)
Inductive GitError : Type :=
| ErrRepositoryNotExists
| NoErrAlreadyUpToDate
| OtherError (msg : string).

Definition GitError_Error (err : GitError) : string :=
  match err with
  | ErrRepositoryNotExists => "repository does not exist"
  | NoErrAlreadyUpToDate => "already up-to-date"
  | OtherError msg => msg
  end.

(** go-git on the disk and on the network: [git.PlainOpen(path)],
    [git.PlainClone(path, false, &git.CloneOptions{URL: url})], and
    [Repository.Fetch], which leaves the repository with what it fetched. *)
Record Git := {
  PlainOpen : string -> GitError + GitRepository;
  PlainClone : string -> string -> GitError + GitRepository;
  repo_Fetch : GitRepository -> GitError + GitRepository;
}.

(** [strings.NewReplacer("/", "_", " ", "")] *)
Definition slugSanitizer : list (Ascii.ascii * string) :=
  [("/"%char, "_"); (" "%char, "")].

(** [repoDir] in [NewGitRepository], from the path of the parsed URL. *)
Definition repoDir (workDir path : string) : string :=
  filepath.Join
    [workDir; "git";
     strings.Replacer_Replace slugSanitizer
       (strings.TrimSuffix (strings.TrimPrefix path "/") ".git")].

(** [Fetch] retrieves the latest changes from the remote repository. *)
Definition Fetch (G : Git) (g : GitRepository) : Err GitRepository :=
  match repo_Fetch G g with
  | inl NoErrAlreadyUpToDate => inr g
  | inl err => inl ("failed in git fetch: " +:+ GitError_Error err)
  | inr g' => inr g'
  end.

Section open.
Context {E : Externals}.

(** [NewGitRepository] opens or clones the remote repository.  The lines
    that it logs are not part of the model, and [os.MkdirAll] succeeds, as
    the operations of [os] do here. *)
Definition NewGitRepository (G : Git) (githubURL workDir : string) (fetch : bool)
    : Err GitRepository :=
  match url_Parse githubURL with
  | inl err => inl ("failed to parse repository URL: " +:+ err)
  | inr repoURL =>
      let repoDir := repoDir workDir (url_Path repoURL) in
      let opened :=
        match PlainOpen G repoDir with
        | inl ErrRepositoryNotExists => PlainClone G repoDir githubURL
        | opened => opened
        end in
      match opened with
      | inl err => inl ("failed to open/clone repository: " +:+ GitError_Error err)
      | inr gitRepo => if fetch then Fetch G gitRepo else inr gitRepo
      end
  end.

End open.

(** ** [main.go]: one version, and the run *)

Section generate.
Context {E : Externals} {F : Flags}.

(** [getSpecPath] searches for the repository path that contains the
    specifications. *)
Definition getSpecPath (fs : Filesystem) : Err string :=
  let search := ["spec"; "versions/1"] in
  match filter (fun path => Stat fs path = true) search with
  | path :: _ => inr path
  | [] => inl "no spec found"
  end.

(** [slices.Sorted(maps.Keys(m))]: the keys in ascending order.  The keys
    of a map are distinct, so the order in which they are collected does
    not show. *)
Definition sortedKeys (m : gmap string string) : list string :=
  merge_sort String.le (map_to_list m).*1.

(** One round of the loop over the sorted manifest types: one more element
    of [s.AllOf] and one more entry of [s.Defs]. *)
Definition addManifestType (manifestTypes : gmap string string)
    (s : Schema) (manifestType : string) : Schema :=
  let definitionName := manifestType +:+ "-manifest" in
  let branch :=
    ifThenSchema
      (propertiesSchema {[ "type" := constSchema (VString manifestType) ]})
      (refSchema ("#/$defs/" +:+ definitionName)) in
  let def := refSchema ("./" +:+ default "" (manifestTypes !! manifestType)) in
  {| Schema_ := Schema_ s; ID := ID s; Title := Title s;
     Description := Description s; Type_ := Type_ s; Required := Required s;
     Properties := Properties s; Enum := Enum s; Const := Const s;
     Defs := <[definitionName := def]> (Defs s);
     AllOf := (AllOf s ++ [branch])%list;
     If := If s; Then := Then s; Ref := Ref s |}.

(** The schema value [s] that [combinedManifestSchema] builds. *)
Definition combinedManifest (files : list string) (version : string) : Err Schema :=
  let manifestTypes : gmap string string :=
    {[ "content" := "content/manifest.jsonschema.json";
       "input" := "input/manifest.jsonschema.json";
       "integration" := "integration/manifest.jsonschema.json" ]} in
  let manifestTypes :=
    filter (fun '(typ, path) =>
              existsb (fun s => strings.HasSuffix (filepath.ToSlash s) path) files = true)
           manifestTypes in
  if decide (size manifestTypes = 0) then inl "no manifest types found"
  else
    match schemaID version "manifest.jsonschema.json" with
    | inl err => inl err
    | inr id =>
        let s :=
          {| Schema_ := "https://json-schema.org/draft/2020-12/schema";
             ID := id;
             Title := "Package Manifest";
             Description := "Schema for package manifests.";
             Type_ := "object";
             Required := ["type"];
             Properties :=
               {[ "type" := enumSchema "string" [VStrings (sortedKeys manifestTypes)] ]};
             Enum := []; Const := None;
             Defs := ∅;
             AllOf := []; If := None; Then := None; Ref := "" |} in
        inr (foldl (addManifestType manifestTypes) s (sortedKeys manifestTypes))
    end.

Definition combinedManifestSchema (files : list string) (version : string) : Err string :=
  match combinedManifest files version with
  | inl err => inl err
  | inr s => json_MarshalIndent s
  end.

(** The version that names the output directory: [ver] in [writeSchemas]. *)
Definition versionOf (ref : Reference) : string :=
  let ver := Name ref in
  match tagToSemver ref with
  | Some v => semver.String_ v
  | None => ver
  end.

(** The function that [writeSchemas] hands to [util.Walk], at one call;
    the state is the output file system and [written].  A directory can be
    opened, but not read: the decoder fails on it. *)
Definition walkFn (repoPath dir ver : string)
    (st : gmap string string * list string) (entry : string * option file)
    : (gmap string string * list string) * option string :=
  let '(fs, written) := st in
  let '(path, info) := entry in
  match info with
  | None => (st, Some (lstat_Error path))
  | Some f =>
      if negb (strings.HasSuffix (filepath.Base path) ".spec.yml") then (st, None)
      else
        let relPath :=
          strings.TrimPrefix (filepath.ToSlash path) (filepath.ToSlash repoPath +:+ "/") in
        let relPath := strings.Replace1 relPath ".spec.yml" ".jsonschema.json" in
        let written := (written ++ [relPath])%list in
        match f with
        | Regular content =>
            let '(fs, err) := writeSchema relPath content dir ver fs in
            ((fs, written), err)
        | Directory _ =>
            ((fs, written),
             Some ("failed converting spec.yml file to JSON schema for "
                   +:+ Quote relPath +:+ ": "
                   +:+ "failed to decode YAML: " +:+ yaml_inputError path))
        end
  end.

(** [util.Walk] stops at the first error of its function. *)
Fixpoint walk (fn : gmap string string * list string -> string * option file ->
                    (gmap string string * list string) * option string)
    (entries : list (string * option file)) (st : gmap string string * list string)
    : (gmap string string * list string) * option string :=
  match entries with
  | [] => (st, None)
  | entry :: rest =>
      match fn st entry with
      | (st, Some err) => (st, Some err)
      | (st, None) => walk fn rest st
      end
  end.

Definition writeSchemas (git : GitRepository) (ref : Reference)
    (fs : gmap string string) : gmap string string * option string :=
  let ver := versionOf ref in
  let dir := filepath.Join [outDir; ver; "jsonschema"] in
  match repo_Checkout git (Hash ref) with
  | inl err => (fs, Some err)
  | inr wt =>
      match getSpecPath wt with
      | inl err => (fs, Some err)
      | inr repoPath =>
          let fs := os.RemoveAll dir fs in
          match walk (walkFn repoPath dir ver) (Walk wt repoPath) (fs, []) with
          | ((fs, _), Some err) => (fs, Some err)
          | ((fs, written), None) =>
              if negb (bool_decide ("manifest.jsonschema.json" ∈ written)) then
                match combinedManifestSchema written ver with
                | inl err => (fs, Some err)
                | inr b =>
                    (os.WriteFile (filepath.Join [dir; "manifest.jsonschema.json"]) b fs,
                     None)
                end
              else (fs, None)
          end
      end
  end.

(** The references that [run] generates schemas for. *)
Definition gitRefs (git : GitRepository) : Err (list Reference) :=
  if negb (String.eqb gitRef "") then
    match ResolveReference git gitRef with
    | inl err => inl err
    | inr hash => inr [NewReferenceFromStrings gitRef (Reference_String hash)]
    end
  else GetReleaseTags git.

Fixpoint writeAll (git : GitRepository) (refs : list Reference)
    (fs : gmap string string) : gmap string string * option string :=
  match refs with
  | [] => (fs, None)
  | ref :: rest =>
      match writeSchemas git ref fs with
      | (fs, Some err) => (fs, Some err)
      | (fs, None) => writeAll git rest fs
      end
  end.

(** [run]; [NewGitRepository] is what opening or cloning gave.  What these
    do on the disk is confined to the directory of the clones. *)
Definition run (NewGitRepository : Err GitRepository)
    (fs : gmap string string) : gmap string string * option string :=
  match NewGitRepository with
  | inl err => (fs, Some err)
  | inr git =>
      match gitRefs git with
      | inl err => (fs, Some err)
      | inr refs => writeAll git refs fs
      end
  end.

End generate.

(** ** [bundle/main.go]: the bundler *)

Module bundle.

(** What running the [jsonschema] tool gave: its two output streams and
    the error of [cmd.Run], if any. *)
Record ExecResult := {
  stdout : string;
  stderr : string;
  runError : option string;
}.

(** The operating system of the bundler: [exec.LookPath], the tool (which
    reads the files it is pointed at), and the paths that [filepath.Walk]
    meets from a root, in its order. *)
Class System := {
  LookPath : string -> bool;
  jsonschema : list string -> gmap string string -> ExecResult;
  filepath_Walk : string -> gmap string string -> Err (list string);
}.

(** The flags [-i] and [-o]. *)
Class Flags := {
  inDir : string;
  outDir : string;
}.

(** The state that the bundler changes: the files, and what it has
    printed on its own standard error. *)
Record World := {
  files : gmap string string;
  osStderr : string;
}.

Section bundler.
Context {E : Externals} {S : System}.

Definition trimFilePrefix (path prefix : string) : string :=
  let path := filepath.ToSlash path in
  let prefix := filepath.ToSlash prefix in
  strings.TrimPrefix path (prefix +:+ "/").

Definition jsonschemaExec (args : list string) (w : World) : World * Err string :=
  let res := jsonschema args (files w) in
  match runError res with
  | Some err =>
      ({| files := files w; osStderr := osStderr w +:+ stderr res +:+ newline |},
       inl ("failed running jsonschema " +:+ strings.Join args " " +:+ ": " +:+ err))
  | None => (w, inr (stdout res))
  end.

Definition bundleSchema (schemaPath inDir outDir : string) (w : World)
    : World * option string :=
  let args := ["bundle"; schemaPath; "--resolve"; inDir; "--without-id"] in
  match jsonschemaExec args w with
  | (w, inl err) => (w, Some err)
  | (w, inr out) =>
      let outFile := filepath.Join [outDir; trimFilePrefix schemaPath inDir] in
      ({| files := os.WriteFile outFile out (files w); osStderr := osStderr w |}, None)
  end.

(** [findFiles] walks a directory and returns all files that match the
    given predicate. *)
Definition findFiles (dir : string) (match_ : string -> bool) (w : World)
    : Err (list string) :=
  match filepath_Walk dir (files w) with
  | inl err => inl err
  | inr paths => inr (filter (fun path => match_ path = true) paths)
  end.

(** The loop of [run] over the schemas found. *)
Fixpoint bundleAll (schemas : list string) (inDir outDir : string) (w : World)
    : World * option string :=
  match schemas with
  | [] => (w, None)
  | schema :: rest =>
      match bundleSchema schema inDir outDir w with
      | (w, Some err) =>
          (w, Some ("bundling " +:+ Quote schema +:+ " failed: " +:+ err))
      | (w, None) => bundleAll rest inDir outDir w
      end
  end.

Context {F : Flags}.

Definition run (w : World) : World * option string :=
  if String.eqb inDir "" then (w, Some "no input dir specified")
  else if String.eqb outDir "" then (w, Some "no output dir specified")
  else if negb (LookPath "jsonschema") then
    (w, Some "jsonschema tool not found in $PATH")
  else
    match findFiles inDir (fun path => strings.HasSuffix path ".jsonschema.json") w with
    | inl err => (w, Some ("failed finding files: " +:+ err))
    | inr schemas => bundleAll schemas inDir outDir w
    end.

End bundler.

End bundle.

(** * Specification vocabulary

    Definitions used to state the properties; none of them is part of the
    program. *)

(** The number of places at which [substr] begins in [s]. *)
Fixpoint occurrences (s substr : string) : nat :=
  (if strings.HasPrefix s substr then 1 else 0) +
  match s with
  | EmptyString => 0
  | String _ s' => occurrences s' substr
  end.

(** The carets after the first [#] encoded, character by character. *)
Fixpoint encodeAfterHash (s : string) : string :=
  match s with
  | EmptyString => EmptyString
  | String c s' =>
      if Ascii.eqb c "#" then String c (strings.ReplaceAll s' "^" "%5E")
      else String c (encodeAfterHash s')
  end.

(** What the pass makes of a string [$ref]. *)
Definition patchedRef (refStr : string) : string :=
  (encodeURIFragment (strings.Replace1 refStr ".spec.yml" ".jsonschema.json")).1.

(** The pass without its error plumbing: what it leaves of an entry. *)
Definition patchedEntry (rec : any -> any) (isRoot : bool)
    (key : string) (value : any) : option any :=
  if String.eqb key "$id" then (if isRoot then Some value else None)
  else if String.eqb key "$ref" then
    match value with
    | AString refStr => Some (AString (patchedRef refStr))
    | _ => Some value
    end
  else if String.eqb key "additionalProperties" then
    match value with
    | ABool true => None
    | _ => Some (rec value)
    end
  else Some (rec value).

(** The document that the pass leaves. *)
Fixpoint patched (v : any) (isRoot : bool) {struct v} : any :=
  match v with
  | AMap obj => AMap (map_imap (patchedEntry (fun value => patched value false) isRoot) obj)
  | ASlice obj => ASlice (map (fun item => patched item false) obj)
  | _ => v
  end.

(** A place in a document: the keys and indices that lead to it. *)
Inductive step : Type :=
| Key (k : string)
| Index (i : nat).

(** The node of [v] at the place [p], if there is one. *)
Fixpoint at_path (p : list step) (v : any) : option any :=
  match p with
  | [] => Some v
  | Key k :: p' =>
      match v with
      | AMap obj => obj !! k ≫= at_path p'
      | _ => None
      end
  | Index i :: p' =>
      match v with
      | ASlice obj => obj !! i ≫= at_path p'
      | _ => None
      end
  end.

(** The places that the pass walks into: no step is the key [$id] or the
    key [$ref]. *)
Definition walked (p : list step) : bool :=
  forallb (fun s => match s with
                    | Key k => negb (String.eqb k "$id") && negb (String.eqb k "$ref")
                    | Index _ => true
                    end) p.

(** Every string [$ref] that the pass walks to has [.spec.yml] at most
    once. *)
Definition refsOnce (doc : any) : Prop :=
  forall p obj refStr,
    walked p = true -> at_path p doc = Some (AMap obj) ->
    obj !! "$ref" = Some (AString refStr) ->
    occurrences refStr ".spec.yml" <= 1.

(** The number of nodes of a document, a measure for induction. *)
Fixpoint any_size (v : any) : nat :=
  match v with
  | ASlice l => S (sum_list (map any_size l))
  | AMap m => S (map_fold (fun _ n acc => n + acc) 0 (any_size <$> m))
  | _ => 1
  end.

(** The entry that the pass deletes on its way. *)
Definition dropped (k : string) (x : any) : bool :=
  String.eqb k "additionalProperties" && match x with ABool true => true | _ => false end.

(** The node at the end of [p] is such an entry. *)
Definition deletedAt (p : list step) (x : any) : bool :=
  match last p with
  | Some (Key k) => dropped k x
  | _ => false
  end.

(** A document with the object of the scenario inside. *)
Definition scenarioDoc : any :=
  AMap {[ "properties" :=
            AMap {[ "x" := AMap {[ "additionalProperties" := ABool true;
                                   "$ref" := AString "foo.spec.yml#/bar^baz" ]} ]} ]}.

(** The rewriting of a reference in the words of the specification: the
    [.spec.yml] suffix of the part before the [#] is replaced, the carets of
    the fragment are encoded, nothing else changes. *)
Definition replaceSuffix (s : string) : string :=
  if strings.HasSuffix s ".spec.yml"
  then String.substring 0 (String.length s - 9) s +:+ ".jsonschema.json"
  else s.

Definition specRewrittenRef (ref : string) : string :=
  match strings.SplitN ref "#" 2 with
  | [base; fragment] => replaceSuffix base +:+ "#" +:+ strings.ReplaceAll fragment "^" "%5E"
  | _ => replaceSuffix ref
  end.

(** The manifest types found among the written files, in the order of the
    three names. *)
Definition presentTypes (files : list string) : list string :=
  filter (fun typ =>
            existsb (fun s => strings.HasSuffix (filepath.ToSlash s)
                                (typ +:+ "/manifest.jsonschema.json")) files = true)
         ["content"; "input"; "integration"].

(** The conditional for one manifest type: if [type] is the type, then
    [$defs/<type>-manifest]. *)
Definition manifestBranch (manifestType : string) : Schema :=
  ifThenSchema
    (propertiesSchema {[ "type" := constSchema (VString manifestType) ]})
    (refSchema ("#/$defs/" +:+ manifestType +:+ "-manifest")).

(** The filter of the three manifest types depends on the files through
    three booleans only. *)
Definition typeTable (b1 b2 b3 : bool) (entry : string * string) : Prop :=
  (if String.eqb entry.1 "content" then b1
   else if String.eqb entry.1 "input" then b2
   else if String.eqb entry.1 "integration" then b3
   else false) = true.

#[local] Instance typeTable_dec b1 b2 b3 entry : Decision (typeTable b1 b2 b3 entry).
Proof. unfold typeTable. apply _. Defined.

(** A prefix [q] that the replacement of the first [.spec.yml] cannot
    bring about. *)
Definition apart (q : string) : Prop :=
  forall r, strings.HasPrefix r q = false ->
            strings.HasPrefix (strings.Replace1 r ".spec.yml" ".jsonschema.json") q = false.

(** The order of the numbers: major, then minor, then patch. *)
Definition numLe (a b : semver.Version) : Prop :=
  (semver.Major a < semver.Major b)%Z \/
  (semver.Major a = semver.Major b /\
   ((semver.Minor a < semver.Minor b)%Z \/
    (semver.Minor a = semver.Minor b /\ (semver.Patch a <= semver.Patch b)%Z))).

(** The order of the numbers, and the absence of a pre-release, behind
    pointers. *)
Definition leBy {A : Type} (deref : A -> semver.Version) (a b : A) : Prop :=
  numLe (deref a) (deref b).

Definition releaseBy {A : Type} (deref : A -> semver.Version) (a : A) : Prop :=
  semver.PreRelease (deref a) = "".

(** A tag that [GetReleaseTags] keeps: [v] and a semantic version without
    pre-release. *)
Definition isRelease (r : Reference) : bool :=
  match tagToSemver r with
  | Some ver => String.eqb (semver.PreRelease ver) ""
  | None => false
  end.

(** The same order on tags that are versions. *)
Definition releaseLe (a b : Reference) : Prop :=
  match tagToSemver a, tagToSemver b with
  | Some va, Some vb => numLe va vb
  | _, _ => False
  end.

(** The tag [name] at the commit [hash]. *)
Definition tag (name hash : string) : Reference :=
  HashReference ("refs/tags/" +:+ name) hash.

(** *** The names of the releases *)

(** A decimal numeral that an [int64] holds: digits, at least one, and
    the number they are read as. *)
Definition numeral (s : string) (n : Z) : Prop :=
  exists d, NilEmpty.uint_of_string s = Some d /\ s <> "" /\
            n = Z.of_uint d /\ (n <= 2 ^ 63 - 1)%Z.

(** The characters of an identifier: digits, letters and the hyphen. *)
Definition identChar (c : Ascii.ascii) : bool :=
  existsb (Ascii.eqb c)
    (list_ascii_of_string "0123456789ABCDEFGHIJKLMNOPQRSTUVWXYZabcdefghijklmnopqrstuvwxyz-").

(** Identifiers, each of at least one character, separated by dots. *)
Inductive identifiers : string -> Prop :=
| identifiers_one i :
    i <> "" -> semver.allChars identChar i = true -> identifiers i
| identifiers_more i s :
    i <> "" -> semver.allChars identChar i = true -> identifiers s ->
    identifiers (i +:+ "." +:+ s).

(** The name of a release: [v], three numerals separated by dots, then, if
    anything, a hyphen with no pre-release after it, and a plus sign with
    build metadata, which may be empty. *)
Definition releaseName (name : string) (major minor patch : Z) : Prop :=
  exists a b c hyphen build,
    name = "v" +:+ a +:+ "." +:+ b +:+ "." +:+ c +:+ hyphen +:+ build /\
    numeral a major /\ numeral b minor /\ numeral c patch /\
    (hyphen = "" \/ hyphen = "-") /\
    (build = "" \/ exists m, build = "+" +:+ m /\ (m = "" \/ identifiers m)).

(** The order of three numbers: the first, then the second, then the
    third. *)
Definition numbersLe (x y : Z * Z * Z) : Prop :=
  let '(a1, b1, c1) := x in
  let '(a2, b2, c2) := y in
  (a1 < a2)%Z \/ (a1 = a2 /\ ((b1 < b2)%Z \/ (b1 = b2 /\ (c1 <= c2)%Z))).

(** The order of the releases by the numbers in their names. *)
Definition nameLe (n1 n2 : string) : Prop :=
  forall M1 m1 p1 M2 m2 p2,
    releaseName n1 M1 m1 p1 -> releaseName n2 M2 m2 p2 ->
    numbersLe (M1, m1, p1) (M2, m2, p2).

(** A word of printable characters: no white space, no control character,
    nothing outside ASCII. *)
Definition printable (c : Ascii.ascii) : bool :=
  (33 <=? Ascii.nat_of_ascii c)%nat && (Ascii.nat_of_ascii c <=? 126)%nat.

Definition plain (s : string) : bool := semver.allChars printable s.

(** Every file of [W] is [dir] or below it. *)
Definition within (dir : string) (W : gmap string string) : Prop :=
  forall p, is_Some (W !! p) -> os.below dir p = true.

(** No byte of [s] is [sep]. *)
Definition lacks (sep : Ascii.ascii) (s : string) : bool :=
  semver.allChars (fun c => negb (Ascii.eqb c sep)) s.

(** A version as [semver.NewVersion] builds it: numbers of an [int64] that
    are not negative, and identifiers that [validateIdentifier] accepts. *)
Definition wellFormed (v : semver.Version) : Prop :=
  (0 <= semver.Major v <= 2 ^ 63 - 1)%Z /\
  (0 <= semver.Minor v <= 2 ^ 63 - 1)%Z /\
  (0 <= semver.Patch v <= 2 ^ 63 - 1)%Z /\
  semver.validateIdentifier (semver.PreRelease v) = true /\
  semver.validateIdentifier (semver.Metadata v) = true.

(** The calls of a walk that [writeSchemas] does not pass over: a file or
    a directory whose name ends in [.spec.yml], and a path at which nothing
    was found. *)
Definition isSpecFile (entry : string * option file) : bool :=
  match entry.2 with
  | Some _ => strings.HasSuffix (filepath.Base entry.1) ".spec.yml"
  | None => true
  end.

(** The path, relative to the output directory of the version, of the
    schema written for the file [path] of the tree: [relPath] in
    [writeSchemas]. *)
Definition relPathOf (repoPath path : string) : string :=
  strings.Replace1
    (strings.TrimPrefix (filepath.ToSlash path) (filepath.ToSlash repoPath +:+ "/"))
    ".spec.yml" ".jsonschema.json".

(** A document in which the pass finds nothing to do: at the objects it
    walks to there is no [$id] (the root apart, when [isRoot]), no
    [additionalProperties] that is [true], and no string [$ref] that the
    rewriting changes. *)
Definition settled (isRoot : bool) (doc : any) : Prop :=
  forall p obj,
    walked p = true -> at_path p doc = Some (AMap obj) ->
    (isRoot && bool_decide (p = []) = false -> obj !! "$id" = None) /\
    obj !! "additionalProperties" <> Some (ABool true) /\
    (forall refStr, obj !! "$ref" = Some (AString refStr) -> patchedRef refStr = refStr).

(** *** Paths *)

(** The elements of two strings, one after the other: the last element of
    the first and the first element of the second are one element. *)
Fixpoint glue (l1 l2 : list string) : list string :=
  match l1 with
  | [] => l2
  | [e] => match l2 with
           | e2 :: r2 => (e +:+ e2) :: r2
           | [] => [e]
           end
  | e :: r1 => e :: glue r1 l2
  end.

(** What [Clean] prints for a stack. *)
Definition render (rooted : bool) (stack : list string) : string :=
  let out := strings.Join (reverse stack) "/" in
  if rooted then "/" +:+ out
  else if String.eqb out "" then "." else out.

(** A stack of [Clean]: names, over dot-dots when the path is not rooted. *)
Definition normal (rooted : bool) (stack : list string) : Prop :=
  exists names dots,
    stack = (names ++ dots)%list /\
    Forall (fun e => isName e = true) names /\
    Forall (fun e => e = "..") dots /\
    (rooted = true -> dots = []).

(** A cleaned path other than the dot and the root. *)
Definition cleaned (dir : string) : Prop :=
  exists r st, st <> [] /\ normal r st /\ dir = render r st.

(** A path of names, separated by slashes. *)
Definition relative (rel : string) : Prop :=
  Forall (fun e => isName e = true) (filepath.elements rel).

(** What is before the names in the cleaned [x/rel]. *)
Definition before (x : string) : string :=
  let r := strings.HasPrefix x "/" in
  let st := foldl (filepath.cleanElement r) [] (filepath.elements x) in
  (if r then "/" else "")
  +:+ match st with
      | [] => ""
      | _ => strings.Join (reverse st) "/" +:+ "/"
      end.

(** [p] is [root] or lies below it by a path of names. *)
Definition under (root p : string) : Prop :=
  p = root \/ exists rel, relative rel /\ p = root +:+ "/" +:+ rel.


(** ** An instance of the outside, for running the definitions *)

Module sample.

(** Quoting of a string of printable characters that has neither a double
    quote nor a backslash. *)
Definition quote (s : string) : string := dquote +:+ s +:+ dquote.

(** A URL is its scheme and host, and its path. *)
Fixpoint hostAndPath (host s : string) : string * string :=
  match s with
  | EmptyString => (host, EmptyString)
  | String c s' =>
      if Ascii.eqb c "/" then (host, s)
      else hostAndPath (host +:+ String c EmptyString) s'
  end.

Definition parseURL (s : string) : Err (string * string) :=
  if strings.HasPrefix s "https://" then
    let '(host, path) := hostAndPath EmptyString (strings.drop 8 s) in
    inr ("https://" +:+ host, path)
  else inl ("unsupported URL " +:+ quote s).

(** A decoder for three shapes of file: the empty file, [spec: text] and
    anything else. *)
Definition decodeYAML (r : string) : Err (gmap string any) :=
  if String.eqb r "" then inl "EOF"
  else if strings.HasPrefix r "spec: " then
    inr {[ "spec" := AMap {[ "description" := AString (strings.drop 6 r) ]} ]}
  else inr {[ "description" := AString r ]}.

(** The run of hexadecimal digits at the head of a string. *)
Fixpoint hexPrefix (s : string) : string :=
  match s with
  | EmptyString => EmptyString
  | String c s' =>
      let n := Ascii.nat_of_ascii c in
      if ((48 <=? n) && (n <=? 57) || (97 <=? n) && (n <=? 102))%nat
      then String c (hexPrefix s')
      else EmptyString
  end.

Fixpoint json_text (v : any) : string :=
  match v with
  | ANil => "null"
  | ABool b => if b then "true" else "false"
  | AInt n => semver.decimal n
  | AFloat lit => lit
  | AString s => quote s
  | ASlice l => "[" +:+ strings.Join (map json_text l) "," +:+ "]"
  | AMap m =>
      "{" +:+ strings.Join
                (merge_sort String.le
                   ((fun kv => quote kv.1 +:+ ":" +:+ kv.2) <$> map_to_list (json_text <$> m)))
                "," +:+ "}"
  | AUint n => semver.decimal n
  | ATime t => quote t
  | AMapI _ => "null"
  end.

(** The JSON encoder has no text for a mapping with a key that is not a
    string. *)
Fixpoint encodable (v : any) : bool :=
  match v with
  | ASlice l => forallb encodable l
  | AMap m => map_fold (fun _ b acc => b && acc) true (encodable <$> m)
  | AMapI _ => false
  | _ => true
  end.

Definition encodeJSON (v : any) : Err string :=
  if encodable v then inr (json_text v)
  else inl "json: unsupported type: map[interface {}]interface {}".

#[refine] Instance externals : Externals := {|
  Quote := quote;
  URL := string * string;
  url_Parse := parseURL;
  url_Path := snd;
  url_setPath := fun u p => (u.1, p);
  url_String := fun u => u.1 +:+ u.2;
  path_Join := filepath.Join;
  yaml_Decode := decodeYAML;
  yaml_inputError := fun path => "yaml: input error: read " +:+ path +:+ ": is a directory";
  lstat_Error := fun path => "lstat " +:+ path +:+ ": no such file or directory";
  json_Encode := encodeJSON;
  json_MarshalIndent := fun s => inr ("{" +:+ quote "$id" +:+ ":" +:+ quote (ID s) +:+ "}");
  NewHash := hexPrefix;
  recursivePreReleaseCompare := String.compare;
  rangeOrder := fun A l => reverse l;
|}.
Proof. intros A l. apply reverse_Permutation. Defined.

(** A working copy with two specification files and a text file. *)
Definition tree : Filesystem :=
  {| fs_tree :=
       Directory
         [ ("spec",
            Directory
              [ ("README.md", Regular "notes");
                ("integration",
                 Directory
                   [ ("data_stream",
                      Directory [ ("manifest.spec.yml", Regular "spec: data stream") ]);
                     ("manifest.spec.yml", Regular "spec: integration") ]) ]) ];
     fs_names := eq_refl |}.

(** A working copy whose only specification file has no [spec] key. *)
Definition brokenTree : Filesystem :=
  {| fs_tree :=
       Directory
         [ ("spec",
            Directory
              [ ("integration",
                 Directory [ ("manifest.spec.yml", Regular "no schema here") ]) ]) ];
     fs_names := eq_refl |}.

(** A repository with the four tags of the ordering scenario and a branch. *)
Definition repository : GitRepository :=
  {| repo_ResolveRevision := fun rev =>
       if bool_decide (rev ∈ ["v1.2.0"; "main"]) then inr "5f0c1a" else inl "reference not found";
     repo_References := inr [tag "v1.2.0" "5f0c1a"; HashReference "refs/heads/main" "5f0c1a"];
     repo_Tags := inr [tag "v1.2.0" "5f0c1a"; tag "v1.10.0" "b2"; tag "v2.0.0-beta1" "c3";
                       tag "v1.3.0" "d4"];
     repo_Checkout := fun hash =>
       if String.eqb hash "5f0c1a" then inr tree else inr brokenTree |}.

(** The default flags, with [-git-ref] set. *)
Definition flagsFor (ref : string) : Flags :=
  {| workDir := ".package-spec-schema";
     outDir := ".";
     dialect := "https://json-schema.org/draft/2020-12/schema";
     baseURI := "https://schemas.elastic.dev/package-spec";
     gitURL := "https://github.com/elastic/package-spec.git";
     gitRef := ref;
     gitFetch := false |}.

(** A tool that cannot resolve [broken.jsonschema.json]. *)
Definition tool : bundle.System :=
  {| bundle.LookPath := fun _ => true;
     bundle.jsonschema := fun args _ =>
       if bool_decide ("in/broken.jsonschema.json" ∈ args) then
         {| bundle.stdout := "";
            bundle.stderr := "error: could not resolve the reference";
            bundle.runError := Some "exit status 1" |}
       else {| bundle.stdout := "{}"; bundle.stderr := ""; bundle.runError := None |};
     bundle.filepath_Walk := fun _ _ =>
       inr ["in"; "in/a.jsonschema.json"; "in/broken.jsonschema.json"; "in/c.jsonschema.json"] |}.

(** Files of two versions, one of them stale. *)
Definition staleFiles : gmap string string :=
  {[ "1.2.0/jsonschema/stale.jsonschema.json" := "old";
     "1.1.0/jsonschema/manifest.jsonschema.json" := "kept" ]}.

(** The default flags, with [-o out]. *)
Definition flagsOut : Flags :=
  {| workDir := ".package-spec-schema";
     outDir := "out";
     dialect := "https://json-schema.org/draft/2020-12/schema";
     baseURI := "https://schemas.elastic.dev/package-spec";
     gitURL := "https://github.com/elastic/package-spec.git";
     gitRef := "";
     gitFetch := false |}.

(** Files of two versions and a bundle, under [out]. *)
Definition outFiles : gmap string string :=
  {[ "out/1.2.0/jsonschema/manifest.jsonschema.json" := "kept";
     "out/1.2.0/bundles/manifest.jsonschema.json" := "bundle";
     "out/1.3.0/jsonschema/stale.jsonschema.json" := "old" ]}.

(** A working copy with one specification file, and the same with two files
    and a directory more that are not specifications. *)
Definition plainTree : Filesystem :=
  {| fs_tree :=
       Directory
         [ ("spec",
            Directory [ ("input", Directory [ ("manifest.spec.yml", Regular "spec: input") ]) ]) ];
     fs_names := eq_refl |}.

Definition noisyTree : Filesystem :=
  {| fs_tree :=
       Directory
         [ ("spec",
            Directory
              [ ("README.md", Regular "notes");
                ("input",
                 Directory
                   [ ("changelog.yml", Regular "- version: 1.0.0");
                     ("docs", Directory [ ("README.md", Regular "notes") ]);
                     ("manifest.spec.yml", Regular "spec: input") ]) ]) ];
     fs_names := eq_refl |}.

(** A working copy with a directory whose name ends in [.spec.yml]. *)
Definition directoryTree : Filesystem :=
  {| fs_tree :=
       Directory
         [ ("spec",
            Directory
              [ ("input", Directory [ ("manifest.spec.yml", Regular "spec: input") ]);
                ("zdir.spec.yml", Directory [ ("z.txt", Regular "notes") ]) ]) ];
     fs_names := eq_refl |}.

(** A repository whose every commit holds the tree [wt]. *)
Definition repositoryOf (wt : Filesystem) : GitRepository :=
  {| repo_ResolveRevision := fun _ => inl "reference not found";
     repo_References := inr [];
     repo_Tags := inr [];
     repo_Checkout := fun _ => inr wt |}.

(** A repository with two releases, which hold the same tree. *)
Definition releases : GitRepository :=
  {| repo_ResolveRevision := fun _ => inl "reference not found";
     repo_References := inr [tag "v1.2.0" "a1"; tag "v1.3.0" "b2"];
     repo_Tags := inr [tag "v1.3.0" "b2"; tag "v1.2.0" "a1"];
     repo_Checkout := fun _ => inr plainTree |}.

(** A disk with one clone, and no network. *)
Definition disk : Git :=
  {| PlainOpen := fun path =>
       if String.eqb path ".package-spec-schema/git/elastic_package-spec"
       then inr repository else inl ErrRepositoryNotExists;
     PlainClone := fun _ _ => inl (OtherError "repository not found");
     repo_Fetch := fun _ => inl NoErrAlreadyUpToDate |}.

(** A tool that bundles every schema it is given. *)
Definition bundler : bundle.System :=
  {| bundle.LookPath := fun _ => true;
     bundle.jsonschema := fun _ _ =>
       {| bundle.stdout := "{}"; bundle.stderr := ""; bundle.runError := None |};
     bundle.filepath_Walk := fun _ _ =>
       inr ["in"; "in/a.jsonschema.json"; "in/notes.txt"; "in/x/b.jsonschema.json"] |}.

End sample.

(** * Properties *)

(** ** The definitions on small inputs *)

Example encodeURIFragment_caret :
  encodeURIFragment "foo.jsonschema.json#/bar^baz" = ("foo.jsonschema.json#/bar%5Ebaz", None).
Proof. reflexivity. Qed.

Example encodeURIFragment_second_hash :
  encodeURIFragment "a^b#c^d#e^" = ("a^b#c%5Ed#e%5E", None).
Proof. reflexivity. Qed.

Example encodeURIFragment_no_hash :
  encodeURIFragment "a^b.jsonschema.json" = ("a^b.jsonschema.json", None).
Proof. reflexivity. Qed.

Example Replace1_first_only :
  strings.Replace1 "a.spec.yml/b.spec.yml" ".spec.yml" ".jsonschema.json"
  = "a.jsonschema.json/b.spec.yml".
Proof. reflexivity. Qed.

Example SplitN_three :
  strings.SplitN "1.10.0.4" "." 3 = ["1"; "10"; "0.4"].
Proof. reflexivity. Qed.

Example HasSuffix_manifest :
  strings.HasSuffix "integration/manifest.jsonschema.json" "manifest.jsonschema.json" = true
  /\ strings.HasSuffix "manifest.json" "manifest.jsonschema.json" = false.
Proof. split; reflexivity. Qed.

Example Base_of_path : filepath.Base "spec/integration/manifest.spec.yml" = "manifest.spec.yml".
Proof. reflexivity. Qed.

Example Join_skips_empty : filepath.Join ["out"; ""; "jsonschema"] = "out/jsonschema".
Proof. reflexivity. Qed.

Example Clean_of_paths :
  filepath.Clean "./1.2.0//jsonschema/" = "1.2.0/jsonschema"
  /\ filepath.Clean "out/../in/x" = "in/x"
  /\ filepath.Clean "../in/x" = "../in/x"
  /\ filepath.Clean "/../a" = "/a"
  /\ filepath.Clean "a/.." = ".".
Proof. repeat split; reflexivity. Qed.

Example Join_cleans :
  filepath.Join ["."; "1.2.0"; "jsonschema"] = "1.2.0/jsonschema"
  /\ filepath.Join ["out"; "../in/x.jsonschema.json"] = "in/x.jsonschema.json"
  /\ filepath.Join [""; ""] = "".
Proof. repeat split; reflexivity. Qed.

Example below_cleans :
  os.below "1.2.0/jsonschema" "./1.2.0/jsonschema/stale.jsonschema.json" = true
  /\ os.below "1.2.0/jsonschema" "1.2.0/jsonschema" = true
  /\ os.below "1.2.0/jsonschema" "1.2.0/jsonschema.txt" = false
  /\ os.below "1.2.0/jsonschema" "1.2.0/jsonschema/../bundles/a.json" = false.
Proof. repeat split; reflexivity. Qed.

Example NewVersion_numbers :
  semver.NewVersion "1.10.0"
  = Some {| semver.Major := 1; semver.Minor := 10; semver.Patch := 0;
            semver.PreRelease := ""; semver.Metadata := "" |}.
Proof. reflexivity. Qed.

Example NewVersion_pre_release :
  semver.NewVersion "2.0.0-beta1+build.7"
  = Some {| semver.Major := 2; semver.Minor := 0; semver.Patch := 0;
            semver.PreRelease := "beta1"; semver.Metadata := "build.7" |}.
Proof. reflexivity. Qed.

Example NewVersion_not_tripartite :
  semver.NewVersion "1.2" = None /\ semver.NewVersion "1.2.x" = None
  /\ semver.NewVersion "latest" = None.
Proof. repeat split; reflexivity. Qed.

Example String_of_version :
  option_map semver.String_ (semver.NewVersion "01.2.3-rc.1") = Some "1.2.3-rc.1".
Proof. reflexivity. Qed.

Example Short_of_names :
  Short "refs/tags/v1.2.0" = "v1.2.0"
  /\ Short "refs/heads/main" = "main"
  /\ Short "refs/remotes/origin/HEAD" = "origin/HEAD"
  /\ Short "refs/stash" = "stash"
  /\ Short "refs/tags/" = "tags/"
  /\ Short "refs/tags/v1 x" = "v1"
  /\ Short "v1.2.0" = "v1.2.0".
Proof. repeat split; reflexivity. Qed.

Example isRelease_names :
  isRelease (tag "1.5.0" "a1") = false
  /\ isRelease (tag "v1.2" "a1") = false
  /\ isRelease (tag "v2.0.0-beta1" "a1") = false
  /\ isRelease (tag "v1.2.0+build.5" "a1") = true
  /\ isRelease (tag "v01.2.0" "a1") = true
  /\ isRelease (tag "v1.2.3-" "a1") = true.
Proof. repeat split; reflexivity. Qed.

Example Walk_of_tree :
  (Walk sample.directoryTree "spec").*1
  = ["spec"; "spec/input"; "spec/input/manifest.spec.yml"; "spec/zdir.spec.yml";
     "spec/zdir.spec.yml/z.txt"]
  /\ Walk sample.directoryTree "versions/1" = [("versions/1", None)].
Proof. split; reflexivity. Qed.

Example tagToSemver_names :
  tagToSemver (HashReference "refs/tags/1.2.0" "5f0c1a") = None
  /\ is_Some (tagToSemver (HashReference "refs/tags/v1.2.0" "5f0c1a"))
  /\ is_Some (tagToSemver (HashReference "v1.2.0" "5f0c1a")).
Proof. repeat split; try reflexivity; eexists; reflexivity. Qed.

(** ** Strings *)

Module strings_facts.
Import strings.
#[local] Arguments String.append !_ _ / : simpl nomatch.
#[local] Arguments Ascii.eqb !_ !_ / : simpl nomatch.

Lemma app_assoc (a b c : string) : (a +:+ b) +:+ c = a +:+ b +:+ c.
Proof. induction a; simpl; congruence. Qed.

Lemma length_app (a b : string) :
  String.length (a +:+ b) = String.length a + String.length b.
Proof. induction a; simpl; auto. Qed.

Lemma HasPrefix_app_self p t : HasPrefix (p +:+ t) p = true.
Proof. induction p as [|a p IH]; simpl; [done|]. by rewrite Ascii.eqb_refl. Qed.

Lemma HasPrefix_app_long x y p :
  String.length p <= String.length x -> HasPrefix (x +:+ y) p = HasPrefix x p.
Proof.
  revert x. induction p as [|a p IH]; intros [|b x]; simpl; try done; try lia.
  intros Hl. destruct (Ascii.eqb a b); [|done]. apply IH. lia.
Qed.

Lemma drop_app_length p t : drop (String.length p) (p +:+ t) = t.
Proof. induction p; simpl; auto. Qed.

Lemma Contains_cons c s p :
  Contains (String c s) p = HasPrefix (String c s) p || Contains s p.
Proof. done. Qed.

Lemma Contains_false_drop n s p : Contains s p = false -> Contains (drop n s) p = false.
Proof.
  revert s. induction n as [|n IH]; intros [|c s]; simpl; try done.
  intros [_ Hc]%orb_false_elim. by apply IH.
Qed.

Lemma Contains_occurrences s p : Contains s p = false <-> occurrences s p = 0.
Proof.
  induction s as [|c s IH]; simpl.
  - destruct (HasPrefix "" p); simpl; split; (done || lia).
  - destruct (HasPrefix (String c s) p); simpl; [split; (done || lia)|]. by rewrite IH.
Qed.

Lemma Replace1_absent s old new : Contains s old = false -> Replace1 s old new = s.
Proof.
  induction s as [|c s IH]; simpl.
  - intros [-> _]%orb_false_elim. done.
  - intros [-> Hc]%orb_false_elim. by rewrite IH.
Qed.

(** The first occurrence: when no occurrence of [old] starts inside [stem],
    the occurrence after [stem] is the one replaced. *)
Lemma Replace1_first stem init last rest new :
  Contains (stem +:+ init) (init +:+ String last "") = false ->
  Replace1 (stem +:+ (init +:+ String last "") +:+ rest) (init +:+ String last "") new
  = stem +:+ new +:+ rest.
Proof.
  set (old := init +:+ String last "").
  induction stem as [|c stem IH].
  - intros _. change ("" +:+ ?x) with x.
    assert (Hp : HasPrefix (old +:+ rest) old = true) by apply HasPrefix_app_self.
    destruct (old +:+ rest) as [|a t] eqn:E.
    + simpl. rewrite Hp. f_equal. rewrite <- E. by rewrite drop_app_length.
    + simpl. rewrite Hp. f_equal. rewrite <- E. by rewrite drop_app_length.
  - intros Hc. change (String c stem +:+ ?x) with (String c (stem +:+ x)) in *.
    rewrite Contains_cons in Hc. apply orb_false_elim in Hc as [Hp Hc].
    simpl. 
    assert (HasPrefix (String c (stem +:+ old +:+ rest)) old = false) as ->.
    { rewrite <- Hp.
      change (String c (stem +:+ ?x)) with (String c stem +:+ x).
      unfold old at 1. rewrite !app_assoc. rewrite <- (app_assoc (String c stem) init).
      apply HasPrefix_app_long. unfold old.
      rewrite !length_app. simpl. lia. }
    f_equal. by apply IH.
Qed.

(** *** [encodeURIFragment] *)

Lemma SplitN_1 s sep : SplitN s sep 1 = [s].
Proof. by destruct s. Qed.

Lemma SplitN_hash s :
  Contains s "#" = true ->
  exists base fragment,
    SplitN s "#" 2 = [base; fragment] /\ s = base +:+ "#" +:+ fragment
    /\ Contains base "#" = false.
Proof.
  induction s as [|c s IH]; [by simpl|].
  rewrite Contains_cons. simpl. rewrite (Ascii.eqb_sym c).
  destruct (Ascii.eqb_spec "#" c) as [<-|Hne]; simpl.
  - intros _. exists "", s. by rewrite SplitN_1.
  - intros (base & fragment & Hs & -> & Hb)%IH. rewrite Hs.
    exists (String c base), fragment. split_and!; [done..|]. 
    rewrite Contains_cons. simpl. by destruct (Ascii.eqb_spec "#" c).
Qed.

Lemma encodeAfterHash_absent s : Contains s "#" = false -> encodeAfterHash s = s.
Proof.
  induction s as [|c s IH]; [done|].
  rewrite Contains_cons. intros [Hp Hc]%orb_false_elim. simpl in *.
  rewrite Ascii.eqb_sym. destruct (Ascii.eqb "#" c); [done|]. by rewrite IH.
Qed.

Lemma encodeAfterHash_split base fragment :
  Contains base "#" = false ->
  encodeAfterHash (base +:+ "#" +:+ fragment)
  = base +:+ "#" +:+ ReplaceAll fragment "^" "%5E".
Proof.
  induction base as [|c base IH]; [done|].
  rewrite Contains_cons. intros [Hp Hc]%orb_false_elim. simpl in *.
  rewrite Ascii.eqb_sym. destruct (Ascii.eqb "#" c); [done|]. by rewrite IH.
Qed.

Lemma encodeURIFragment_error ref : (encodeURIFragment ref).2 = None.
Proof.
  unfold encodeURIFragment.
  destruct (negb _); [done|].
  destruct (SplitN ref "#" 2) as [|base [|fragment [|? ?]]]; try done.
  by destruct (String.eqb fragment "").
Qed.

Lemma encodeURIFragment_value ref : (encodeURIFragment ref).1 = encodeAfterHash ref.
Proof.
  unfold encodeURIFragment.
  destruct (Contains ref "#") eqn:Hc; simpl.
  - destruct (SplitN_hash _ Hc) as (base & fragment & -> & -> & Hb).
    rewrite encodeAfterHash_split by done.
    destruct (String.eqb_spec fragment "") as [->|]; done.
  - by rewrite encodeAfterHash_absent.
Qed.

(** *** Patching a reference twice *)

Lemma ReplaceAll_caret_idem s :
  ReplaceAll (ReplaceAll s "^" "%5E") "^" "%5E" = ReplaceAll s "^" "%5E".
Proof.
  induction s as [|c s IH]; [done|]. simpl.
  destruct (Ascii.eqb c "^") eqn:E; simpl; rewrite ?E, IH; done.
Qed.

Lemma encodeAfterHash_idem s : encodeAfterHash (encodeAfterHash s) = encodeAfterHash s.
Proof.
  induction s as [|c s IH]; [done|]. simpl.
  destruct (Ascii.eqb c "#") eqn:E; simpl; rewrite E.
  - by rewrite ReplaceAll_caret_idem.
  - by rewrite IH.
Qed.

(** A prefix without a percent sign that the encoded string has, the string
    had before. *)
Lemma HasPrefix_ReplaceAll s p :
  Contains p "%" = false ->
  HasPrefix (ReplaceAll s "^" "%5E") p = true -> HasPrefix s p = true.
Proof.
  revert s. induction p as [|a p IH]; [done|]. intros s.
  rewrite Contains_cons. intros [Ha Hp]%orb_false_elim.
  destruct s as [|c s]; [done|]. simpl in *.
  destruct (Ascii.eqb c "^") eqn:E; simpl.
  - destruct (Ascii.eqb_spec a "%") as [->|Hne].
    + by rewrite Ascii.eqb_refl in Ha.
    + destruct (Ascii.eqb_spec a "%"); done.
  - destruct (Ascii.eqb a c); [|done]. by apply IH.
Qed.

Lemma HasPrefix_encodeAfterHash s p :
  Contains p "%" = false ->
  HasPrefix (encodeAfterHash s) p = true -> HasPrefix s p = true.
Proof.
  revert s. induction p as [|a p IH]; [done|]. intros s.
  rewrite Contains_cons. intros [Ha Hp]%orb_false_elim.
  destruct s as [|c s]; [done|]. simpl in *.
  destruct (Ascii.eqb c "#") eqn:E; simpl.
  - destruct (Ascii.eqb a c); [|done]. by apply HasPrefix_ReplaceAll.
  - destruct (Ascii.eqb a c); [|done]. by apply IH.
Qed.

Lemma HasPrefix_false_of (f : string -> string) s p :
  (HasPrefix (f s) p = true -> HasPrefix s p = true) ->
  HasPrefix s p = false -> HasPrefix (f s) p = false.
Proof. destruct (HasPrefix (f s) p); [|done]. intros ->; done. Qed.

Lemma Contains_ReplaceAll s :
  Contains s ".spec.yml" = false ->
  Contains (ReplaceAll s "^" "%5E") ".spec.yml" = false.
Proof.
  induction s as [|c s IH]; [done|].
  rewrite Contains_cons. intros [Hp Hc]%orb_false_elim.
  assert (Hp' := HasPrefix_false_of (fun s => ReplaceAll s "^" "%5E") _ _
                   (HasPrefix_ReplaceAll (String c s) ".spec.yml" eq_refl) Hp).
  simpl in Hp' |- *. destruct (Ascii.eqb c "^") eqn:E.
  - simpl. by apply IH.
  - rewrite Contains_cons. apply orb_false_intro; [done|]. by apply IH.
Qed.

Lemma Contains_encodeAfterHash s :
  Contains s ".spec.yml" = false ->
  Contains (encodeAfterHash s) ".spec.yml" = false.
Proof.
  induction s as [|c s IH]; [done|].
  rewrite Contains_cons. intros [Hp Hc]%orb_false_elim.
  assert (Hp' := HasPrefix_false_of encodeAfterHash _ _
                   (HasPrefix_encodeAfterHash (String c s) ".spec.yml" eq_refl) Hp).
  simpl in Hp' |- *. destruct (Ascii.eqb c "#") eqn:E.
  - rewrite Contains_cons. apply orb_false_intro; [done|]. by apply Contains_ReplaceAll.
  - rewrite Contains_cons. apply orb_false_intro; [done|]. by apply IH.
Qed.

Local Abbreviation old := ".spec.yml" (only parsing).
Local Abbreviation new := ".jsonschema.json" (only parsing).

Lemma Contains_new_app t :
  Contains t old = false -> Contains (new +:+ t) old = false.
Proof. intros Ht. by simpl. Qed.

Lemma HasPrefix_cons b s a p :
  HasPrefix (String b s) (String a p) = if Ascii.eqb a b then HasPrefix s p else false.
Proof. done. Qed.

Lemma Replace1_cons c s o n :
  Replace1 (String c s) o n =
  if HasPrefix (String c s) o then n +:+ drop (String.length o) (String c s)
  else String c (Replace1 s o n).
Proof. done. Qed.

Lemma apart_empty : apart "".
Proof. intros r. by destruct r. Qed.

Lemma apart_cons a q :
  apart q -> (forall x, HasPrefix (new +:+ x) (String a q) = false) ->
  apart (String a q).
Proof.
  intros Hq Hnew [|c r] Hr; [done|].
  rewrite Replace1_cons. destruct (HasPrefix (String c r) old).
  - apply Hnew.
  - rewrite HasPrefix_cons in Hr |- *. destruct (Ascii.eqb a c); [|done]. by apply Hq.
Qed.

Lemma apart_old : apart old.
Proof. repeat (apply apart_cons; [|by intros; simpl]). apply apart_empty. Qed.

(** Replacing the only occurrence leaves none. *)
Lemma Contains_Replace1 r :
  occurrences r old <= 1 -> Contains (Replace1 r old new) old = false.
Proof.
  induction r as [|c r IH]; [done|].
  rewrite Replace1_cons. cbn [occurrences].
  destruct (HasPrefix (String c r) old) eqn:Hp.
  - intros Ho. assert (Hr : Contains r old = false) by (apply Contains_occurrences; lia).
    apply Contains_new_app. change (drop (String.length old) (String c r)) with (drop 8 r).
    by apply Contains_false_drop.
  - intros Ho. rewrite Contains_cons. apply orb_false_intro; [|by apply IH].
    pose proof (apart_old (String c r) Hp) as Hq.
    by rewrite Replace1_cons, Hp in Hq.
Qed.

Lemma patchedRef_eq r : patchedRef r = encodeAfterHash (Replace1 r old new).
Proof. apply encodeURIFragment_value. Qed.

Lemma patchedRef_idem r :
  occurrences r old <= 1 -> patchedRef (patchedRef r) = patchedRef r.
Proof.
  intros Ho. rewrite !patchedRef_eq.
  rewrite (Replace1_absent (encodeAfterHash _)).
  - apply encodeAfterHash_idem.
  - by apply Contains_encodeAfterHash, Contains_Replace1.
Qed.

End strings_facts.

(** *** Appending and splitting *)

Section splitting.
Import strings.
#[local] Arguments String.append !_ _ / : simpl nomatch.
#[local] Arguments Ascii.eqb !_ !_ / : simpl nomatch.

Lemma string_app_empty_r (a : string) : a +:+ "" = a.
Proof. induction a; simpl; congruence. Qed.

Lemma string_app_inv_head (a x y : string) : a +:+ x = a +:+ y -> x = y.
Proof. induction a as [|c a IH]; simpl; [done|]. intros [= H]. by apply IH. Qed.

Lemma allChars_app p a b :
  semver.allChars p (a +:+ b) = semver.allChars p a && semver.allChars p b.
Proof. induction a as [|c a IH]; simpl; [done|]. by rewrite IH, andb_assoc. Qed.

Lemma allChars_impl (p q : Ascii.ascii -> bool) s :
  (forall c, p c = true -> q c = true) ->
  semver.allChars p s = true -> semver.allChars q s = true.
Proof.
  intros Hpq. induction s as [|c s IH]; simpl; [done|].
  intros [Hc Hs]%andb_true_iff. rewrite (Hpq c Hc). by apply IH.
Qed.

Lemma lacks_app sep a b : lacks sep (a +:+ b) = lacks sep a && lacks sep b.
Proof. apply allChars_app. Qed.

Lemma HasPrefix_app q a b :
  HasPrefix q (a +:+ b) = HasPrefix q a && HasPrefix (drop (String.length a) q) b.
Proof.
  revert q. induction a as [|c a IH]; intros q; [done|].
  destruct q as [|d q]; [done|]. simpl. destruct (Ascii.eqb c d); [apply IH|done].
Qed.

Lemma HasPrefix_app_l x y p : HasPrefix x p = true -> HasPrefix (x +:+ y) p = true.
Proof.
  revert x. induction p as [|a p IH]; intros [|b x]; simpl; try done.
  destruct (Ascii.eqb a b); [apply IH|done].
Qed.

(** Two prefixes of one string that end at a separator, and have none
    before, are the same. *)
Lemma prefix_sep_unique sep a b x y q :
  lacks sep a = true -> lacks sep b = true ->
  HasPrefix q (a +:+ String sep x) = true -> HasPrefix q (b +:+ String sep y) = true ->
  a = b.
Proof.
  unfold lacks. revert b q. induction a as [|c a IH]; intros [|d b] [|e q]; simpl; try done.
  - intros _ [Hd _]%andb_true_iff.
    destruct (Ascii.eqb_spec sep e) as [<-|]; [|done].
    destruct (Ascii.eqb_spec d sep) as [->|]; [done|].
    by destruct (Ascii.eqb_spec d sep).
  - intros [Hc _]%andb_true_iff _.
    destruct (Ascii.eqb_spec c e) as [<-|]; [|done].
    destruct (Ascii.eqb_spec sep c) as [<-|]; [|done].
    by rewrite Ascii.eqb_refl in Hc.
  - intros [_ Ha]%andb_true_iff [_ Hb]%andb_true_iff.
    destruct (Ascii.eqb_spec c e) as [<-|]; [|done].
    destruct (Ascii.eqb_spec d c) as [->|]; [|done].
    intros H1 H2. f_equal. by apply (IH b q).
Qed.

Lemma HasSuffix_app s t : HasSuffix (s +:+ t) t = true.
Proof.
  unfold HasSuffix. rewrite strings_facts.length_app.
  apply andb_true_iff. split; [apply Nat.leb_le; lia|].
  replace (String.length s + String.length t - String.length t) with (String.length s) by lia.
  rewrite strings_facts.drop_app_length. apply String.eqb_refl.
Qed.

Lemma TrimPrefix_app p t : TrimPrefix (p +:+ t) p = t.
Proof.
  unfold TrimPrefix. by rewrite strings_facts.HasPrefix_app_self, strings_facts.drop_app_length.
Qed.

Lemma take_app_length s t : take (String.length s) (s +:+ t) = s.
Proof. induction s as [|c s IH]; simpl; [by destruct t|]. by rewrite IH. Qed.

Lemma TrimSuffix_app s t : TrimSuffix (s +:+ t) t = s.
Proof.
  unfold TrimSuffix. rewrite HasSuffix_app, strings_facts.length_app.
  replace (String.length s + String.length t - String.length t) with (String.length s) by lia.
  apply take_app_length.
Qed.

(** *** Splitting at a separator *)

Lemma SplitN_lacks s sep n : lacks sep s = true -> SplitN s sep (S n) = [s].
Proof.
  unfold lacks. induction s as [|c s IH]; simpl.
  - by destruct n.
  - intros [Hc Hs]%andb_true_iff. destruct n as [|n]; [done|].
    apply negb_true_iff in Hc. rewrite Hc. cbn [SplitN] in IH. by rewrite IH.
Qed.

Lemma SplitN_sep x y sep n :
  lacks sep x = true ->
  SplitN (x +:+ String sep y) sep (S (S n)) = x :: SplitN y sep (S n).
Proof.
  unfold lacks. induction x as [|c x IH]; simpl.
  - intros _. by rewrite Ascii.eqb_refl.
  - intros [Hc Hx]%andb_true_iff. apply negb_true_iff in Hc. rewrite Hc.
    cbn [SplitN] in IH. by rewrite IH.
Qed.

Lemma SplitN_parts p s sep n :
  semver.allChars p s = true ->
  Forall (fun x => semver.allChars p x = true) (SplitN s sep n).
Proof.
  revert n. induction s as [|c s IH]; intros n Hs.
  - destruct n as [|[|n]]; simpl; repeat constructor.
  - destruct n as [|[|n]]; [constructor|by repeat constructor|].
    simpl in Hs. apply andb_true_iff in Hs as [Hc Hs]. cbn [SplitN].
    destruct (Ascii.eqb c sep).
    + constructor; [done|]. by apply IH.
    + specialize (IH (S (S n)) Hs).
      destruct (SplitN s sep (S (S n))) as [|x rest]; [constructor|].
      apply Forall_cons in IH as [Hx Hrest]. constructor; [|done]. simpl. by rewrite Hc, Hx.
Qed.

Lemma SplitN_2_first s sep :
  exists before rest, SplitN s sep 2 = before :: rest /\ lacks sep before = true.
Proof.
  unfold lacks. induction s as [|c s (before & rest & IH & Hb)]; simpl.
  - by exists "", [].
  - destruct (Ascii.eqb c sep) eqn:Hc.
    + rewrite strings_facts.SplitN_1. by exists "", [s].
    + cbn [SplitN] in IH. rewrite IH. exists (String c before), rest.
      split; [done|]. simpl. by rewrite Hc, Hb.
Qed.

Lemma SplitN_2_length s sep : length (SplitN s sep 2) <= 2.
Proof.
  induction s as [|c s IH]; simpl; [lia|].
  destruct (Ascii.eqb c sep); [rewrite strings_facts.SplitN_1; simpl; lia|].
  cbn [SplitN] in IH. destruct (SplitN s sep 2); simpl in *; lia.
Qed.

(** What [splitOff] leaves of its input has no delimiter. *)
Lemma splitOff_lacks input delim : lacks delim (semver.splitOff input delim).1 = true.
Proof.
  unfold semver.splitOff.
  destruct (SplitN_2_first input delim) as (before & rest & Hs & Hb).
  pose proof (SplitN_2_length input delim) as Hl. rewrite Hs in *.
  destruct rest as [|after [|? ?]]; simpl in *; try done; [|lia].
  clear Hl. revert before Hs Hb. unfold lacks.
  induction input as [|c s IH]; intros before Hs Hb; simpl in *.
  - done.
  - destruct (Ascii.eqb c delim) eqn:Hc.
    { by rewrite strings_facts.SplitN_1 in Hs. }
    simpl.
    destruct (SplitN s delim 2) as [|x [|? ?]] eqn:Hx; try done.
    injection Hs as <-. simpl in Hb. rewrite Hc in Hb. simpl in Hb.
    cbn [SplitN] in Hx. by apply (IH x).
Qed.

Lemma splitOff_sep x y delim :
  lacks delim x = true -> semver.splitOff (x +:+ String delim y) delim = (x, y).
Proof.
  intros Hx. unfold semver.splitOff. rewrite SplitN_sep by done.
  by rewrite strings_facts.SplitN_1.
Qed.

End splitting.

(** ** Paths *)

Module path_facts.
Import strings filepath.
#[local] Arguments String.append !_ _ / : simpl nomatch.
#[local] Arguments Ascii.eqb !_ !_ / : simpl nomatch.

(** *** The elements of a path *)

Lemma elements_nonempty s : elements s <> [].
Proof. destruct s as [|c s]; simpl; [done|]. destruct (Ascii.eqb c "/"); [done|]. by destruct (elements s). Qed.

Lemma elements_lacks s : lacks "/" s = true -> elements s = [s].
Proof.
  unfold lacks. induction s as [|c s IH]; simpl; [done|].
  intros [Hc Hs]%andb_true_iff. apply negb_true_iff in Hc. rewrite Hc. by rewrite IH.
Qed.

Lemma elements_lack s : Forall (fun e => lacks "/" e = true) (elements s).
Proof.
  induction s as [|c s IH]; simpl; [by repeat constructor|].
  destruct (Ascii.eqb c "/") eqn:Hc; [by constructor|].
  destruct (elements s) as [|e rest]; [by repeat constructor; unfold lacks; simpl; rewrite Hc|].
  apply Forall_cons in IH as [He Hrest]. constructor; [|done].
  unfold lacks in *. simpl. by rewrite Hc.
Qed.

Lemma glue_cons e r1 l2 : r1 <> [] -> glue (e :: r1) l2 = e :: glue r1 l2.
Proof. by destruct r1. Qed.

Lemma glue_snoc i1 a b t2 : glue (i1 ++ [a]) (b :: t2) = (i1 ++ (a +:+ b) :: t2)%list.
Proof.
  induction i1 as [|e i1 IH]; [done|].
  change ((e :: i1) ++ [a])%list with (e :: (i1 ++ [a]))%list.
  rewrite glue_cons by (by destruct i1). by rewrite IH.
Qed.

Lemma elements_append x t : elements (x +:+ t) = glue (elements x) (elements t).
Proof.
  induction x as [|c x IH].
  - simpl. pose proof (elements_nonempty t). by destruct (elements t).
  - change (String c x +:+ t) with (String c (x +:+ t)). cbn [elements].
    destruct (Ascii.eqb c "/").
    + rewrite glue_cons by apply elements_nonempty. by rewrite IH.
    + rewrite IH. pose proof (elements_nonempty x) as Hx.
      destruct (elements x) as [|e1 [|e1' r1]]; [done| |].
      * pose proof (elements_nonempty t). by destruct (elements t).
      * done.
Qed.

Lemma elements_slash a b : elements (a +:+ "/" +:+ b) = (elements a ++ elements b)%list.
Proof.
  induction a as [|c a IH]; [done|].
  change (String c a +:+ ?t) with (String c (a +:+ t)). cbn [elements].
  destruct (Ascii.eqb c "/"); [by rewrite IH|].
  rewrite IH. pose proof (elements_nonempty a). by destruct (elements a).
Qed.

Lemma Join_cons x y l sep : strings.Join (x :: y :: l) sep = x +:+ sep +:+ strings.Join (y :: l) sep.
Proof. done. Qed.

Lemma Join_app l1 l2 sep :
  l1 <> [] -> l2 <> [] ->
  strings.Join (l1 ++ l2) sep = strings.Join l1 sep +:+ sep +:+ strings.Join l2 sep.
Proof.
  intros H1 H2. induction l1 as [|x [|y l1] IH]; [done| |].
  - destruct l2; [done|]. done.
  - change ((x :: y :: l1) ++ l2)%list with (x :: y :: (l1 ++ l2))%list.
    rewrite !Join_cons.
    change (y :: (l1 ++ l2))%list with ((y :: l1) ++ l2)%list. rewrite IH by done.
    by rewrite !strings_facts.app_assoc.
Qed.

Lemma elements_Join l :
  l <> [] -> Forall (fun e => lacks "/" e = true) l -> elements (strings.Join l "/") = l.
Proof.
  intros Hne Hl. induction Hl as [|x l Hx Hl IH]; [done|].
  destruct l as [|y l].
  - by apply elements_lacks.
  - rewrite Join_cons, elements_slash, IH by done. by rewrite elements_lacks.
Qed.

Lemma Join_elements s : strings.Join (elements s) "/" = s.
Proof.
  induction s as [|c s IH]; [done|]. cbn [elements].
  pose proof (elements_nonempty s) as Hne.
  destruct (Ascii.eqb_spec c "/") as [->|Hc].
  - destruct (elements s) as [|e r]; [done|]. rewrite Join_cons. by rewrite IH.
  - destruct (elements s) as [|e [|e' r]]; [done| |].
    + simpl in *. by rewrite IH.
    + rewrite Join_cons in *. simpl. by rewrite <- IH.
Qed.

(** *** Names *)

Lemma isName_lacks e : isName e = true -> lacks "/" e = true.
Proof. unfold isName. by intros [_ ?]%andb_true_iff. Qed.

Lemma isName_nonempty e : isName e = true -> e <> "".
Proof. by destruct e. Qed.

Lemma isName_clean r st e : isName e = true -> cleanElement r st e = e :: st.
Proof.
  unfold isName, cleanElement.
  intros [[[H1 H2]%andb_true_iff H3]%andb_true_iff _]%andb_true_iff.
  apply negb_true_iff in H1, H2, H3. by rewrite H1, H2, H3.
Qed.

Lemma isName_head e : isName e = true -> strings.HasPrefix e "/" = false.
Proof.
  intros He. destruct e as [|c e]; [done|]. apply isName_lacks in He.
  unfold lacks in He. simpl in He. apply andb_true_iff in He as [Hc _].
  apply negb_true_iff in Hc. simpl. rewrite Ascii.eqb_sym. by rewrite Hc.
Qed.

Lemma isName_app a m b :
  lacks "/" (a +:+ m +:+ b) = true -> lacks "/" m = true ->
  2 < String.length m -> forall m', lacks "/" m' = true -> 2 < String.length m' ->
  isName (a +:+ m' +:+ b) = true.
Proof.
  intros Hl Hm Hlen m' Hm' Hlen'.
  rewrite !lacks_app in Hl. apply andb_true_iff in Hl as [Ha [_ Hb]%andb_true_iff].
  assert (Hlong : 2 < String.length (a +:+ m' +:+ b))
    by (rewrite !strings_facts.length_app; lia).
  unfold isName. fold (lacks "/" (a +:+ m' +:+ b)).
  rewrite !lacks_app, Ha, Hm', Hb.
  destruct (String.eqb_spec (a +:+ m' +:+ b) "") as [E|_];
    [rewrite E in Hlong; simpl in Hlong; lia|].
  destruct (String.eqb_spec (a +:+ m' +:+ b) ".") as [E|_];
    [rewrite E in Hlong; simpl in Hlong; lia|].
  destruct (String.eqb_spec (a +:+ m' +:+ b) "..") as [E|_];
    [rewrite E in Hlong; simpl in Hlong; lia|].
  done.
Qed.

(** *** The stack of [Clean] *)

Lemma Clean_render path :
  path <> "" ->
  Clean path
  = render (strings.HasPrefix path "/")
      (foldl (cleanElement (strings.HasPrefix path "/")) [] (elements path)).
Proof. intros Hp. unfold Clean. apply String.eqb_neq in Hp. by rewrite Hp. Qed.

Lemma normal_nil r : normal r [].
Proof. exists [], []. by repeat split. Qed.

Lemma normal_names r names : Forall (fun e => isName e = true) names -> normal r names.
Proof. intros Hn. exists names, []. rewrite app_nil_r. by repeat split. Qed.

Lemma normal_push r st e : isName e = true -> normal r st -> normal r (e :: st).
Proof.
  intros He (names & dots & -> & Hn & Hd & Hr).
  exists (e :: names), dots. repeat split; try done. by constructor.
Qed.

Lemma normal_clean r st e :
  lacks "/" e = true -> normal r st -> normal r (cleanElement r st e).
Proof.
  intros He Hst. unfold cleanElement.
  destruct (String.eqb_spec e "") as [->|Hne]; [done|].
  destruct (String.eqb_spec e ".") as [->|Hdot]; [done|]. simpl.
  destruct (String.eqb_spec e "..") as [->|Hdd].
  - destruct Hst as (names & dots & -> & Hn & Hd & Hr).
    destruct names as [|n names]; simpl.
    + destruct dots as [|d dots]; simpl.
      * destruct r; [apply normal_nil|]. exists [], [".."]. repeat split; try done.
        by repeat constructor.
      * apply Forall_cons in Hd as Hd'. destruct Hd' as [-> Hd']. simpl.
        exists [], (".." :: ".." :: dots). repeat split; try done.
        -- by constructor.
        -- intros Hrt. by specialize (Hr Hrt).
    + apply Forall_cons in Hn as [Hn1 Hn].
      assert (n <> "..") as Hne2 by (intros ->; done).
      apply String.eqb_neq in Hne2. rewrite Hne2.
      by exists names, dots.
  - apply normal_push; [|done]. unfold isName. fold (lacks "/" e). rewrite He.
    apply String.eqb_neq in Hne, Hdot, Hdd. by rewrite Hne, Hdot, Hdd.
Qed.

Lemma normal_foldl r st l :
  Forall (fun e => lacks "/" e = true) l -> normal r st ->
  normal r (foldl (cleanElement r) st l).
Proof.
  intros Hl. revert st. induction Hl as [|e l He Hl IH]; intros st Hst; [done|].
  simpl. apply IH. by apply normal_clean.
Qed.

Lemma foldl_names r st names :
  Forall (fun e => isName e = true) names ->
  foldl (cleanElement r) st names = (reverse names ++ st)%list.
Proof.
  intros Hn. revert st. induction Hn as [|e l He Hl IH]; intros st; [done|].
  simpl. rewrite isName_clean by done. rewrite IH, reverse_cons.
  by rewrite <- app_assoc.
Qed.

Lemma foldl_dots dots st :
  Forall (fun e => e = "..") dots -> Forall (fun e => e = "..") st ->
  foldl (cleanElement false) st dots = (dots ++ st)%list.
Proof.
  intros Hd. revert st. induction Hd as [|e l -> Hl IH]; intros st Hst; [done|].
  simpl. assert (cleanElement false st ".." = ".." :: st) as ->.
  { unfold cleanElement. simpl. destruct Hst as [|x st -> _]; done. }
  rewrite IH by by constructor.
  clear IH. induction Hl as [|x l -> _ IHl]; [done|]. simpl. by rewrite IHl.
Qed.

Lemma reverse_dots dots : Forall (fun e => e = "..") dots -> reverse dots = dots.
Proof.
  induction 1 as [|x l -> Hl IH]; [done|]. rewrite reverse_cons, IH.
  clear IH. induction Hl as [|y l -> _ IHl]; [done|]. simpl. by rewrite IHl.
Qed.

(** Cleaning what [Clean] printed gives the same stack. *)
Lemma foldl_normal r st :
  normal r st -> foldl (cleanElement r) [] (reverse st) = st.
Proof.
  intros (names & dots & -> & Hn & Hd & Hr).
  rewrite reverse_app, foldl_app.
  assert (foldl (cleanElement r) [] (reverse dots) = dots) as ->.
  { destruct r; [by rewrite (Hr eq_refl)|].
    rewrite (reverse_dots _ Hd), foldl_dots by done. apply app_nil_r. }
  rewrite foldl_names by by apply Forall_reverse.
  by rewrite reverse_involutive.
Qed.

Lemma normal_lack r st : normal r st -> Forall (fun e => lacks "/" e = true) st.
Proof.
  intros (names & dots & -> & Hn & Hd & _). apply Forall_app. split.
  - eapply Forall_impl; [exact Hn|]. apply isName_lacks.
  - eapply Forall_impl; [exact Hd|]. by intros ? ->.
Qed.

Lemma normal_nonempty r st : normal r st -> Forall (fun e => e <> "") st.
Proof.
  intros (names & dots & -> & Hn & Hd & _). apply Forall_app. split.
  - eapply Forall_impl; [exact Hn|]. apply isName_nonempty.
  - eapply Forall_impl; [exact Hd|]. by intros ? ->.
Qed.

Lemma normal_head r st : normal r st -> Forall (fun e => strings.HasPrefix e "/" = false) st.
Proof.
  intros (names & dots & -> & Hn & Hd & _). apply Forall_app. split.
  - eapply Forall_impl; [exact Hn|]. apply isName_head.
  - eapply Forall_impl; [exact Hd|]. by intros ? ->.
Qed.

Lemma Join_nonempty l sep : l <> [] -> Forall (fun e => e <> "") l -> strings.Join l sep <> "".
Proof.
  intros Hne Hl. destruct Hl as [|x l Hx Hl]; [done|].
  destruct l; [done|]. rewrite Join_cons. by destruct x.
Qed.

Lemma Join_head l :
  l <> [] -> Forall (fun e => e <> "") l ->
  Forall (fun e => strings.HasPrefix e "/" = false) l ->
  strings.HasPrefix (strings.Join l "/") "/" = false.
Proof.
  intros Hne Hl Hh. destruct Hl as [|x l Hx Hl]; [done|].
  apply Forall_cons in Hh as [Hh _].
  destruct l; [done|]. rewrite Join_cons. by destruct x.
Qed.

Lemma render_out r st :
  st <> [] -> normal r st ->
  render r st = (if r then "/" else "") +:+ strings.Join (reverse st) "/"
  /\ strings.Join (reverse st) "/" <> ""
  /\ strings.HasPrefix (strings.Join (reverse st) "/") "/" = false.
Proof.
  intros Hne Hst.
  assert (Hrev : reverse st <> []).
  { intros Hr. apply (f_equal reverse) in Hr. by rewrite reverse_involutive in Hr. }
  assert (Hout : strings.Join (reverse st) "/" <> "").
  { apply Join_nonempty; [done|]. apply Forall_reverse. by eapply normal_nonempty. }
  split; [|split; [done|]].
  - unfold render. destruct r; [done|]. apply String.eqb_neq in Hout. by rewrite Hout.
  - apply Join_head; [done|..]; apply Forall_reverse.
    + by eapply normal_nonempty.
    + by eapply normal_head.
Qed.

Lemma render_nonempty r st : render r st <> "".
Proof.
  unfold render. destruct r; [done|]. by destruct (String.eqb_spec (strings.Join (reverse st) "/") "").
Qed.

Lemma render_rooted r st :
  st <> [] -> normal r st -> strings.HasPrefix (render r st) "/" = r.
Proof.
  intros Hne Hst. destruct (render_out r st Hne Hst) as (-> & _ & Hh).
  destruct r; [done|]. done.
Qed.

Lemma render_elements r st :
  st <> [] -> normal r st ->
  foldl (cleanElement r) [] (elements (render r st)) = st.
Proof.
  intros Hne Hst. destruct (render_out r st Hne Hst) as (-> & _ & _).
  assert (Hrev : reverse st <> []).
  { intros Hr. apply (f_equal reverse) in Hr. by rewrite reverse_involutive in Hr. }
  assert (He : elements (strings.Join (reverse st) "/") = reverse st).
  { apply elements_Join; [done|]. apply Forall_reverse. by eapply normal_lack. }
  destruct r.
  - change ("/" +:+ ?x) with (String "/" x). cbn [elements]. simpl.
    rewrite He. by apply foldl_normal.
  - change ("" +:+ ?x) with x. rewrite He. by apply foldl_normal.
Qed.

(** [Clean] gives a cleaned path, the dot or the root. *)
Lemma Clean_cases path :
  Clean path = "." \/ Clean path = "/" \/ cleaned (Clean path).
Proof.
  destruct (String.eqb_spec path "") as [->|Hp]; [by left|].
  rewrite Clean_render by done.
  set (r := strings.HasPrefix path "/").
  assert (Hst : normal r (foldl (cleanElement r) [] (elements path))).
  { apply normal_foldl; [apply elements_lack|apply normal_nil]. }
  destruct (foldl (cleanElement r) [] (elements path)) as [|e st] eqn:Est.
  - destruct r; [right; by left|by left].
  - right. right. exists r, (e :: st). by repeat split.
Qed.

Lemma Clean_cleaned dir : cleaned dir -> Clean dir = dir.
Proof.
  intros (r & st & Hne & Hst & ->).
  rewrite Clean_render by apply render_nonempty.
  by rewrite render_rooted, render_elements.
Qed.

(** [Clean] is idempotent. *)
Lemma Clean_idem path : Clean (Clean path) = Clean path.
Proof.
  destruct (Clean_cases path) as [->|[->|Hc]]; [done..|]. by apply Clean_cleaned.
Qed.

(** *** Paths below a cleaned path *)

Lemma relative_name e : isName e = true -> relative e.
Proof.
  intros He. unfold relative. rewrite elements_lacks by by apply isName_lacks.
  by constructor.
Qed.

Lemma relative_slash a b : relative a -> relative b -> relative (a +:+ "/" +:+ b).
Proof. intros Ha Hb. unfold relative. rewrite elements_slash. by apply Forall_app. Qed.

Lemma relative_nonempty rel : relative rel -> rel <> "".
Proof. intros Hr ->. unfold relative in Hr. simpl in Hr. by apply Forall_cons in Hr as [? _]. Qed.

Lemma normal_app r names st :
  Forall (fun e => isName e = true) names -> normal r st -> normal r (names ++ st).
Proof.
  intros Hn. induction Hn as [|e l He Hl IH]; intros Hst; [done|].
  simpl. apply normal_push; [done|]. by apply IH.
Qed.

Lemma HasPrefix_slash x t : x <> "" -> strings.HasPrefix (x +:+ t) "/" = strings.HasPrefix x "/".
Proof. by destruct x. Qed.

Lemma Clean_under x rel :
  x <> "" -> relative rel ->
  Clean (x +:+ "/" +:+ rel) = before x +:+ rel /\ cleaned (before x +:+ rel).
Proof.
  intros Hx Hrel.
  assert (Hne : x +:+ "/" +:+ rel <> "") by by destruct x.
  rewrite Clean_render by done. rewrite HasPrefix_slash by done.
  set (r := strings.HasPrefix x "/").
  rewrite elements_slash, foldl_app.
  assert (Hst : normal r (foldl (cleanElement r) [] (elements x))).
  { apply normal_foldl; [apply elements_lack|apply normal_nil]. }
  rewrite foldl_names by done. unfold before. fold r.
  set (st := foldl (cleanElement r) [] (elements x)) in *.
  assert (Hnorm : normal r (reverse (elements rel) ++ st)).
  { apply normal_app; [by apply Forall_reverse|done]. }
  assert (Hnil : (reverse (elements rel) ++ st)%list <> []).
  { pose proof (elements_nonempty rel) as He. intros [Hnil _]%app_eq_nil.
    apply (f_equal reverse) in Hnil. by rewrite reverse_involutive in Hnil. }
  assert (Heq : render r (reverse (elements rel) ++ st)
                = (if r then "/" else "")
                  +:+ match st with
                      | [] => ""
                      | _ => strings.Join (reverse st) "/" +:+ "/"
                      end +:+ rel).
  { destruct (render_out _ _ Hnil Hnorm) as (-> & _ & _). f_equal.
    rewrite reverse_app, reverse_involutive.
    destruct st as [|e st'] eqn:Est.
    - simpl. apply Join_elements.
    - rewrite Join_app.
      + rewrite Join_elements. by rewrite !strings_facts.app_assoc.
      + intros Hr. apply (f_equal reverse) in Hr. by rewrite reverse_involutive in Hr.
      + apply elements_nonempty. }
  split.
  - rewrite Heq. by rewrite !strings_facts.app_assoc.
  - exists r, (reverse (elements rel) ++ st)%list. split; [done|]. split; [done|].
    rewrite Heq. by rewrite !strings_facts.app_assoc.
Qed.

Lemma before_cleaned dir : cleaned dir -> before dir = dir +:+ "/".
Proof.
  intros (r & st & Hne & Hst & ->). unfold before.
  rewrite render_rooted, render_elements by done.
  destruct (render_out _ _ Hne Hst) as (-> & _ & _).
  destruct st; [done|]. by rewrite !strings_facts.app_assoc.
Qed.

Lemma Clean_relative rel : relative rel -> Clean rel = rel /\ cleaned rel.
Proof.
  intros Hrel.
  assert (Hc : cleaned rel).
  { exists false, (reverse (elements rel)). split_and!.
    - pose proof (elements_nonempty rel) as He. intros Hnil.
      apply (f_equal reverse) in Hnil. by rewrite reverse_involutive in Hnil.
    - apply normal_names. by apply Forall_reverse.
    - unfold render. rewrite reverse_involutive, Join_elements.
      pose proof (relative_nonempty _ Hrel) as Hne. apply String.eqb_neq in Hne.
      by rewrite Hne. }
  split; [by apply Clean_cleaned|done].
Qed.

Lemma Join_unfold e rest :
  filepath.Join (e :: rest)
  = if String.eqb e "" then filepath.Join rest else Clean (strings.Join (e :: rest) "/").
Proof. done. Qed.

Lemma Join_cons_nonempty e rest :
  e <> "" -> filepath.Join (e :: rest) = Clean (strings.Join (e :: rest) "/").
Proof. intros He. rewrite Join_unfold. apply String.eqb_neq in He. by rewrite He. Qed.

(** Joining a cleaned directory and a path of names. *)
Lemma Join_cleaned dir rel :
  cleaned dir -> relative rel ->
  filepath.Join [dir; rel] = dir +:+ "/" +:+ rel /\ cleaned (dir +:+ "/" +:+ rel).
Proof.
  intros Hdir Hrel.
  assert (Hne : dir <> "").
  { destruct Hdir as (r & st & _ & _ & ->). apply render_nonempty. }
  rewrite Join_cons_nonempty by done. rewrite Join_cons. change (strings.Join [rel] "/") with rel.
  destruct (Clean_under dir rel Hne Hrel) as [-> Hc].
  rewrite before_cleaned in * by done. by rewrite strings_facts.app_assoc in *.
Qed.

Lemma below_cleaned dir p :
  cleaned p -> os.below dir p = String.eqb p dir || strings.HasPrefix p (dir +:+ "/").
Proof. intros Hp. unfold os.below. by rewrite Clean_cleaned. Qed.

Lemma below_Join dir rel :
  cleaned dir -> relative rel -> os.below dir (filepath.Join [dir; rel]) = true.
Proof.
  intros Hdir Hrel. destruct (Join_cleaned dir rel Hdir Hrel) as [-> Hc].
  rewrite below_cleaned by done. apply orb_true_intro. right.
  rewrite <- strings_facts.app_assoc. apply strings_facts.HasPrefix_app_self.
Qed.

(** The directory of a version is a cleaned path, whatever the output
    directory and the label are. *)
Lemma Clean_slash_name y n : y <> "" -> isName n = true -> cleaned (Clean (y +:+ "/" +:+ n)).
Proof.
  intros Hy Hn. destruct (Clean_under y n Hy (relative_name _ Hn)) as [-> Hc]. done.
Qed.

Lemma cleaned_Join3 a b n : isName n = true -> cleaned (filepath.Join [a; b; n]).
Proof.
  intros Hn. rewrite !Join_unfold.
  destruct (String.eqb_spec a "") as [->|Ha].
  - destruct (String.eqb_spec b "") as [->|Hb].
    + assert (n <> "") as Hne by by apply isName_nonempty.
      apply String.eqb_neq in Hne. rewrite Hne. change (strings.Join [n] "/") with n.
      by destruct (Clean_relative n (relative_name _ Hn)) as [-> ?].
    + rewrite Join_cons. change (strings.Join [n] "/") with n. by apply Clean_slash_name.
  - rewrite !Join_cons. change (strings.Join [n] "/") with n.
    rewrite <- strings_facts.app_assoc. rewrite <- (strings_facts.app_assoc (a +:+ "/")).
    rewrite (strings_facts.app_assoc a). apply Clean_slash_name; [|done]. by destruct a.
Qed.

(** The directories of the versions under one output directory: the label
    of the version stands between the same two strings. *)
Lemma Join_version out :
  exists O, forall ver,
    isName ver = true ->
    filepath.Join [out; ver; "jsonschema"] = O +:+ ver +:+ "/jsonschema".
Proof.
  destruct (String.eqb_spec out "") as [->|Hout].
  - exists "". intros ver Hver. rewrite !Join_unfold. change (String.eqb "" "") with true. cbv iota.
    assert (ver <> "") as Hne by by apply isName_nonempty.
    apply String.eqb_neq in Hne. rewrite Hne. rewrite Join_cons.
    change (strings.Join ["jsonschema"] "/") with "jsonschema".
    assert (Hrel : relative (ver +:+ "/" +:+ "jsonschema")).
    { apply relative_slash; by apply relative_name. }
    by destruct (Clean_relative _ Hrel) as [-> _].
  - exists (before out). intros ver Hver. rewrite Join_cons_nonempty by done.
    rewrite !Join_cons. change (strings.Join ["jsonschema"] "/") with "jsonschema".
    assert (Hrel : relative (ver +:+ "/" +:+ "jsonschema")).
    { apply relative_slash; by apply relative_name. }
    by destruct (Clean_under out _ Hout Hrel) as [-> _].
Qed.

(** *** The replacement of [.spec.yml] in a path of names *)

Lemma HasPrefix_split s p : strings.HasPrefix s p = true -> s = p +:+ strings.drop (String.length p) s.
Proof.
  revert s. induction p as [|a p IH]; intros [|b s]; simpl; try done.
  destruct (Ascii.eqb_spec a b) as [->|]; [|done]. intros Hp. f_equal. by apply IH.
Qed.

Lemma Replace1_cases s old new :
  strings.Replace1 s old new = s \/
  exists x y, s = x +:+ old +:+ y /\ strings.Replace1 s old new = x +:+ new +:+ y.
Proof.
  induction s as [|c s IH].
  - simpl. destruct (strings.HasPrefix "" old) eqn:Hp; [|by left].
    right. exists "", (strings.drop (String.length old) ""). split; [|done].
    by apply HasPrefix_split.
  - rewrite strings_facts.Replace1_cons.
    destruct (strings.HasPrefix (String c s) old) eqn:Hp.
    + right. exists "", (strings.drop (String.length old) (String c s)). split; [|done].
      by apply HasPrefix_split.
    + destruct IH as [->|(x & y & -> & ->)]; [by left|].
      right. by exists (String c x), y.
Qed.

Lemma elements_middle x m y :
  lacks "/" m = true ->
  exists i a b t,
    elements x = (i ++ [a])%list /\ elements y = b :: t /\
    elements (x +:+ m +:+ y) = (i ++ (a +:+ m +:+ b) :: t)%list.
Proof.
  intros Hm.
  pose proof (elements_nonempty x) as Hx. pose proof (elements_nonempty y) as Hy.
  destruct (elements y) as [|b t] eqn:Ey; [done|].
  destruct (exists_last Hx) as (i & a & Ex).
  exists i, a, b, t. split; [done|]. split; [done|].
  rewrite elements_append, Ex.
  rewrite (elements_append m y), Ey, (elements_lacks m Hm). cbn [glue].
  by rewrite glue_snoc.
Qed.

Lemma relative_Replace1 rel :
  relative rel -> relative (strings.Replace1 rel ".spec.yml" ".jsonschema.json").
Proof.
  intros Hrel. destruct (Replace1_cases rel ".spec.yml" ".jsonschema.json")
    as [->|(x & y & -> & ->)]; [done|].
  unfold relative in *.
  destruct (elements_middle x ".spec.yml" y eq_refl) as (i & a & b & t & Ex & Ey & E1).
  destruct (elements_middle x ".jsonschema.json" y eq_refl) as (i' & a' & b' & t' & Ex' & Ey' & E2).
  rewrite Ex in Ex'. apply app_inj_tail in Ex' as [<- <-].
  rewrite Ey in Ey'. injection Ey' as <- <-.
  rewrite E1 in Hrel. rewrite E2.
  apply Forall_app in Hrel as [Hi Hrest]. apply Forall_cons in Hrest as [Hmid Ht].
  apply Forall_app. split; [done|]. constructor; [|done].
  apply (isName_app a ".spec.yml" b); [by apply isName_lacks|done|simpl; lia|done|simpl; lia].
Qed.

(** *** The paths that a walk meets *)

Lemma file_ind' (P : file -> Prop) :
  (forall content, P (Regular content)) ->
  (forall entries, Forall (fun e => P e.2) entries -> P (Directory entries)) ->
  forall f, P f.
Proof.
  intros HR HD. fix IH 1. intros [content|entries]; [apply HR|].
  apply HD. revert entries. fix IHe 1. intros [|[name f] entries]; constructor.
  - apply IH.
  - apply IHe.
Qed.

Lemma namesOK_entries entries :
  namesOK (Directory entries) = true <->
  Forall (fun e => isName e.1 = true /\ namesOK e.2 = true) entries.
Proof.
  induction entries as [|[name f] entries IH].
  - split; [by constructor|done].
  - change (namesOK (Directory ((name, f) :: entries)))
      with (isName name && namesOK f && namesOK (Directory entries)).
    rewrite Forall_cons, <- IH, !andb_true_iff. simpl. tauto.
Qed.

Lemma visit_Directory path entries :
  visit path (Directory entries)
  = (path, Some (Directory entries))
    :: flat_map (fun e => visit (filepath.Join [path; e.1]) e.2) entries.
Proof.
  cbn [visit]. f_equal. induction entries as [|[name f] entries IH]; [done|].
  cbn -[visit filepath.Join]. f_equal. exact IH.
Qed.

Lemma visit_under f : forall root p x,
  cleaned root -> namesOK f = true -> (p, x) ∈ visit root f -> under root p.
Proof.
  induction f as [content|entries IH] using file_ind'; intros root p x Hroot Hok.
  - simpl. intros Hin%list_elem_of_singleton. injection Hin as -> _. by left.
  - rewrite visit_Directory. intros [Hin|Hin]%elem_of_cons.
    + injection Hin as -> _. by left.
    + apply list_elem_of_In, in_flat_map in Hin as ([name f] & Hentry & Hin).
      apply list_elem_of_In in Hentry, Hin. cbn [fst snd] in Hin.
      apply namesOK_entries in Hok. rewrite Forall_forall in IH, Hok.
      destruct (Hok _ Hentry) as [Hname Hf]. simpl in Hname, Hf.
      destruct (Join_cleaned root name Hroot (relative_name _ Hname)) as [Hj Hc].
      rewrite Hj in Hin.
      destruct (IH _ Hentry _ _ _ Hc Hf Hin) as [->|(rel & Hrel & ->)]; right.
      * exists name. split; [by apply relative_name|done].
      * exists (name +:+ "/" +:+ rel). split.
        -- apply relative_slash; [by apply relative_name|done].
        -- by rewrite !strings_facts.app_assoc.
Qed.

Lemma find_namesOK elems : forall f f',
  namesOK f = true -> find f elems = Some f' -> namesOK f' = true.
Proof.
  induction elems as [|e elems IH]; intros f f' Hok; simpl.
  - by intros [= <-].
  - destruct (String.eqb e "" || String.eqb e "."); [by apply IH|].
    destruct f as [content|entries]; [done|].
    destruct (list_find _ entries) as [[i [name f0]]|] eqn:Hfind; [|done].
    apply list_find_Some in Hfind as (Hi & _ & _).
    apply namesOK_entries in Hok. rewrite Forall_lookup in Hok.
    destruct (Hok _ _ Hi) as [_ Hf0]. by apply IH.
Qed.

Lemma Walk_under (fs : Filesystem) root p x :
  cleaned root -> (p, x) ∈ Walk fs root -> under root p.
Proof.
  intros Hroot. unfold Walk.
  destruct (find (fs_tree fs) _) as [f|] eqn:Hf.
  - apply visit_under; [done|]. eapply find_namesOK; [apply fs_names|exact Hf].
  - intros Hin%list_elem_of_singleton. injection Hin as -> _. by left.
Qed.

Lemma HasPrefix_longer s t : t <> "" -> strings.HasPrefix s (s +:+ t) = false.
Proof. intros Ht. induction s as [|c s IH]; simpl; [by destruct t|]. by rewrite Ascii.eqb_refl. Qed.

(** The relative path of the schema of a visited path is a path of names. *)
Lemma under_relPathOf root p :
  relative root -> under root p -> relative (relPathOf root p).
Proof.
  intros Hroot [->|(rel & Hrel & ->)]; unfold relPathOf, filepath.ToSlash, strings.TrimPrefix.
  - rewrite HasPrefix_longer by done. by apply relative_Replace1.
  - rewrite <- strings_facts.app_assoc, strings_facts.HasPrefix_app_self.
    rewrite strings_facts.drop_app_length. by apply relative_Replace1.
Qed.

End path_facts.

(** ** Documents *)

Lemma any_size_lookup (m : gmap string any) k v :
  m !! k = Some v -> any_size v < any_size (AMap m).
Proof.
  intros Hk. simpl. apply Nat.lt_succ_r.
  rewrite <- (insert_delete_id m k v Hk), fmap_insert.
  rewrite map_fold_insert_L.
  - lia.
  - intros. lia.
  - by rewrite lookup_fmap, lookup_delete_eq.
Qed.

Lemma any_size_elem (l : list any) v : v ∈ l -> any_size v < any_size (ASlice l).
Proof. induction 1; simpl in *; lia. Qed.

(** Induction on a document, with the hypothesis for every entry of an
    object and every item of an array. *)
Lemma any_ind' (P : any -> Prop) :
  P ANil -> (forall b, P (ABool b)) -> (forall n, P (AInt n)) ->
  (forall s, P (AFloat s)) -> (forall s, P (AString s)) ->
  (forall l, Forall P l -> P (ASlice l)) ->
  (forall m, map_Forall (fun _ => P) m -> P (AMap m)) ->
  (forall n, P (AUint n)) -> (forall t, P (ATime t)) ->
  (forall entries, P (AMapI entries)) ->
  forall v, P v.
Proof.
  intros Hn Hb Hi Hf Hs Hl Hm Hu Ht He v.
  remember (any_size v) as n eqn:Hsz. revert v Hsz.
  induction n as [n IH] using lt_wf_ind.
  intros [] ->; auto.
  - apply Hl, Forall_forall. intros x Hx.
    eapply IH; [|reflexivity]. by apply any_size_elem.
  - apply Hm. intros k x Hk.
    eapply IH; [|reflexivity]. by eapply any_size_lookup.
Qed.

Section patch_facts.
Context {E : Externals}.

Lemma firstError_None l : Forall (fun x => x = None) l -> firstError l = None.
Proof. induction 1 as [|x l -> _ IH]; [done|]. apply IH. Qed.

Lemma patchEntry_patched rec prec isRoot key value :
  rec value = inr (prec value) ->
  patchEntry rec isRoot key value = inr (patchedEntry prec isRoot key value).
Proof.
  intros Hrec. unfold patchEntry, patchedEntry.
  destruct (String.eqb key "$id"); [done|].
  destruct (String.eqb key "$ref").
  - destruct value; try done. unfold patchedRef.
    pose proof (strings_facts.encodeURIFragment_error
                  (strings.Replace1 s ".spec.yml" ".jsonschema.json")) as He.
    destruct (encodeURIFragment _) as [r e]. simpl in *. by subst.
  - rewrite Hrec. destruct (String.eqb key "additionalProperties"); [|done].
    by destruct value as [|[]| | | | | | | |].
Qed.

(** The pass computes [patched], and has no error to report. *)
Lemma patchSchemaInPlaceRecursive_patched v isRoot :
  patchSchemaInPlaceRecursive v isRoot = inr (patched v isRoot).
Proof.
  revert isRoot. induction v as [| | | | |l IH|m IH| | |] using any_ind'; intros isRoot; try done.
  - simpl. rewrite firstError_None.
    + f_equal. f_equal. induction IH as [|x l Hx _ IHl]; [done|]. simpl.
      rewrite Hx. simpl. by f_equal.
    + apply Forall_fmap, Forall_fmap. eapply Forall_impl; [exact IH|].
      intros x Hx. simpl. by rewrite Hx.
  - simpl. rewrite firstError_None.
    + f_equal. f_equal. apply map_eq. intros k.
      rewrite lookup_omap, !map_lookup_imap.
      destruct (m !! k) as [x|] eqn:Hk; [|done]. simpl.
      rewrite (patchEntry_patched _ (fun value => patched value false)).
      * simpl. by destruct (patchedEntry _ _ _ _).
      * by apply (IH k x Hk).
    + apply Forall_fmap. apply Forall_forall. intros r [k Hr]%list_elem_of_fmap.
      destruct Hr as [-> Hr]. destruct k as [k r]. apply elem_of_map_to_list in Hr.
      rewrite map_lookup_imap in Hr. destruct (m !! k) as [x|] eqn:Hk; [|done].
      simpl in Hr. injection Hr as <-. simpl.
      rewrite (patchEntry_patched _ (fun value => patched value false)); [done|].
      by apply (IH k x Hk).
Qed.

Lemma lookup_patched (obj : gmap string any) isRoot k :
  map_imap (patchedEntry (fun value => patched value false) isRoot) obj !! k
  = obj !! k ≫= patchedEntry (fun value => patched value false) isRoot k.
Proof. apply map_lookup_imap. Qed.

Lemma patchedEntry_walked rec isRoot k x :
  negb (String.eqb k "$id") && negb (String.eqb k "$ref") = true ->
  patchedEntry rec isRoot k x
  = if String.eqb k "additionalProperties"
    then match x with ABool true => None | _ => Some (rec x) end
    else Some (rec x).
Proof.
  intros [Hid Href]%andb_true_iff. unfold patchedEntry.
  apply negb_true_iff in Hid as ->. by apply negb_true_iff in Href as ->.
Qed.

Lemma patchedEntry_dropped rec isRoot k x :
  negb (String.eqb k "$id") && negb (String.eqb k "$ref") = true ->
  patchedEntry rec isRoot k x = if dropped k x then None else Some (rec x).
Proof.
  intros Hk. rewrite patchedEntry_walked by done. unfold dropped.
  destruct (String.eqb k "additionalProperties"); [|done]. by destruct x as [|[]| | | | | | | |].
Qed.

Lemma dropped_patched k x isRoot : dropped k (patched x isRoot) = dropped k x.
Proof. unfold dropped. by destruct x as [|[]| | | | | | | |]. Qed.

Lemma at_path_app p q v : at_path (p ++ q) v = at_path p v ≫= at_path q.
Proof.
  revert v. induction p as [|[k|i] p IH]; intros v; simpl; [done|..].
  - destruct v; try done. destruct (m !! k); [apply IH|done].
  - destruct v; try done. destruct (l !! i); [apply IH|done].
Qed.

Lemma at_path_scalar p v obj :
  at_path p v = Some (AMap obj) -> p = [] \/ (exists l, v = ASlice l) \/ (exists m, v = AMap m).
Proof. destruct p as [|[] p], v; simpl; eauto; done. Qed.

(** What is at a walked place after the pass is the pass applied to what
    was there. *)
Lemma at_path_patched p v isRoot obj :
  walked p = true -> at_path p v = Some (AMap obj) ->
  at_path p (patched v isRoot)
  = Some (patched (AMap obj) (isRoot && bool_decide (p = []))).
Proof.
  revert v isRoot. induction p as [|[k|i] p IH]; intros v isRoot Hw Hv.
  - simpl in Hv. injection Hv as ->. by rewrite andb_true_r.
  - simpl in Hw. apply andb_true_iff in Hw as [Hk Hw].
    destruct v; try done. simpl in Hv |- *.
    rewrite lookup_patched. destruct (m !! k) as [x|]; [|done]. simpl in Hv |- *.
    rewrite patchedEntry_walked by done.
    assert (Hx : (if String.eqb k "additionalProperties"
                  then match x with ABool true => None | _ => Some (patched x false) end
                  else Some (patched x false)) = Some (patched x false)).
    { destruct (String.eqb k "additionalProperties"); [|done].
      destruct (at_path_scalar _ _ _ Hv) as [->|[[l ->]|[m' ->]]]; try done.
      simpl in Hv. by injection Hv as ->. }
    rewrite Hx. simpl. rewrite (IH x false Hw Hv). by rewrite andb_false_r.
  - simpl in Hw. destruct v; try done. simpl in Hv |- *.
    rewrite list_lookup_fmap. destruct (l !! i) as [x|]; [|done]. simpl in Hv |- *.
    rewrite (IH x false Hw Hv). by rewrite andb_false_r.
Qed.

Lemma at_path_patched_inv p v isRoot v' :
  walked p = true -> at_path p (patched v isRoot) = Some v' ->
  exists v0, at_path p v = Some v0 /\ v' = patched v0 (isRoot && bool_decide (p = [])).
Proof.
  revert v isRoot. induction p as [|[k|i] p IH]; intros v isRoot Hw Hv.
  - simpl in Hv. injection Hv as <-. exists v. by rewrite andb_true_r.
  - simpl in Hw. apply andb_true_iff in Hw as [Hk Hw].
    destruct v; try done. simpl in Hv |- *.
    rewrite lookup_patched in Hv. destruct (m !! k) as [x|]; [|done]. simpl in Hv |- *.
    rewrite patchedEntry_walked in Hv by done.
    assert (Hx : at_path p (patched x false) = Some v').
    { destruct (String.eqb k "additionalProperties"); [|done].
      by destruct x as [|[]| | | | | | | |]. }
    destruct (IH x false Hw Hx) as (v0 & ? & ->). exists v0. by rewrite andb_false_r.
  - simpl in Hw. destruct v; try done. simpl in Hv |- *.
    rewrite list_lookup_fmap in Hv. destruct (l !! i) as [x|]; [|done]. simpl in Hv |- *.
    destruct (IH x false Hw Hv) as (v0 & ? & ->). exists v0. by rewrite andb_false_r.
Qed.

Lemma deletedAt_cons s p x : p <> [] -> deletedAt (s :: p) x = deletedAt p x.
Proof. unfold deletedAt. by destruct p. Qed.

Lemma at_path_ABool p b x : at_path p (ABool b) = Some x -> p = [] /\ x = ABool b.
Proof. destruct p as [|[] p]; simpl; [|done..]. by intros [= <-]. Qed.

(** The same for every node, with the one kind of node that the pass
    deletes. *)
Lemma at_path_patched_node p v isRoot x :
  walked p = true -> at_path p v = Some x ->
  at_path p (patched v isRoot)
  = if deletedAt p x then None
    else Some (patched x (isRoot && bool_decide (p = []))).
Proof.
  revert v isRoot. induction p as [|[k|i] p IH]; intros v isRoot Hw Hv.
  - simpl in Hv. injection Hv as ->. simpl. by rewrite andb_true_r.
  - simpl in Hw. apply andb_true_iff in Hw as [Hk Hw].
    destruct v; try done. simpl in Hv.
    change (at_path (Key k :: p) (patched (AMap m) isRoot))
      with (map_imap (patchedEntry (fun value => patched value false) isRoot) m !! k
              ≫= at_path p).
    rewrite lookup_patched. destruct (m !! k) as [y|]; [|done]. simpl in Hv.
    rewrite andb_false_r. cbn [mbind option_bind].
    rewrite patchedEntry_dropped by done.
    destruct (dropped k y) eqn:Hd.
    + assert (y = ABool true) as ->.
      { unfold dropped in Hd. apply andb_true_iff in Hd as [_ Hd].
        by destruct y as [|[]| | | | | | | |]. }
      apply at_path_ABool in Hv as [-> ->]. unfold deletedAt. simpl. by rewrite Hd.
    + cbn [mbind option_bind]. rewrite (IH y false Hw Hv). rewrite andb_false_l.
      destruct p as [|s p].
      * simpl in Hv. injection Hv as ->. unfold deletedAt. simpl. by rewrite Hd.
      * by rewrite (deletedAt_cons (Key k)).
  - simpl in Hw. destruct v; try done. simpl in Hv.
    change (at_path (Index i :: p) (patched (ASlice l) isRoot))
      with (((fun item => patched item false) <$> l) !! i ≫= at_path p).
    rewrite list_lookup_fmap. destruct (l !! i) as [y|]; [|done]. simpl in Hv.
    rewrite andb_false_r. cbn [mbind option_bind fmap option_fmap option_map].
    rewrite (IH y false Hw Hv). rewrite andb_false_l.
    destruct p as [|s p]; [done|]. by rewrite (deletedAt_cons (Index i)).
Qed.

(** A node that is neither [true], an object nor an array is left where it
    is, as it is. *)
Lemma at_path_patched_leaf p v isRoot x :
  walked p = true -> at_path p v = Some x ->
  (forall b obj l, x <> ABool b /\ x <> AMap obj /\ x <> ASlice l) ->
  at_path p (patched v isRoot) = Some x.
Proof.
  intros Hw Hp Hx. rewrite (at_path_patched_node p v isRoot x Hw Hp).
  assert (deletedAt p x = false) as ->.
  { unfold deletedAt. destruct (last p) as [[k|i]|]; try done. unfold dropped.
    destruct x as [|b| | | | | | | |]; try by rewrite andb_false_r.
    by destruct (Hx b ∅ []) as [? _]. }
  destruct x; try done.
  - by destruct (Hx true ∅ l) as (_ & _ & ?).
  - by destruct (Hx true m []) as (_ & ? & _).
Qed.

Lemma refsOnce_entry (m : gmap string any) k x :
  negb (String.eqb k "$id") && negb (String.eqb k "$ref") = true ->
  m !! k = Some x -> refsOnce (AMap m) -> refsOnce x.
Proof.
  intros Hk Hx Hm p obj r Hw Hp Hr.
  apply (Hm (Key k :: p) obj r); [|simpl; by rewrite Hx|done].
  simpl. by rewrite Hk.
Qed.

Lemma refsOnce_item (l : list any) i x :
  l !! i = Some x -> refsOnce (ASlice l) -> refsOnce x.
Proof.
  intros Hx Hl p obj r Hw Hp Hr.
  apply (Hl (Index i :: p) obj r); [done|simpl; by rewrite Hx|done].
Qed.

(** The second pass changes nothing, when no walked [$ref] has [.spec.yml]
    twice. *)
Lemma patched_idem v isRoot :
  refsOnce v -> patched (patched v isRoot) isRoot = patched v isRoot.
Proof.
  revert isRoot. induction v as [| | | | |l IH|m IH| | |] using any_ind'; intros isRoot Hv; try done.
  - simpl. f_equal. rewrite <- list_fmap_compose. apply list_eq. intros i.
    rewrite !list_lookup_fmap. destruct (l !! i) as [x|] eqn:Hx; [|done]. simpl. f_equal.
    rewrite Forall_lookup in IH. apply (IH i x Hx). by eapply refsOnce_item.
  - simpl. f_equal. apply map_eq. intros k. rewrite !lookup_patched.
    destruct (m !! k) as [x|] eqn:Hx; [|done]. simpl.
    destruct (String.eqb_spec k "$id") as [->|Hid].
    { unfold patchedEntry; simpl. destruct isRoot; done. }
    destruct (String.eqb_spec k "$ref") as [->|Href].
    { unfold patchedEntry; simpl. destruct x; simpl; try done.
      do 2 f_equal. apply strings_facts.patchedRef_idem. by apply (Hv [] m s). }
    apply String.eqb_neq in Hid, Href.
    assert (Hk : negb (String.eqb k "$id") && negb (String.eqb k "$ref") = true)
      by by rewrite Hid, Href.
    assert (Hx' : patched (patched x false) false = patched x false).
    { apply (IH k x Hx). by eapply refsOnce_entry. }
    pose proof (patchedEntry_dropped (fun value => patched value false) isRoot k) as Hd.
    rewrite (Hd x Hk). destruct (dropped k x) eqn:Hdx; [done|]. simpl.
    by rewrite (Hd _ Hk), dropped_patched, Hdx, Hx'.
Qed.

End patch_facts.

(** ** The patch pass: claims *)

Section patch_claims.
Context {E : Externals}.

(** C9.  [encodeURIFragment] returns a [nil] error for every string; a
    reference that ends in a bare [#] with an empty fragment comes back
    unchanged; an entry of an object fails only when the recursive call on
    its value fails, never in the encoding of a [$ref]; and the recursive
    pass returns a patched document, not an error, for every document. *)
Theorem patch_pass_never_fails :
  (forall ref, (encodeURIFragment ref).2 = None) /\
  (forall base, strings.Contains base "#" = false ->
                encodeURIFragment (base +:+ "#") = (base +:+ "#", None)) /\
  (forall rec isRoot key value err,
      patchEntry rec isRoot key value = inl err -> rec value = inl err) /\
  (forall v isRoot, exists v', patchSchemaInPlaceRecursive v isRoot = inr v').
Proof.
  split_and!.
  - apply strings_facts.encodeURIFragment_error.
  - intros base Hb. apply injective_projections; simpl.
    + rewrite strings_facts.encodeURIFragment_value.
      change (base +:+ "#") with (base +:+ "#" +:+ "").
      by rewrite strings_facts.encodeAfterHash_split.
    + apply strings_facts.encodeURIFragment_error.
  - intros rec isRoot key value err. unfold patchEntry.
    destruct (String.eqb key "$id"); [done|].
    destruct (String.eqb key "$ref").
    + destruct value; try done.
      pose proof (strings_facts.encodeURIFragment_error
                    (strings.Replace1 s ".spec.yml" ".jsonschema.json")) as He.
      destruct (encodeURIFragment _) as [r e]. simpl in He. by subst.
    + destruct (String.eqb key "additionalProperties");
        destruct (rec value); congruence.
  - intros v isRoot. eexists. apply patchSchemaInPlaceRecursive_patched.
Qed.

(** C2, amended.  The pass walks to the objects that are reached from the
    root through objects with string keys and through arrays, without a
    step through a [$id] or a [$ref] key.  At every such object an
    [additionalProperties] that is [true] is deleted, a string [$ref]
    becomes [patchedRef] of it, and a [$ref] that is not a string is left as
    it is (nothing below it is patched); a mapping with a key that is not a
    string is left as it is, with all that it holds;
    [foo.spec.yml#/bar^baz] becomes [foo.jsonschema.json#/bar%5Ebaz].
    [patchedRef] replaces the first [.spec.yml] of the string, wherever it
    is, by [.jsonschema.json], and then encodes every caret after the first
    [#], leaving the rest as it is; without a [#] only the replacement is
    made. *)
Theorem ref_rewritten (doc : any) (isRoot : bool) (p : list step)
    (obj : gmap string any) :
  walked p = true ->
  at_path p doc = Some (AMap obj) ->
  exists doc' obj',
    patchSchemaInPlaceRecursive doc isRoot = inr doc' /\
    at_path p doc' = Some (AMap obj') /\
    (forall q entries,
        walked q = true -> at_path q doc = Some (AMapI entries) ->
        at_path q doc' = Some (AMapI entries)) /\
    (obj !! "additionalProperties" = Some (ABool true) ->
     obj' !! "additionalProperties" = None) /\
    (forall refStr, obj !! "$ref" = Some (AString refStr) ->
                    obj' !! "$ref" = Some (AString (patchedRef refStr))) /\
    (forall v, obj !! "$ref" = Some v -> (forall refStr, v <> AString refStr) ->
               obj' !! "$ref" = Some v) /\
    patchedRef "foo.spec.yml#/bar^baz" = "foo.jsonschema.json#/bar%5Ebaz" /\
    (forall refStr,
        let r1 := strings.Replace1 refStr ".spec.yml" ".jsonschema.json" in
        (forall stem rest,
            refStr = stem +:+ ".spec.yml" +:+ rest ->
            strings.Contains (stem +:+ ".spec.ym") ".spec.yml" = false ->
            r1 = stem +:+ ".jsonschema.json" +:+ rest) /\
        (strings.Contains refStr ".spec.yml" = false -> r1 = refStr) /\
        (forall base fragment,
            r1 = base +:+ "#" +:+ fragment -> strings.Contains base "#" = false ->
            patchedRef refStr
            = base +:+ "#" +:+ strings.ReplaceAll fragment "^" "%5E") /\
        (strings.Contains r1 "#" = false -> patchedRef refStr = r1)).
Proof.
  intros Hw Hp.
  eexists _, _. split; [apply patchSchemaInPlaceRecursive_patched|].
  split; [by apply at_path_patched|]. simpl. split_and!.
  - intros q entries Hq Hat. apply (at_path_patched_leaf q doc isRoot _ Hq Hat).
    by intros b obj0 l.
  - intros Hap. rewrite lookup_patched, Hap. by destruct (isRoot && _).
  - intros refStr Href. rewrite lookup_patched, Href. simpl. unfold patchedEntry. simpl.
    by destruct (isRoot && bool_decide (p = [])).
  - intros v Href Hv. rewrite lookup_patched, Href. simpl. unfold patchedEntry. simpl.
    destruct (isRoot && bool_decide (p = [])); destruct v; try done; by destruct (Hv s).
  - reflexivity.
  - intros refStr.
    set (r1 := strings.Replace1 refStr ".spec.yml" ".jsonschema.json"). split_and!.
    + intros stem rest -> Hc.
      apply (strings_facts.Replace1_first stem ".spec.ym" "l" rest ".jsonschema.json" Hc).
    + apply strings_facts.Replace1_absent.
    + intros base fragment Hr Hb. rewrite strings_facts.patchedRef_eq. fold r1. rewrite Hr.
      by apply strings_facts.encodeAfterHash_split.
    + intros Hc. rewrite strings_facts.patchedRef_eq.
      by apply strings_facts.encodeAfterHash_absent.
Qed.

(** C3, amended.  The pass succeeds.  Every node that is reached from the
    root through objects with string keys and through arrays, without a
    step through a [$id] or a [$ref] key, is replaced by one application of
    the pass to it (an [additionalProperties] that is [true] is deleted);
    a [$ref] value that is not a string is left as it is, with whatever
    [$id] is below it, and so is a mapping with a key that is not a string,
    with all that it holds; and none of the objects walked to, the root
    apart, has a [$id] afterwards. *)
Theorem nested_id_deleted (doc : any) :
  exists doc',
    patchSchemaInPlace doc = inr doc' /\
    (forall p v,
        walked p = true -> p <> [] -> at_path p doc = Some v ->
        if deletedAt p v then at_path p doc' = None
        else exists v',
            patchSchemaInPlaceRecursive v false = inr v' /\ at_path p doc' = Some v') /\
    (forall p obj v,
        walked p = true -> at_path p doc = Some (AMap obj) ->
        obj !! "$ref" = Some v -> (forall refStr, v <> AString refStr) ->
        at_path (p ++ [Key "$ref"]) doc' = Some v) /\
    (forall p entries,
        walked p = true -> at_path p doc = Some (AMapI entries) ->
        at_path p doc' = Some (AMapI entries)) /\
    (forall p obj',
        walked p = true -> p <> [] -> at_path p doc' = Some (AMap obj') ->
        obj' !! "$id" = None).
Proof.
  exists (patched doc true). split; [apply patchSchemaInPlaceRecursive_patched|]. split_and!.
  - intros p v Hw Hne Hp.
    rewrite (at_path_patched_node p doc true v Hw Hp).
    destruct (deletedAt p v); [done|].
    exists (patched v false). split; [apply patchSchemaInPlaceRecursive_patched|].
    by rewrite bool_decide_eq_false_2.
  - intros p obj v Hw Hp Href Hv.
    rewrite at_path_app, (at_path_patched p doc true obj Hw Hp). simpl.
    rewrite lookup_patched, Href. simpl. unfold patchedEntry. simpl.
    destruct (bool_decide (p = [])); destruct v; try done; by destruct (Hv s).
  - intros p entries Hw Hp. apply (at_path_patched_leaf p doc true _ Hw Hp).
    by intros b obj0 l.
  - intros p obj' Hw Hne Hp.
    destruct (at_path_patched_inv p doc true _ Hw Hp) as (v0 & _ & Hv0).
    rewrite bool_decide_eq_false_2 in Hv0 by done. simpl in Hv0.
    destruct v0; try done. simpl in Hv0. injection Hv0 as ->.
    rewrite lookup_patched. by destruct (m !! "$id").
Qed.

Context {F : Flags}.

Lemma patchSchema_patched version relativePath spec id :
  schemaID version relativePath = inr id ->
  patchSchema version relativePath spec
  = inr (map_imap (patchedEntry (fun value => patched value false) true)
           (<["$id" := AString id]> (<["$schema" := AString dialect]> spec))).
Proof.
  intros Hid. unfold patchSchema, patchSchemaInPlace. rewrite Hid.
  by rewrite patchSchemaInPlaceRecursive_patched.
Qed.

Lemma refsOnce_insert_string (m : gmap string any) k s :
  k <> "$ref" -> refsOnce (AMap m) -> refsOnce (AMap (<[k := AString s]> m)).
Proof.
  intros Hk Hm [|[k'|i] p] obj r Hw Hp Hr; simpl in Hp.
  - injection Hp as <-. rewrite lookup_insert_ne in Hr by done. by apply (Hm [] m r).
  - destruct (decide (k = k')) as [<-|Hne].
    + rewrite lookup_insert_eq in Hp. simpl in Hp. by destruct p as [|[] p].
    + rewrite lookup_insert_ne in Hp by done. by apply (Hm (Key k' :: p) obj r).
  - done.
Qed.

(** C4, amended.  When every string [$ref] that the pass walks to has
    [.spec.yml] at most once, patching the patched document again, with the
    same version and relative path, gives the patched document. *)
Theorem patchSchema_idempotent (version relativePath : string)
    (spec spec1 : gmap string any) :
  refsOnce (AMap spec) ->
  patchSchema version relativePath spec = inr spec1 ->
  patchSchema version relativePath spec1 = inr spec1.
Proof.
  intros Honce Hp.
  destruct (schemaID version relativePath) as [err|id] eqn:Hid.
  { unfold patchSchema in Hp. by rewrite Hid in Hp. }
  rewrite (patchSchema_patched _ _ _ id Hid) in Hp. injection Hp as <-.
  rewrite (patchSchema_patched _ _ _ id Hid). f_equal.
  set (spec0 := <["$id" := AString id]> (<["$schema" := AString dialect]> spec)).
  set (spec1 := map_imap _ spec0).
  assert (Hid1 : spec1 !! "$id" = Some (AString id)).
  { unfold spec1. rewrite lookup_patched. unfold spec0. by rewrite lookup_insert_eq. }
  assert (Hsch1 : spec1 !! "$schema" = Some (AString dialect)).
  { unfold spec1. rewrite lookup_patched. unfold spec0.
    rewrite lookup_insert_ne by done. by rewrite lookup_insert_eq. }
  rewrite (insert_id spec1 "$schema") by done. rewrite insert_id by done.
  assert (Hidem : patched (patched (AMap spec0) true) true = patched (AMap spec0) true).
  { apply patched_idem. unfold spec0.
    apply refsOnce_insert_string; [done|]. by apply refsOnce_insert_string. }
  simpl in Hidem. by injection Hidem.
Qed.

End patch_claims.

(** *** The claims on concrete documents *)

(** C9 on a reference that ends in a bare [#]. *)
Lemma patch_pass_never_fails_witness :
  encodeURIFragment "foo.jsonschema.json#" = ("foo.jsonschema.json#", None).
Proof.
  apply (proj1 (proj2 (@patch_pass_never_fails sample.externals)) "foo.jsonschema.json").
  reflexivity.
Defined.

(** C2 on the object of the scenario, two levels below the root. *)
Lemma ref_rewritten_witness :
  exists doc' obj',
    patchSchemaInPlaceRecursive (E:=sample.externals) scenarioDoc true = inr doc' /\
    at_path [Key "properties"; Key "x"] doc' = Some (AMap obj') /\
    obj' !! "additionalProperties" = None /\
    obj' !! "$ref" = Some (AString "foo.jsonschema.json#/bar%5Ebaz").
Proof.
  destruct (@ref_rewritten sample.externals scenarioDoc true [Key "properties"; Key "x"]
              {[ "additionalProperties" := ABool true;
                 "$ref" := AString "foo.spec.yml#/bar^baz" ]}
              eq_refl eq_refl)
    as (doc' & obj' & H1 & H2 & _ & H3 & H4 & _ & H5 & _).
  exists doc', obj'. split; [exact H1|]. split; [exact H2|].
  split; [exact (H3 eq_refl)|]. rewrite <- H5. exact (H4 _ eq_refl).
Defined.

(** C2, as stated, fails: a fragment is rewritten, a string [$ref] under
    a [$ref] key is not, and neither is one inside a mapping that has a key
    which is not a string. *)
Lemma ref_rewritten_counterexample :
  (* a string [$ref] and an [additionalProperties] that the pass does not reach *)
  (let doc :=
     AMap {[ "a" := AMapI [ (AInt 1, AString "x");
                            (AString "b",
                             AMap {[ "additionalProperties" := ABool true;
                                     "$ref" := AString "a.spec.yml" ]}) ] ]} in
   patchSchemaInPlace (E:=sample.externals) doc = inr doc) /\
  (* a fragment that is rewritten *)
  patchSchemaInPlace (E:=sample.externals) (AMap {[ "$ref" := AString "#/a.spec.yml" ]})
  = inr (AMap {[ "$ref" := AString "#/a.jsonschema.json" ]}) /\
  specRewrittenRef "#/a.spec.yml" = "#/a.spec.yml" /\
  (* a string [$ref] that is not rewritten *)
  patchSchemaInPlace (E:=sample.externals)
    (AMap {[ "$ref" := AMap {[ "$ref" := AString "a.spec.yml" ]} ]})
  = inr (AMap {[ "$ref" := AMap {[ "$ref" := AString "a.spec.yml" ]} ]}) /\
  specRewrittenRef "a.spec.yml" = "a.jsonschema.json".
Proof. vm_compute. auto. Qed.

(** C3 on an object inside an array: its [$id] is gone. *)
Lemma nested_id_deleted_witness :
  exists doc',
    patchSchemaInPlace (E:=sample.externals)
      (AMap {[ "$id" := AString "root";
               "items" := ASlice [AMap {[ "$id" := AString "inner" ]}] ]}) = inr doc' /\
    at_path [Key "items"; Index 0] doc' = Some (AMap ∅).
Proof.
  destruct (@nested_id_deleted sample.externals
              (AMap {[ "$id" := AString "root";
                       "items" := ASlice [AMap {[ "$id" := AString "inner" ]}] ]}))
    as (doc' & H1 & H2 & _).
  exists doc'. split; [exact H1|].
  pose proof (H2 [Key "items"; Index 0] (AMap {[ "$id" := AString "inner" ]}) eq_refl
                ltac:(discriminate) eq_refl) as H3.
  change (deletedAt [Key "items"; Index 0] (AMap {[ "$id" := AString "inner" ]}))
    with false in H3.
  destruct H3 as (v' & H3 & H4).
  vm_compute in H3. injection H3 as <-. exact H4.
Defined.

(** C3, as stated, fails: an object under a [$ref] key keeps its [$id], and
    so does an object inside a mapping that has a key which is not a
    string. *)
Lemma nested_id_deleted_counterexample :
  let doc := AMap {[ "$ref" := AMap {[ "$id" := AString "x" ]} ]} in
  (let doc := AMap {[ "a" := AMapI [ (AInt 1, AMap {[ "$id" := AString "x" ]}) ] ]} in
   patchSchemaInPlace (E:=sample.externals) doc = inr doc) /\
  patchSchemaInPlace (E:=sample.externals) doc = inr doc /\
  at_path [Key "$ref"] doc = Some (AMap {[ "$id" := AString "x" ]}) /\
  ({[ "$id" := AString "x" ]} : gmap string any) !! "$id" = Some (AString "x") /\
  exists spec1,
    patchSchema (E:=sample.externals) (F:=defaultFlags) "3.4.1" "a.jsonschema.json"
      {[ "$ref" := AMap {[ "$id" := AString "x" ]} ]} = inr spec1 /\
    at_path [Key "$ref"; Key "$id"] (AMap spec1) = Some (AString "x").
Proof.
  split; [vm_compute; reflexivity|].
  split; [vm_compute; reflexivity|]. split; [vm_compute; reflexivity|].
  split; [vm_compute; reflexivity|].
  eexists. split; vm_compute; reflexivity.
Qed.

(** C4 on the reference of the scenario. *)
Lemma patchSchema_idempotent_witness :
  exists spec1,
    patchSchema (E:=sample.externals) (F:=defaultFlags) "3.4.1" "a.jsonschema.json"
      {[ "$ref" := AString "foo.spec.yml#/bar^baz" ]} = inr spec1 /\
    patchSchema (E:=sample.externals) (F:=defaultFlags) "3.4.1" "a.jsonschema.json" spec1
    = inr spec1.
Proof.
  eexists. split; [vm_compute; reflexivity|].
  apply (@patchSchema_idempotent sample.externals defaultFlags "3.4.1" "a.jsonschema.json"
           {[ "$ref" := AString "foo.spec.yml#/bar^baz" ]}).
  - intros p obj r Hw Hp Hr. destruct p as [|[k|i] p]; simpl in Hp.
    + simplify_eq. rewrite lookup_singleton_eq in Hr. simplify_eq. vm_compute. lia.
    + destruct (decide (k = "$ref")) as [->|]; [done|].
      by rewrite lookup_singleton_ne in Hp.
    + done.
  - vm_compute. reflexivity.
Defined.

(** C4, as stated, fails: the second pass replaces the second [.spec.yml]. *)
Lemma patchSchema_idempotent_counterexample :
  let once : gmap string any :=
    {[ "$schema" := AString "https://json-schema.org/draft/2020-12/schema";
       "$id" := AString "https://schemas.elastic.dev/package-spec/3.4.1/a.jsonschema.json";
       "$ref" := AString "a.jsonschema.json#/b.spec.yml" ]} in
  let twice : gmap string any :=
    {[ "$schema" := AString "https://json-schema.org/draft/2020-12/schema";
       "$id" := AString "https://schemas.elastic.dev/package-spec/3.4.1/a.jsonschema.json";
       "$ref" := AString "a.jsonschema.json#/b.jsonschema.json" ]} in
  patchSchema (E:=sample.externals) (F:=defaultFlags) "3.4.1" "a.jsonschema.json"
    {[ "$ref" := AString "a.spec.yml#/b.spec.yml" ]} = inr once /\
  patchSchema (E:=sample.externals) (F:=defaultFlags) "3.4.1" "a.jsonschema.json" once
  = inr twice /\
  twice <> once.
Proof.
  split; [vm_compute; reflexivity|]. split; [vm_compute; reflexivity|].
  intros Heq. apply (f_equal (fun m : gmap string any => m !! "$ref")) in Heq.
  vm_compute in Heq. discriminate.
Qed.

(** ** The synthesized manifest *)

Section manifest_claims.
Context {E : Externals} {F : Flags}.

Lemma manifestTypes_table (files : list string) :
  let found path :=
    existsb (fun s => strings.HasSuffix (filepath.ToSlash s) path) files in
  let m : gmap string string :=
    {[ "content" := "content/manifest.jsonschema.json";
       "input" := "input/manifest.jsonschema.json";
       "integration" := "integration/manifest.jsonschema.json" ]} in
  filter (fun '(typ, path) => found path = true) m
  = filter (typeTable (found "content/manifest.jsonschema.json")
                      (found "input/manifest.jsonschema.json")
                      (found "integration/manifest.jsonschema.json")) m.
Proof.
  intros found m. apply map_filter_ext. intros typ path Hm.
  apply elem_of_map_to_list in Hm. vm_compute in Hm.
  apply list_elem_of_In in Hm. simpl in Hm.
  destruct Hm as [[= <- <-]|[[= <- <-]|[[= <- <-]|[]]]]; unfold typeTable; simpl; done.
Qed.

(** What [combinedManifestSchema] builds: the [enum] of [type] has one
    element, the list of the present type names, and [allOf] has the
    conditional of each present type, in the order of the names. *)
Lemma combinedManifest_built (files : list string) (version : string) (s : Schema) :
  combinedManifest files version = inr s ->
  presentTypes files <> [] /\
  (exists t, Properties s !! "type" = Some t /\ Type_ t = "string" /\
             Enum t = [VStrings (presentTypes files)]) /\
  AllOf s = manifestBranch <$> presentTypes files.
Proof.
  unfold combinedManifest, presentTypes.
  rewrite manifestTypes_table.
  rewrite !filter_cons, filter_nil. unfold filepath.ToSlash.
  change ("content" +:+ "/manifest.jsonschema.json") with "content/manifest.jsonschema.json".
  change ("input" +:+ "/manifest.jsonschema.json") with "input/manifest.jsonschema.json".
  change ("integration" +:+ "/manifest.jsonschema.json")
    with "integration/manifest.jsonschema.json".
  destruct (existsb _ files), (existsb _ files), (existsb _ files);
    destruct (schemaID version "manifest.jsonschema.json") as [err|id];
    try (vm_compute; discriminate).
  all: intros Hs; vm_compute in Hs; injection Hs as <-.
  all: split; [by vm_compute|]; split; [eexists; split; [|split]|]; by vm_compute.
Qed.

End manifest_claims.

(** C1.  For every list of written files for which a manifest is built, the
    [enum] of the [type] property has exactly one element, and that element
    is the whole sorted list of the present type names: it is not the list
    of the names.  [allOf] has one conditional per present type, in the
    sorted order of the names. *)
Theorem combinedManifest_enum_nested {E : Externals} {F : Flags}
    (files : list string) (version : string) (s : Schema) :
  combinedManifest files version = inr s ->
  exists t,
    Properties s !! "type" = Some t /\
    Enum t = [VStrings (presentTypes files)] /\
    Enum t <> VString <$> presentTypes files /\
    AllOf s = manifestBranch <$> presentTypes files /\
    sublist (presentTypes files) ["content"; "input"; "integration"].
Proof.
  intros (Hne & (t & Ht & _ & He) & Hall)%combinedManifest_built.
  exists t. split_and!; try done.
  - rewrite He. by destruct (presentTypes files) as [|? [|? ?]].
  - apply sublist_filter.
Qed.

(** The scenario of the specification: the [enum] is
    [[["input", "integration"]]], not [["input", "integration"]]. *)
Lemma combinedManifest_enum_nested_witness :
  exists s t,
    combinedManifest (E:=sample.externals) (F:=defaultFlags)
      ["input/manifest.jsonschema.json"; "integration/manifest.jsonschema.json"] "3.4.1"
    = inr s /\
    Properties s !! "type" = Some t /\
    Enum t = [VStrings ["input"; "integration"]] /\
    Enum t <> [VString "input"; VString "integration"] /\
    length (AllOf s) = 2.
Proof.
  destruct (combinedManifest (E:=sample.externals) (F:=defaultFlags)
              ["input/manifest.jsonschema.json"; "integration/manifest.jsonschema.json"]
              "3.4.1") as [err|s] eqn:Hs; [by vm_compute in Hs|].
  destruct (@combinedManifest_enum_nested sample.externals defaultFlags _ _ s Hs)
    as (t & Ht & He & Hn & Hall & _).
  exists s, t. split_and!.
  - reflexivity.
  - exact Ht.
  - rewrite He. reflexivity.
  - rewrite He. discriminate.
  - rewrite Hall. reflexivity.
Defined.

(** ** Versions *)

Section semver_facts.
Import strings semver.
#[local] Arguments String.append !_ _ / : simpl nomatch.
#[local] Arguments Ascii.eqb !_ !_ / : simpl nomatch.

(** *** Decimal numbers *)

Lemma digitsValue_of_uint_acc d acc :
  digitsValue (Z.pos acc) (NilEmpty.string_of_uint d) = Z.pos (Pos.of_uint_acc d acc).
Proof.
  revert acc. induction d; intros acc; cbn [NilEmpty.string_of_uint digitsValue Pos.of_uint_acc];
    try done.
  all: rewrite <- IHd; f_equal; vm_compute (Ascii.nat_of_ascii _ - 48); lia.
Qed.

Lemma digitsValue_of_uint d :
  digitsValue 0 (NilEmpty.string_of_uint d) = Z.of_N (Pos.of_uint d).
Proof.
  induction d; cbn [NilEmpty.string_of_uint digitsValue Pos.of_uint]; try done.
  all: simpl Z.of_N; rewrite <- digitsValue_of_uint_acc; f_equal.
Qed.

Lemma allChars_isDigit_uint d : allChars isDigit (NilEmpty.string_of_uint d) = true.
Proof. induction d; simpl; try done; by rewrite IHd. Qed.

Lemma decimal_digits n : (0 <= n)%Z -> allChars isDigit (decimal n) = true /\ decimal n <> "".
Proof.
  intros Hn. unfold decimal. destruct n as [|p|p]; [done| |lia]. simpl.
  pose proof (DecimalPos.Unsigned.to_uint_nonnil p) as Hnil.
  destruct (Pos.to_uint p) eqn:Hd; try done; simpl; (split; [|done]);
    apply allChars_isDigit_uint.
Qed.

(** [strconv.ParseInt] reads back what [%d] prints. *)
Lemma ParseInt_decimal n : (0 <= n <= 2 ^ 63 - 1)%Z -> ParseInt (decimal n) = Some n.
Proof.
  intros Hn. destruct (decimal_digits n) as [Hd Hne]; [lia|].
  assert (Hv : digitsValue 0 (decimal n) = n).
  { unfold decimal. destruct n as [|p|p]; [done| |lia]. simpl.
    pose proof (DecimalPos.Unsigned.to_uint_nonnil p) as Hnil.
    pose proof (digitsValue_of_uint (Pos.to_uint p)) as Hv.
    rewrite DecimalPos.Unsigned.of_to in Hv.
    by destruct (Pos.to_uint p). }
  unfold ParseInt.
  assert (Hs : match decimal n with
               | String "-" r => (true, r)
               | String "+" r => (false, r)
               | _ => (false, decimal n)
               end = (false, decimal n)).
  { destruct (decimal n) as [|c r]; [done|]. simpl in Hd.
    apply andb_true_iff in Hd as [Hc _].
    destruct c as [[] [] [] [] [] [] [] []]; try done. }
  rewrite Hs. apply String.eqb_neq in Hne. rewrite Hne, Hd. simpl. rewrite Hv.
  destruct (Z.leb_spec (- 2 ^ 63) n); [|lia].
  destruct (Z.leb_spec n (2 ^ 63 - 1)); [done|lia].
Qed.

Lemma digitsValue_nonneg s acc : (0 <= acc)%Z -> (0 <= digitsValue acc s)%Z.
Proof. revert acc. induction s as [|c s IH]; intros acc Hacc; simpl; [done|]. apply IH. lia. Qed.

Lemma ParseInt_range s n :
  lacks "-" s = true -> ParseInt s = Some n -> (0 <= n <= 2 ^ 63 - 1)%Z.
Proof.
  unfold lacks, ParseInt. intros Hs.
  assert (Hm : match s with
               | String "-" r => (true, r)
               | String "+" r => (false, r)
               | _ => (false, s)
               end.1 = false).
  { destruct s as [|c r]; [done|]. simpl in Hs. apply andb_true_iff in Hs as [Hc _].
    destruct c as [[] [] [] [] [] [] [] []]; try done. }
  destruct (match s with String "-" r => _ | String "+" r => _ | _ => _ end) as [neg digits].
  simpl in Hm. subst neg.
  destruct (_ || _); [done|].
  pose proof (digitsValue_nonneg digits 0 ltac:(lia)).
  destruct (Z.leb_spec (- 2 ^ 63) (digitsValue 0 digits)); [|done].
  destruct (Z.leb_spec (digitsValue 0 digits) (2 ^ 63 - 1)); [|done].
  simpl. intros [= <-]. lia.
Qed.

(** *** Identifiers *)

Lemma dotFields_chars p cur s :
  forallb (allChars p) (dotFields cur s) = true ->
  allChars p cur = true /\ allChars (fun c => p c || Ascii.eqb c ".") s = true.
Proof.
  revert cur. induction s as [|c s IH]; intros cur; cbn [dotFields].
  - simpl. rewrite andb_true_r. by intros ->.
  - destruct (Ascii.eqb c ".") eqn:Hc.
    + cbn [forallb]. intros [Hcur Hrest]%andb_true_iff.
      destruct (IH _ Hrest) as [_ Hs]. split; [done|]. simpl. by rewrite Hc, orb_true_r, Hs.
    + intros [Hcur Hs]%IH. rewrite allChars_app in Hcur.
      apply andb_true_iff in Hcur as [Hcur Hpc]. split; [done|].
      simpl in Hpc |- *. rewrite andb_true_r in Hpc. by rewrite Hpc, Hs.
Qed.

Lemma validateIdentifier_chars id :
  validateIdentifier id = true ->
  allChars (fun c => isIdentChar c || Ascii.eqb c ".") id = true.
Proof.
  unfold validateIdentifier. destruct (String.eqb_spec id "") as [->|_]; [done|]. simpl.
  intros Hf. apply (dotFields_chars isIdentChar "" id).
  rewrite forallb_forall in Hf |- *. intros f Hin. specialize (Hf f Hin).
  by apply andb_true_iff in Hf as [_ Hf].
Qed.

Lemma validateIdentifier_lacks sep id :
  isIdentChar sep = false -> Ascii.eqb sep "." = false ->
  validateIdentifier id = true -> lacks sep id = true.
Proof.
  intros Hsep Hdot Hid%validateIdentifier_chars. revert Hid. apply allChars_impl.
  intros c Hc. destruct (Ascii.eqb_spec c sep) as [->|]; [|done].
  by rewrite Hsep, Hdot in Hc.
Qed.

Lemma isDigit_lacks sep s :
  isDigit sep = false -> allChars isDigit s = true -> lacks sep s = true.
Proof.
  intros Hsep. apply allChars_impl. intros c Hc.
  destruct (Ascii.eqb_spec c sep) as [->|]; [congruence|done].
Qed.

(** *** Parsing what [String] prints *)

Lemma NewVersion_String v : wellFormed v -> NewVersion (String_ v) = Some v.
Proof.
  intros (HM & Hm & Hp & Hpre & Hmeta).
  destruct (decimal_digits (Major v)) as [HdM _]; [lia|].
  destruct (decimal_digits (Minor v)) as [Hdm _]; [lia|].
  destruct (decimal_digits (Patch v)) as [Hdp _]; [lia|].
  set (numbers := decimal (Major v) +:+ "." +:+ decimal (Minor v) +:+ "." +:+ decimal (Patch v)).
  set (pre := if String.eqb (PreRelease v) "" then "" else "-" +:+ PreRelease v).
  set (meta := if String.eqb (Metadata v) "" then "" else "+" +:+ Metadata v).
  assert (Hs : String_ v = (numbers +:+ pre) +:+ meta).
  { unfold String_, numbers. fold pre meta. by rewrite !strings_facts.app_assoc. }
  assert (Hnum : forall sep, isDigit sep = false -> Ascii.eqb "." sep = false ->
                             lacks sep numbers = true).
  { intros sep Hsep Hdot. unfold numbers. rewrite !lacks_app.
    rewrite (isDigit_lacks sep _ Hsep HdM), (isDigit_lacks sep _ Hsep Hdm),
      (isDigit_lacks sep _ Hsep Hdp).
    unfold lacks. simpl. by rewrite Hdot. }
  assert (Hplus : lacks "+" (numbers +:+ pre) = true).
  { rewrite lacks_app, Hnum by done. unfold pre.
    destruct (String.eqb (PreRelease v) ""); [done|].
    rewrite lacks_app. by rewrite (validateIdentifier_lacks "+" _ eq_refl eq_refl Hpre). }
  assert (H1 : splitOff (String_ v) "+" = (numbers +:+ pre, Metadata v)).
  { rewrite Hs. unfold meta. destruct (String.eqb_spec (Metadata v) "") as [->|_].
    - rewrite string_app_empty_r. unfold splitOff. by rewrite SplitN_lacks.
    - cbn [String.append]. by apply splitOff_sep. }
  assert (H2 : splitOff (numbers +:+ pre) "-" = (numbers, PreRelease v)).
  { unfold pre. destruct (String.eqb_spec (PreRelease v) "") as [->|_].
    - rewrite string_app_empty_r. unfold splitOff. rewrite SplitN_lacks; [done|]. by apply Hnum.
    - cbn [String.append]. apply splitOff_sep. by apply Hnum. }
  assert (H3 : SplitN numbers "." 3 = [decimal (Major v); decimal (Minor v); decimal (Patch v)]).
  { unfold numbers. cbn [String.append].
    rewrite SplitN_sep by by apply isDigit_lacks.
    rewrite SplitN_sep by by apply isDigit_lacks. by rewrite strings_facts.SplitN_1. }
  unfold NewVersion. rewrite H1, H2, H3, Hpre, Hmeta. simpl.
  rewrite !ParseInt_decimal by done. by destruct v.
Qed.

Lemma NewVersion_wellFormed s v : NewVersion s = Some v -> wellFormed v.
Proof.
  unfold NewVersion.
  destruct (splitOff s "+") as [s1 metadata].
  pose proof (splitOff_lacks s1 "-") as Hminus.
  destruct (splitOff s1 "-") as [s2 preRelease]. simpl in Hminus.
  pose proof (SplitN_parts _ s2 "." 3 Hminus) as Hparts.
  destruct (SplitN s2 "." 3) as [|a [|b [|c [|? ?]]]]; try done.
  destruct (validateIdentifier preRelease) eqn:Hpre; [|done].
  destruct (validateIdentifier metadata) eqn:Hmeta; [|done]. simpl.
  apply Forall_cons in Hparts as [Ha Hparts].
  apply Forall_cons in Hparts as [Hb Hparts].
  apply Forall_cons in Hparts as [Hc _].
  destruct (ParseInt a) as [major|] eqn:HM; [|done].
  destruct (ParseInt b) as [minor|] eqn:Hm; [|done].
  destruct (ParseInt c) as [patch|] eqn:Hp; [|done].
  intros [= <-]. unfold wellFormed. simpl.
  pose proof (ParseInt_range a _ Ha HM). pose proof (ParseInt_range b _ Hb Hm).
  pose proof (ParseInt_range c _ Hc Hp). repeat split; (done || lia).
Qed.

Lemma String_inj v1 v2 :
  wellFormed v1 -> wellFormed v2 -> String_ v1 = String_ v2 -> v1 = v2.
Proof.
  intros H1%NewVersion_String H2%NewVersion_String Heq.
  rewrite Heq in H1. congruence.
Qed.

Lemma lacks_slash_String v : wellFormed v -> lacks "/" (String_ v) = true.
Proof.
  intros (HM & Hm & Hp & Hpre & Hmeta).
  destruct (decimal_digits (Major v)) as [HdM _]; [lia|].
  destruct (decimal_digits (Minor v)) as [Hdm _]; [lia|].
  destruct (decimal_digits (Patch v)) as [Hdp _]; [lia|].
  pose proof (validateIdentifier_lacks "/" _ eq_refl eq_refl Hpre) as Hlpre.
  pose proof (validateIdentifier_lacks "/" _ eq_refl eq_refl Hmeta) as Hlmeta.
  unfold String_. rewrite !lacks_app.
  rewrite (isDigit_lacks "/" _ eq_refl HdM), (isDigit_lacks "/" _ eq_refl Hdm),
    (isDigit_lacks "/" _ eq_refl Hdp).
  destruct (String.eqb (PreRelease v) ""), (String.eqb (Metadata v) "");
    rewrite ?lacks_app, ?Hlpre, ?Hlmeta; done.
Qed.

Lemma isDigit_printable c : isDigit c = true -> printable c = true.
Proof. destruct c as [[] [] [] [] [] [] [] []]; done. Qed.

Lemma isIdentChar_printable c : isIdentChar c || Ascii.eqb c "." = true -> printable c = true.
Proof. destruct c as [[] [] [] [] [] [] [] []]; done. Qed.

(** What [String] prints is a word. *)
Lemma String_plain v : wellFormed v -> plain (String_ v) = true.
Proof.
  intros (HM & Hm & Hp & Hpre & Hmeta).
  destruct (decimal_digits (Major v)) as [HdM _]; [lia|].
  destruct (decimal_digits (Minor v)) as [Hdm _]; [lia|].
  destruct (decimal_digits (Patch v)) as [Hdp _]; [lia|].
  apply (allChars_impl _ _ _ isDigit_printable) in HdM, Hdm, Hdp.
  apply validateIdentifier_chars, (allChars_impl _ _ _ isIdentChar_printable) in Hpre, Hmeta.
  unfold plain, String_. rewrite !allChars_app, HdM, Hdm, Hdp.
  destruct (String.eqb (PreRelease v) ""), (String.eqb (Metadata v) "");
    rewrite ?allChars_app, ?Hpre, ?Hmeta; done.
Qed.

(** What [String] prints is a name of a directory entry. *)
Lemma String_isName v : wellFormed v -> isName (String_ v) = true.
Proof.
  intros Hv. pose proof (lacks_slash_String v Hv) as Hl.
  destruct Hv as (HM & _). destruct (decimal_digits (Major v)) as [Hd Hne]; [lia|].
  unfold isName. fold (lacks "/" (String_ v)). rewrite Hl.
  unfold String_ in *. destruct (decimal (Major v)) as [|c d]; [done|].
  simpl in Hd. apply andb_true_iff in Hd as [Hc _].
  cbn [String.append]. destruct c as [[] [] [] [] [] [] [] []]; done.
Qed.

Lemma String_nonempty v : wellFormed v -> String_ v <> "".
Proof.
  intros (HM & _). destruct (decimal_digits (Major v)) as [_ Hne]; [lia|].
  unfold String_. by destruct (decimal (Major v)).
Qed.

End semver_facts.

(** ** Release tags *)

(** *** The names of the releases *)

Section release_names.
Import strings semver.
#[local] Arguments String.append !_ _ / : simpl nomatch.
#[local] Arguments Ascii.eqb !_ !_ / : simpl nomatch.

Lemma identChar_isIdentChar c : identChar c = isIdentChar c.
Proof. destruct c as [[] [] [] [] [] [] [] []]; reflexivity. Qed.

Lemma allChars_ext (p q : Ascii.ascii -> bool) s :
  (forall c, p c = q c) -> allChars p s = allChars q s.
Proof. intros Hpq. induction s as [|c s IH]; simpl; [done|]. by rewrite Hpq, IH. Qed.

(** *** Numerals *)

Lemma uint_of_string_digits s d :
  NilEmpty.uint_of_string s = Some d -> allChars isDigit s = true.
Proof.
  revert d. induction s as [|c s IH]; intros d; [done|]. simpl.
  destruct (NilEmpty.uint_of_string s) as [d'|]; [|by destruct c as [[] [] [] [] [] [] [] []]].
  rewrite (IH d' eq_refl), andb_true_r.
  destruct c as [[] [] [] [] [] [] [] []]; simpl; done.
Qed.

Lemma digits_uint_of_string s :
  allChars isDigit s = true -> exists d, NilEmpty.uint_of_string s = Some d.
Proof.
  induction s as [|c s IH]; [by eexists|]. simpl.
  intros [Hc [d ->]%IH]%andb_true_iff.
  destruct c as [[] [] [] [] [] [] [] []]; try done; by eexists.
Qed.

Lemma numeral_spec s n :
  numeral s n <->
  s <> "" /\ allChars isDigit s = true /\ n = digitsValue 0 s /\ (n <= 2 ^ 63 - 1)%Z.
Proof.
  split.
  - intros (d & Hd & Hne & -> & Hr). split; [done|]. split; [by eapply uint_of_string_digits|].
    apply NilEmpty.sus in Hd as <-. by rewrite digitsValue_of_uint.
  - intros (Hne & Hd & -> & Hr). destruct (digits_uint_of_string s Hd) as [d Hs].
    exists d. split; [done|]. split; [done|].
    apply NilEmpty.sus in Hs as <-. by rewrite digitsValue_of_uint in *.
Qed.

Lemma sign_lacks s :
  lacks "-" s = true -> lacks "+" s = true ->
  match s with
  | String "-" r => (true, r)
  | String "+" r => (false, r)
  | _ => (false, s)
  end = (false, s).
Proof.
  unfold lacks. destruct s as [|c r]; [done|]. simpl.
  intros [H1 _]%andb_true_iff [H2 _]%andb_true_iff.
  destruct c as [[] [] [] [] [] [] [] []]; try done.
Qed.

(** [strconv.ParseInt] on a text without sign reads a numeral. *)
Lemma ParseInt_numeral s n :
  lacks "-" s = true -> lacks "+" s = true -> ParseInt s = Some n <-> numeral s n.
Proof.
  intros Hm Hp. rewrite numeral_spec. unfold ParseInt. rewrite sign_lacks by done.
  destruct (String.eqb_spec s "") as [->|Hne]; simpl; [by split; [|intros []]|].
  destruct (allChars isDigit s) eqn:Hd; simpl; [|by split; [|intros (_ & ? & _)]].
  pose proof (digitsValue_nonneg s 0 ltac:(lia)).
  destruct (Z.leb_spec (- 2 ^ 63) (digitsValue 0 s)); [|lia].
  destruct (Z.leb_spec (digitsValue 0 s) (2 ^ 63 - 1)); simpl.
  - split; [intros [= <-]; by repeat split|]. by intros (_ & _ & -> & _).
  - split; [done|]. intros (_ & _ & -> & ?). lia.
Qed.

Lemma numeral_digits s n : numeral s n -> allChars isDigit s = true /\ s <> "".
Proof. rewrite numeral_spec. by intros (? & ? & _). Qed.

Lemma numeral_lacks sep s n : isDigit sep = false -> numeral s n -> lacks sep s = true.
Proof. intros Hsep [Hd _]%numeral_digits. by apply isDigit_lacks. Qed.

(** *** Splitting, the other way round *)

Lemma SplitN_2_cases s sep :
  (lacks sep s = true /\ SplitN s sep 2 = [s]) \/
  (exists x y, s = x +:+ String sep y /\ lacks sep x = true /\ SplitN s sep 2 = [x; y]).
Proof.
  unfold lacks. induction s as [|c s IH]; [by left|].
  cbn [SplitN allChars]. destruct (Ascii.eqb_spec c sep) as [->|Hc].
  - right. exists "", s. by rewrite strings_facts.SplitN_1.
  - cbn [SplitN] in IH. destruct IH as [[Hs ->]|(x & y & -> & Hx & ->)].
    + left. simpl. by rewrite Hs.
    + right. exists (String c x), y. simpl. rewrite Hx.
      destruct (Ascii.eqb_spec c sep); done.
Qed.

Lemma splitOff_cases input delim :
  (lacks delim input = true /\ splitOff input delim = (input, "")) \/
  (exists x y, input = x +:+ String delim y /\ lacks delim x = true
               /\ splitOff input delim = (x, y)).
Proof.
  unfold splitOff. destruct (SplitN_2_cases input delim) as [[Hs ->]|(x & y & -> & Hx & ->)].
  - by left.
  - right. by exists x, y.
Qed.

Lemma SplitN_3_cases s sep a b c :
  SplitN s sep 3 = [a; b; c] ->
  s = a +:+ String sep "" +:+ b +:+ String sep "" +:+ c
  /\ lacks sep a = true /\ lacks sep b = true.
Proof.
  revert a. unfold lacks. induction s as [|ch s IH]; intros a; [done|].
  cbn [SplitN]. destruct (Ascii.eqb_spec ch sep) as [->|Hc].
  - intros [= <- Hs]. destruct (SplitN_2_cases s sep) as [[_ H2]|(x & y & -> & Hx & H2)];
      rewrite H2 in Hs; [done|]. injection Hs as <- <-. done.
  - cbn [SplitN] in IH. destruct (SplitN s sep 3) as [|x rest]; [done|].
    intros [= <- ->]. destruct (IH x eq_refl) as (-> & Hx & Hb).
    split; [done|]. simpl. rewrite Hx, Hb. by destruct (Ascii.eqb_spec ch sep).
Qed.

(** *** Identifiers *)

Lemma dotFields_lacks cur i : lacks "." i = true -> dotFields cur i = [cur +:+ i].
Proof.
  unfold lacks. revert cur. induction i as [|c i IH]; intros cur; simpl.
  - by rewrite string_app_empty_r.
  - intros [Hc Hi]%andb_true_iff. apply negb_true_iff in Hc. rewrite Hc, IH by done.
    by rewrite strings_facts.app_assoc.
Qed.

Lemma dotFields_dot cur i s :
  lacks "." i = true -> dotFields cur (i +:+ "." +:+ s) = (cur +:+ i) :: dotFields "" s.
Proof.
  unfold lacks. revert cur. induction i as [|c i IH]; intros cur; simpl.
  - by rewrite string_app_empty_r.
  - intros [Hc Hi]%andb_true_iff. apply negb_true_iff in Hc. rewrite Hc.
    cbn [String.append] in IH. rewrite IH by done. by rewrite strings_facts.app_assoc.
Qed.

Lemma identChar_lacks_dot i : allChars identChar i = true -> lacks "." i = true.
Proof.
  apply allChars_impl. intros c Hc. destruct (Ascii.eqb_spec c ".") as [->|]; done.
Qed.

Lemma identifiers_nonempty s : identifiers s -> s <> "".
Proof. destruct 1 as [i Hi _|i s Hi _ _]; [done|]. by destruct i. Qed.

Lemma identifiers_validate s : identifiers s -> validateIdentifier s = true.
Proof.
  intros Hs. unfold validateIdentifier. apply orb_true_intro. right.
  induction Hs as [i Hne Hi|i s Hne Hi Hs IH].
  - rewrite dotFields_lacks by by apply identChar_lacks_dot. simpl.
    apply String.eqb_neq in Hne. rewrite Hne. simpl.
    rewrite <- (allChars_ext _ _ _ identChar_isIdentChar). by rewrite Hi.
  - rewrite dotFields_dot by by apply identChar_lacks_dot. cbn [forallb String.append].
    apply String.eqb_neq in Hne. rewrite Hne. simpl.
    rewrite <- (allChars_ext _ _ _ identChar_isIdentChar). by rewrite Hi.
Qed.

Lemma dotFields_identifiers s : forall cur,
  forallb (fun f => negb (String.eqb f "") && allChars isIdentChar f) (dotFields cur s) = true ->
  identifiers (cur +:+ s).
Proof.
  induction s as [|c s IH]; intros cur; cbn [dotFields].
  - simpl. rewrite andb_true_r, string_app_empty_r.
    intros [Hne Hi]%andb_true_iff. apply negb_true_iff, String.eqb_neq in Hne.
    apply identifiers_one; [done|]. by rewrite (allChars_ext _ _ _ identChar_isIdentChar).
  - destruct (Ascii.eqb_spec c ".") as [->|Hc].
    + cbn [forallb]. intros [[Hne Hi]%andb_true_iff Hrest]%andb_true_iff.
      apply negb_true_iff, String.eqb_neq in Hne.
      apply (identifiers_more cur s); [done| |by apply (IH "")].
      by rewrite (allChars_ext _ _ _ identChar_isIdentChar).
    + intros H%IH. by rewrite strings_facts.app_assoc in H.
Qed.

Lemma validate_identifiers s : validateIdentifier s = true -> s = "" \/ identifiers s.
Proof.
  unfold validateIdentifier. destruct (String.eqb_spec s "") as [->|Hne]; [by left|].
  simpl. intros H. right. by apply (dotFields_identifiers s "").
Qed.

(** *** The releases that [NewVersion] reads *)

Lemma NewVersion_release a b c hyphen build M m p :
  numeral a M -> numeral b m -> numeral c p ->
  hyphen = "" \/ hyphen = "-" ->
  build = "" \/ (exists x, build = "+" +:+ x /\ (x = "" \/ identifiers x)) ->
  exists v,
    NewVersion (a +:+ "." +:+ b +:+ "." +:+ c +:+ hyphen +:+ build) = Some v /\
    Major v = M /\ Minor v = m /\ Patch v = p /\ PreRelease v = "".
Proof.
  intros Ha Hb Hc Hh Hbuild.
  set (numbers := a +:+ "." +:+ b +:+ "." +:+ c).
  assert (Hs : a +:+ "." +:+ b +:+ "." +:+ c +:+ hyphen +:+ build
               = (numbers +:+ hyphen) +:+ build).
  { unfold numbers. by rewrite !strings_facts.app_assoc. }
  assert (Hnum : forall sep, isDigit sep = false -> Ascii.eqb "." sep = false ->
                             lacks sep numbers = true).
  { intros sep Hsep Hdot. unfold numbers. rewrite !lacks_app.
    rewrite (numeral_lacks sep _ _ Hsep Ha), (numeral_lacks sep _ _ Hsep Hb),
      (numeral_lacks sep _ _ Hsep Hc).
    unfold lacks. simpl. by rewrite Hdot. }
  assert (Hplus : lacks "+" (numbers +:+ hyphen) = true).
  { rewrite lacks_app, Hnum by done. by destruct Hh as [-> | ->]. }
  assert (H1 : exists meta, splitOff ((numbers +:+ hyphen) +:+ build) "+"
                            = (numbers +:+ hyphen, meta)
                            /\ validateIdentifier meta = true).
  { destruct Hbuild as [->|(x & -> & Hx)].
    - exists "". rewrite string_app_empty_r. unfold splitOff. by rewrite SplitN_lacks.
    - exists x. cbn [String.append]. split; [by apply splitOff_sep|].
      destruct Hx as [->|Hx]; [done|]. by apply identifiers_validate. }
  destruct H1 as (meta & H1 & Hmeta).
  assert (H2 : splitOff (numbers +:+ hyphen) "-" = (numbers, "")).
  { destruct Hh as [-> | ->].
    - rewrite string_app_empty_r. unfold splitOff. rewrite SplitN_lacks; [done|]. by apply Hnum.
    - apply splitOff_sep. by apply Hnum. }
  assert (H3 : SplitN numbers "." 3 = [a; b; c]).
  { unfold numbers. cbn [String.append].
    rewrite SplitN_sep by by eapply numeral_lacks.
    rewrite SplitN_sep by by eapply numeral_lacks. by rewrite strings_facts.SplitN_1. }
  assert (HM : ParseInt a = Some M) by by apply ParseInt_numeral; [eapply numeral_lacks..|].
  assert (Hm' : ParseInt b = Some m) by by apply ParseInt_numeral; [eapply numeral_lacks..|].
  assert (Hp' : ParseInt c = Some p) by by apply ParseInt_numeral; [eapply numeral_lacks..|].
  eexists. rewrite Hs. unfold NewVersion. rewrite H1, H2, H3, Hmeta, HM, Hm', Hp'. simpl.
  split; [reflexivity|]. done.
Qed.

Lemma lacks_prefix sep x y : lacks sep (x +:+ y) = true -> lacks sep x = true.
Proof. rewrite lacks_app. by intros [? _]%andb_true_iff. Qed.

Ltac flatten_app := repeat (rewrite ?strings_facts.app_assoc; cbn [String.append]).

Lemma NewVersion_release_inv s v :
  NewVersion s = Some v -> PreRelease v = "" ->
  exists a b c hyphen build,
    s = a +:+ "." +:+ b +:+ "." +:+ c +:+ hyphen +:+ build /\
    numeral a (Major v) /\ numeral b (Minor v) /\ numeral c (Patch v) /\
    (hyphen = "" \/ hyphen = "-") /\
    (build = "" \/ exists m, build = "+" +:+ m /\ (m = "" \/ identifiers m)).
Proof.
  unfold NewVersion.
  destruct (splitOff_cases s "+") as [[Hplus ->]|(s1 & meta & -> & Hplus & ->)].
  - (* no build metadata *)
    destruct (splitOff_cases s "-") as [[Hminus ->]|(s2 & pre & -> & Hminus & ->)].
    + destruct (SplitN s "." 3) as [|a [|b [|c [|? ?]]]] eqn:H3; try done.
      apply SplitN_3_cases in H3 as (-> & Hla & Hlb). simpl.
      destruct (ParseInt a) as [M|] eqn:HM; [|done].
      destruct (ParseInt b) as [m|] eqn:Hm; [|done].
      destruct (ParseInt c) as [p|] eqn:Hp; [|done].
      intros [= <-] _. simpl. exists a, b, c, "", "".
      rewrite !lacks_app in Hplus, Hminus. simpl in Hplus, Hminus.
      rewrite !andb_true_iff in Hplus, Hminus.
      split; [flatten_app; by rewrite !string_app_empty_r|].
      split; [apply ParseInt_numeral; tauto|].
      split; [apply ParseInt_numeral; tauto|].
      split; [apply ParseInt_numeral; tauto|]. auto.
    + destruct (SplitN s2 "." 3) as [|a [|b [|c [|? ?]]]] eqn:H3; try done.
      apply SplitN_3_cases in H3 as (-> & Hla & Hlb).
      destruct (validateIdentifier pre); [|done]. simpl.
      destruct (ParseInt a) as [M|] eqn:HM; [|done].
      destruct (ParseInt b) as [m|] eqn:Hm; [|done].
      destruct (ParseInt c) as [p|] eqn:Hp; [|done].
      intros [= <-]. simpl. intros ->. exists a, b, c, "-", "".
      apply lacks_prefix in Hplus.
      rewrite !lacks_app in Hplus, Hminus. simpl in Hplus, Hminus.
      rewrite !andb_true_iff in Hplus, Hminus.
      split; [by flatten_app|].
      split; [apply ParseInt_numeral; tauto|].
      split; [apply ParseInt_numeral; tauto|].
      split; [apply ParseInt_numeral; tauto|]. auto.
  - destruct (splitOff_cases s1 "-") as [[Hminus ->]|(s2 & pre & -> & Hminus & ->)].
    + destruct (SplitN s1 "." 3) as [|a [|b [|c [|? ?]]]] eqn:H3; try done.
      apply SplitN_3_cases in H3 as (-> & Hla & Hlb). simpl.
      destruct (validateIdentifier meta) eqn:Hmeta; [|done]. simpl.
      destruct (ParseInt a) as [M|] eqn:HM; [|done].
      destruct (ParseInt b) as [m|] eqn:Hm; [|done].
      destruct (ParseInt c) as [p|] eqn:Hp; [|done].
      intros [= <-] _. simpl. exists a, b, c, "", ("+" +:+ meta).
      rewrite !lacks_app in Hplus, Hminus. simpl in Hplus, Hminus.
      rewrite !andb_true_iff in Hplus, Hminus.
      split; [by flatten_app|].
      split; [apply ParseInt_numeral; tauto|].
      split; [apply ParseInt_numeral; tauto|].
      split; [apply ParseInt_numeral; tauto|].
      split; [by left|]. right. exists meta. split; [done|]. by apply validate_identifiers.
    + destruct (SplitN s2 "." 3) as [|a [|b [|c [|? ?]]]] eqn:H3; try done.
      apply SplitN_3_cases in H3 as (-> & Hla & Hlb).
      destruct (validateIdentifier pre); [|done].
      destruct (validateIdentifier meta) eqn:Hmeta; [|done]. simpl.
      destruct (ParseInt a) as [M|] eqn:HM; [|done].
      destruct (ParseInt b) as [m|] eqn:Hm; [|done].
      destruct (ParseInt c) as [p|] eqn:Hp; [|done].
      intros [= <-]. simpl. intros ->. exists a, b, c, "-", ("+" +:+ meta).
      apply lacks_prefix in Hplus.
      rewrite !lacks_app in Hplus, Hminus. simpl in Hplus, Hminus.
      rewrite !andb_true_iff in Hplus, Hminus.
      split; [by flatten_app|].
      split; [apply ParseInt_numeral; tauto|].
      split; [apply ParseInt_numeral; tauto|].
      split; [apply ParseInt_numeral; tauto|].
      split; [by right|]. right. exists meta. split; [done|]. by apply validate_identifiers.
Qed.

Lemma NewVersion_pre s v :
  NewVersion s = Some v -> PreRelease v = (splitOff (splitOff s "+").1 "-").2.
Proof.
  unfold NewVersion. destruct (splitOff s "+") as [s1 meta]. simpl.
  destruct (splitOff s1 "-") as [s2 pre]. simpl.
  destruct (SplitN s2 "." 3) as [|a [|b [|c [|? ?]]]]; try done.
  destruct (negb (validateIdentifier pre)); [done|].
  destruct (negb (validateIdentifier meta)); [done|].
  destruct (ParseInt a), (ParseInt b), (ParseInt c); try done. by intros [= <-].
Qed.

Lemma app_sep_prefix sep q : forall x y t,
  x +:+ String sep y = q +:+ t -> lacks sep q = true -> exists x', x = q +:+ x'.
Proof.
  unfold lacks. induction q as [|c q IH]; intros x y t Heq Hq; [by exists x|].
  simpl in Hq. apply andb_true_iff in Hq as [Hc Hq].
  destruct x as [|c' x]; simpl in Heq.
  - injection Heq as -> _. by rewrite Ascii.eqb_refl in Hc.
  - injection Heq as -> Heq. destruct (IH _ _ _ Heq Hq) as [x' ->]. by exists x'.
Qed.

(** A version with something other than a plus sign after a hyphen has a
    pre-release, if it is a version at all. *)
Lemma NewVersion_hyphen a b c ch rest M m p v :
  numeral a M -> numeral b m -> numeral c p -> ch <> "+"%char ->
  NewVersion (a +:+ "." +:+ b +:+ "." +:+ c +:+ "-" +:+ String ch rest) = Some v ->
  PreRelease v <> "".
Proof.
  intros Ha Hb Hc Hch Hv. rewrite (NewVersion_pre _ _ Hv).
  set (numbers := a +:+ "." +:+ b +:+ "." +:+ c).
  assert (Hs : a +:+ "." +:+ b +:+ "." +:+ c +:+ "-" +:+ String ch rest
               = (numbers +:+ String "-" (String ch "")) +:+ rest).
  { unfold numbers. by flatten_app. }
  assert (Hnum : forall sep, isDigit sep = false -> Ascii.eqb "." sep = false ->
                             lacks sep numbers = true).
  { intros sep Hsep Hdot. unfold numbers. rewrite !lacks_app.
    rewrite (numeral_lacks sep _ _ Hsep Ha), (numeral_lacks sep _ _ Hsep Hb),
      (numeral_lacks sep _ _ Hsep Hc).
    unfold lacks. simpl. by rewrite Hdot. }
  assert (Hq : lacks "+" (numbers +:+ String "-" (String ch "")) = true).
  { rewrite lacks_app, Hnum by done. unfold lacks. simpl.
    by destruct (Ascii.eqb_spec ch "+"). }
  rewrite Hs.
  assert (Hx : exists x', (splitOff ((numbers +:+ String "-" (String ch "")) +:+ rest) "+").1
                          = numbers +:+ String "-" (String ch x')).
  { destruct (splitOff_cases ((numbers +:+ String "-" (String ch "")) +:+ rest) "+")
      as [[_ ->]|(x & y & Heq & _ & ->)]; simpl.
    - exists rest. by flatten_app.
    - symmetry in Heq. destruct (app_sep_prefix _ _ _ _ _ Heq Hq) as [x' ->].
      exists x'. by flatten_app. }
  destruct Hx as [x' ->]. rewrite splitOff_sep by by apply Hnum. done.
Qed.

(** *** Short names *)

Lemma spaceWidth_printable c s : printable c = true -> spaceWidth (String c s) = 0.
Proof.
  intros Hc.
  destruct c as [[] [] [] [] [] [] [] []]; try discriminate Hc;
    destruct s as [|c1 [|c2 s2]]; reflexivity.
Qed.

Lemma token_plain s : plain s = true -> token s = s.
Proof.
  unfold plain. induction s as [|c s IH]; [done|]. cbn [allChars token].
  intros [Hc Hs]%andb_true_iff. rewrite spaceWidth_printable by done. by rewrite IH.
Qed.

Lemma skipSpace_plain n c s : printable c = true -> skipSpace n (String c s) = Some (String c s).
Proof. intros Hc. destruct n; [done|]. cbn [skipSpace]. by rewrite spaceWidth_printable. Qed.

Lemma scanWord_plain prefix word :
  word <> "" -> plain word = true -> scanWord (prefix +:+ word) prefix = Some word.
Proof.
  intros Hne Hw. unfold scanWord.
  rewrite strings_facts.HasPrefix_app_self, strings_facts.drop_app_length.
  destruct word as [|c w]; [done|].
  rewrite skipSpace_plain by (unfold plain in Hw; simpl in Hw; by apply andb_true_iff in Hw as [? _]).
  simpl String.eqb. cbv iota. by rewrite token_plain.
Qed.

(** The short name of the tag [name] is [name], when that is a word. *)
Lemma Short_tag name :
  name <> "" -> plain name = true -> Short ("refs/tags/" +:+ name) = name.
Proof.
  intros Hne Hw. unfold Short. cbn [foldl].
  rewrite (scanWord_plain "refs/tags/" name Hne Hw).
  assert (scanWord ("refs/tags/" +:+ name) "refs/heads/" = None) as -> by done.
  assert (scanWord ("refs/tags/" +:+ name) "refs/remotes/" = None) as -> by done.
  done.
Qed.

Lemma Short_other c rest : c <> "r"%char -> Short (String c rest) = String c rest.
Proof.
  intros Hc. unfold Short, scanWord. cbn [foldl]. rewrite !strings_facts.HasPrefix_cons.
  by destruct (Ascii.eqb_spec "r" c) as [<-|].
Qed.

(** *** The tags that are releases *)

Lemma tagToSemver_release r v :
  tagToSemver r = Some v -> PreRelease v = "" ->
  releaseName (Short (Name r)) (Major v) (Minor v) (Patch v).
Proof.
  unfold tagToSemver, TrimPrefix.
  destruct (HasPrefix (Short (Name r)) "v") eqn:Hv; [|done]. cbn [negb].
  apply path_facts.HasPrefix_split in Hv.
  set (t := drop (String.length "v") (Short (Name r))) in *. rewrite Hv.
  intros Hn Hpre.
  destruct (NewVersion_release_inv _ _ Hn Hpre) as (a & b & c & hyphen & build & -> & H).
  exists a, b, c, hyphen, build. split; [done|]. exact H.
Qed.

Lemma release_tagToSemver r M m p :
  releaseName (Short (Name r)) M m p ->
  exists v, tagToSemver r = Some v /\ Major v = M /\ Minor v = m /\ Patch v = p
            /\ PreRelease v = "".
Proof.
  intros (a & b & c & hyphen & build & Hn & Ha & Hb & Hc & Hh & Hbuild).
  unfold tagToSemver. rewrite Hn.
  change ("v" +:+ ?x) with (String "v" x). cbn [HasPrefix]. rewrite Ascii.eqb_refl.
  cbn [negb]. unfold TrimPrefix. cbn [HasPrefix]. rewrite Ascii.eqb_refl. cbn [String.length drop].
  by apply NewVersion_release.
Qed.

Lemma isRelease_releaseName r :
  isRelease r = true <-> exists M m p, releaseName (Short (Name r)) M m p.
Proof.
  unfold isRelease. split.
  - destruct (tagToSemver r) as [v|] eqn:Hv; [|done]. intros Hp%String.eqb_eq.
    eexists _, _, _. by apply tagToSemver_release.
  - intros (M & m & p & (v & -> & _ & _ & _ & ->)%release_tagToSemver). done.
Qed.

Lemma StronglySorted_mono {A} (R R' : A -> A -> Prop) l :
  (forall x y, R x y -> R' x y) -> StronglySorted R l -> StronglySorted R' l.
Proof.
  intros HR. induction 1 as [|x l Hl IH Hx]; constructor; [done|].
  eapply Forall_impl; [exact Hx|]. apply HR.
Qed.

Lemma releaseLe_nameLe r1 r2 :
  releaseLe r1 r2 -> nameLe (Short (Name r1)) (Short (Name r2)).
Proof.
  unfold releaseLe. intros Hle M1 m1 p1 M2 m2 p2.
  intros (v1 & Hv1 & <- & <- & <- & _)%release_tagToSemver.
  intros (v2 & Hv2 & <- & <- & <- & _)%release_tagToSemver.
  rewrite Hv1, Hv2 in Hle. exact Hle.
Qed.

End release_names.

Section release_tags.
Context {E : Externals}.

Lemma numLe_trans a b c : numLe a b -> numLe b c -> numLe a c.
Proof. unfold numLe. lia. Qed.

Lemma compareNumbers_Lt a b : semver.compareNumbers a b = Lt -> numLe a b.
Proof.
  unfold semver.compareNumbers, numLe.
  destruct (Z.compare_spec (semver.Major a) (semver.Major b)); try done; [|lia].
  destruct (Z.compare_spec (semver.Minor a) (semver.Minor b)); try done; [|lia].
  destruct (Z.compare_spec (semver.Patch a) (semver.Patch b)); try done; lia.
Qed.

Lemma compareNumbers_not_Lt a b : semver.compareNumbers a b <> Lt -> numLe b a.
Proof.
  unfold semver.compareNumbers, numLe.
  destruct (Z.compare_spec (semver.Major a) (semver.Major b)); try done; [|lia].
  destruct (Z.compare_spec (semver.Minor a) (semver.Minor b)); try done; [|lia].
  destruct (Z.compare_spec (semver.Patch a) (semver.Patch b)); try done; lia.
Qed.

(** Without pre-releases, [LessThan] is the strict order of the numbers. *)
Lemma LessThan_release a b :
  semver.PreRelease a = "" -> semver.PreRelease b = "" ->
  semver.LessThan a b = true <-> semver.compareNumbers a b = Lt.
Proof.
  intros Ha Hb. unfold semver.LessThan, semver.Compare, semver.preReleaseCompare.
  rewrite Ha, Hb. simpl. by destruct (semver.compareNumbers a b).
Qed.

Section sort.
Context {A : Type} (deref : A -> semver.Version).

Lemma insert_Permutation x l : semver.insert deref x l ≡ₚ x :: l.
Proof.
  induction l as [|y l IH]; simpl; [done|].
  destruct (semver.LessThan _ _); [|done].
  rewrite IH. apply Permutation_swap.
Qed.

Lemma Sort_Permutation l : semver.Sort deref l ≡ₚ l.
Proof.
  induction l as [|x l IH]; simpl; [done|].
  unfold semver.Sort in *. simpl. by rewrite insert_Permutation, IH.
Qed.

Local Abbreviation le := (leBy deref).
Local Abbreviation release := (releaseBy deref).

Lemma insert_sorted x l :
  release x -> Forall release l ->
  StronglySorted le l -> StronglySorted le (semver.insert deref x l).
Proof.
  intros Hx Hl Hs. induction Hs as [|y l Hs IH Hy]; simpl.
  - by repeat constructor.
  - apply Forall_cons in Hl as [Hry Hl].
    destruct (semver.LessThan (deref y) (deref x)) eqn:Hlt.
    + apply LessThan_release in Hlt; [|done..]. apply compareNumbers_Lt in Hlt.
      constructor; [by apply IH|].
      rewrite insert_Permutation. by constructor.
    + assert (Hxy : le x y).
      { apply compareNumbers_not_Lt. intros Hc.
        apply LessThan_release in Hc; [|done..]. congruence. }
      constructor; [by constructor|]. constructor; [done|].
      eapply Forall_impl; [exact Hy|]. intros z Hz. by eapply numLe_trans.
Qed.

(** On versions without pre-release, [semver.Sort] sorts by the numbers. *)
Lemma Sort_sorted l : Forall release l -> StronglySorted le (semver.Sort deref l).
Proof.
  induction l as [|x l IH]; intros Hl; [constructor|].
  apply Forall_cons in Hl as [Hx Hl]. unfold semver.Sort in *. simpl.
  apply insert_sorted; [done| |by apply IH].
  fold (semver.Sort deref l). by rewrite Sort_Permutation.
Qed.

End sort.

Lemma releaseEntry_cases (r : Reference) :
  let entry :=
    match tagToSemver r with
    | None => None
    | Some ver =>
        if negb (String.eqb (semver.PreRelease ver) "") then None else Some (ver, r)
    end in
  (isRelease r = true /\
   exists ver, tagToSemver r = Some ver /\ semver.PreRelease ver = "" /\ entry = Some (ver, r))
  \/ (isRelease r = false /\ entry = None).
Proof.
  unfold isRelease. destruct (tagToSemver r) as [ver|]; simpl; [|by right].
  destruct (String.eqb_spec (semver.PreRelease ver) ""); simpl; [|by right].
  left. split; [done|]. by exists ver.
Qed.

Lemma releaseEntries_spec tags :
  (releaseEntries tags).*2 = filter (fun r => isRelease r = true) tags /\
  Forall (fun e => tagToSemver e.2 = Some e.1 /\ semver.PreRelease e.1 = "")
         (releaseEntries tags).
Proof.
  unfold releaseEntries. induction tags as [|r tags [IH1 IH2]]; [by split|].
  rewrite filter_cons. simpl.
  destruct (releaseEntry_cases r) as [[Hr (ver & Hv & Hp & ->)]|[Hr ->]]; rewrite Hr.
  - rewrite decide_True by done. simpl. split; [by f_equal|]. by constructor.
  - by rewrite decide_False by done.
Qed.

Lemma StronglySorted_entries (l : list (semver.Version * Reference)) :
  Forall (fun e => tagToSemver e.2 = Some e.1 /\ semver.PreRelease e.1 = "") l ->
  StronglySorted (fun a b => numLe a.1 b.1) l ->
  StronglySorted releaseLe l.*2.
Proof.
  intros Hl Hs. induction Hs as [|e l Hs IH He]; [constructor|].
  apply Forall_cons in Hl as [[Hte _] Hl]. simpl.
  constructor; [by apply IH|].
  apply Forall_fmap. rewrite Forall_forall in He, Hl |- *. intros e' He'.
  simpl. unfold releaseLe. rewrite Hte. destruct (Hl e' He') as [-> _]. by apply He.
Qed.

(** What [GetReleaseTags] returns, whatever the order of the map. *)
Lemma GetReleaseTags_spec (g : GitRepository) (tags : list Reference) :
  repo_Tags g = inr tags ->
  exists out,
    GetReleaseTags g = inr out /\
    out ≡ₚ filter (fun r => isRelease r = true) tags /\
    StronglySorted releaseLe out.
Proof.
  intros Ht. unfold GetReleaseTags. rewrite Ht. eexists. split; [done|].
  destruct (releaseEntries_spec tags) as [H1 H2].
  assert (Hperm : semver.Sort fst (rangeOrder _ (releaseEntries tags))
                  ≡ₚ releaseEntries tags).
  { by rewrite Sort_Permutation, rangeOrder_Permutation. }
  split.
  - rewrite <- H1. by apply fmap_Permutation.
  - apply StronglySorted_entries.
    + by rewrite Hperm.
    + apply Sort_sorted. rewrite rangeOrder_Permutation.
      eapply Forall_impl; [exact H2|]. by intros e [_ ?].
Qed.

End release_tags.

Section release_tags_claim.
Context {E : Externals}.

Lemma tagToSemver_tag name hash :
  tagToSemver (tag name hash) = tagToSemver (HashReference ("refs/tags/" +:+ name) "").
Proof. done. Qed.

Ltac eval_tags :=
  repeat match goal with
  | |- context [tagToSemver (HashReference ?n ?h)] =>
      let v := eval vm_compute in (tagToSemver (HashReference n h)) in
      change (tagToSemver (HashReference n h)) with v
  end.

(** C5.  Without an explicit reference, the tags returned are exactly the
    tags whose short name is [v] followed by a semantic version that has no
    pre-release: three numerals separated by dots, then, if anything, a
    hyphen with nothing after it and a plus sign with build metadata.  A
    name that does not begin with [v] is discarded, and so is a name with
    something after the hyphen.  Each of the others comes once, in
    ascending order of the major, minor and patch numbers that its name
    shows.  The short name of a tag is its name, when that is a word.  The
    tags v1.2.0, v1.10.0, v2.0.0-beta1, v1.3.0 give v1.2.0, v1.3.0,
    v1.10.0, whatever the order in which the map is ranged over. *)
Theorem release_tags_sorted (g : GitRepository) (tags : list Reference) :
  repo_Tags g = inr tags ->
  exists out,
    GetReleaseTags g = inr out /\
    (forall r, r ∈ out <->
               r ∈ tags /\
               exists major minor patch, releaseName (Short (Name r)) major minor patch) /\
    (forall r, strings.HasPrefix (Short (Name r)) "v" = false -> r ∉ out) /\
    (forall r a b c ch rest major minor patch,
        Short (Name r)
        = "v" +:+ a +:+ "." +:+ b +:+ "." +:+ c +:+ "-" +:+ String ch rest ->
        numeral a major -> numeral b minor -> numeral c patch -> ch <> "+"%char ->
        r ∉ out) /\
    (forall name hash,
        name <> "" -> plain name = true -> Short (Name (tag name hash)) = name) /\
    (forall r, r ∈ out <->
               r ∈ tags /\
               exists ver, tagToSemver r = Some ver /\ semver.PreRelease ver = "") /\
    out ≡ₚ filter (fun r => isRelease r = true) tags /\
    StronglySorted (fun r1 r2 => nameLe (Short (Name r1)) (Short (Name r2))) out /\
    StronglySorted releaseLe out /\
    (forall h1 h2 h3 h4,
        tags = [tag "v1.2.0" h1; tag "v1.10.0" h2; tag "v2.0.0-beta1" h3; tag "v1.3.0" h4] ->
        out = [tag "v1.2.0" h1; tag "v1.3.0" h4; tag "v1.10.0" h2]).
Proof.
  intros Ht. destruct (GetReleaseTags_spec g tags Ht) as (out & Hout & Hperm & Hsorted).
  assert (Hin : forall r, r ∈ out <-> r ∈ tags /\ isRelease r = true).
  { intros r. rewrite Hperm, list_elem_of_filter. tauto. }
  exists out. split_and!; try done.
  - intros r. rewrite Hin, isRelease_releaseName. tauto.
  - intros r Hv [_ Hr]%Hin. unfold isRelease, tagToSemver in Hr. by rewrite Hv in Hr.
  - intros r a b c ch rest major minor patch Hn Ha Hb Hc Hch [_ Hr]%Hin.
    unfold isRelease in Hr. destruct (tagToSemver r) as [v|] eqn:Hv; [|done].
    apply String.eqb_eq in Hr. revert Hr.
    unfold tagToSemver in Hv. rewrite Hn in Hv.
    change ("v" +:+ ?x) with (String "v" x) in Hv. unfold strings.TrimPrefix in Hv.
    cbn [strings.HasPrefix] in Hv. rewrite Ascii.eqb_refl in Hv.
    cbn [negb String.length strings.drop] in Hv.
    exact (NewVersion_hyphen a b c ch rest _ _ _ v Ha Hb Hc Hch Hv).
  - intros name hash Hne Hplain. by apply Short_tag.
  - intros r. rewrite Hin. unfold isRelease.
    split.
    + intros [Hr Hrel]. split; [done|].
      destruct (tagToSemver r) as [ver|]; [|done]. exists ver. split; [done|].
      by apply String.eqb_eq.
    + intros [Hr (ver & -> & ->)]. done.
  - eapply StronglySorted_mono; [|exact Hsorted]. apply releaseLe_nameLe.
  - intros h1 h2 h3 h4 ->.
    assert (Hf : filter (fun r => isRelease r = true)
                   [tag "v1.2.0" h1; tag "v1.10.0" h2; tag "v2.0.0-beta1" h3; tag "v1.3.0" h4]
                 = [tag "v1.2.0" h1; tag "v1.10.0" h2; tag "v1.3.0" h4]).
    { rewrite !filter_cons, filter_nil. unfold isRelease. rewrite !tagToSemver_tag.
      reflexivity. }
    rewrite Hf in Hperm. symmetry.
    apply (StronglySorted_unique_strong releaseLe); [| |done|].
    + intros x1 x2 Hx1 Hx2. unfold releaseLe. rewrite Hperm in Hx2.
      rewrite !elem_of_cons, elem_of_nil in Hx1, Hx2.
      destruct Hx1 as [->|[->|[->|[]]]], Hx2 as [->|[->|[->|[]]]];
        rewrite ?tagToSemver_tag; eval_tags; unfold numLe; simpl; intros; try done; lia.
    + repeat constructor; unfold releaseLe; rewrite !tagToSemver_tag; eval_tags;
        unfold numLe; simpl; lia.
    + rewrite Hperm. apply Permutation_skip, Permutation_swap.
Qed.

End release_tags_claim.

(** A repository with the four tags of the scenario. *)
Lemma release_tags_sorted_witness :
  GetReleaseTags (E:=sample.externals)
    {| repo_ResolveRevision := fun _ => inl "unknown revision";
       repo_References := inr [];
       repo_Tags := inr [tag "v1.2.0" "a1"; tag "v1.10.0" "b2";
                         tag "v2.0.0-beta1" "c3"; tag "v1.3.0" "d4"];
       repo_Checkout := fun _ => inl "not checked out" |}
  = inr [tag "v1.2.0" "a1"; tag "v1.3.0" "d4"; tag "v1.10.0" "b2"].
Proof.
  destruct (@release_tags_sorted sample.externals
              {| repo_ResolveRevision := fun _ => inl "unknown revision";
                 repo_References := inr [];
                 repo_Tags := inr [tag "v1.2.0" "a1"; tag "v1.10.0" "b2";
                                   tag "v2.0.0-beta1" "c3"; tag "v1.3.0" "d4"];
                 repo_Checkout := fun _ => inl "not checked out" |}
              _ eq_refl) as (out & Hout & _ & _ & _ & _ & _ & _ & _ & _ & Hex).
  rewrite Hout. f_equal. by apply (Hex "a1" "b2" "c3" "d4").
Defined.

(** ** An explicit reference *)

Section explicit_ref.
Context {E : Externals} {F : Flags}.

Lemma decimal_head (n : Z) :
  exists c rest, semver.decimal n = String c rest /\ c <> "r"%char /\ c <> "v"%char.
Proof.
  unfold semver.decimal. destruct (Z.to_int n) as [d|d]; simpl.
  - destruct d; simpl; eexists _, _; (split; [reflexivity|done]).
  - eexists _, _. split; [reflexivity|done].
Qed.

Lemma String_head (v : semver.Version) :
  exists c rest, semver.String_ v = String c rest /\ c <> "r"%char /\ c <> "v"%char.
Proof.
  unfold semver.String_. destruct (decimal_head (semver.Major v)) as (c & rest & -> & Hc).
  by eexists _, _.
Qed.

Lemma tagToSemver_head (ref : Reference) (v : semver.Version) :
  tagToSemver ref = Some v ->
  exists c rest, Name ref = String c rest /\ (c = "r"%char \/ c = "v"%char).
Proof.
  unfold tagToSemver.
  destruct (strings.HasPrefix (Short (Name ref)) "v") eqn:Hv; [|done]. intros _.
  destruct (Name ref) as [|c rest]; [done|]. exists c, rest. split; [done|].
  destruct (Ascii.eqb_spec c "r") as [|Hr]; [by left|]. right.
  assert (Hs : Short (String c rest) = String c rest) by by apply Short_other.
  rewrite Hs, strings_facts.HasPrefix_cons in Hv.
  by destruct (Ascii.eqb_spec "v" c).
Qed.

(** C6, amended.  With an explicit reference that resolves, the list
    has exactly one entry, named by the literal reference.  Its version
    label is the literal reference when the short name of the reference is
    not [v] followed by a semantic version; when it is, the label is the
    rendering of that version, which is never the literal reference. *)
Theorem explicit_ref_label (git : GitRepository) (hash : Reference) :
  gitRef <> "" ->
  ResolveReference git gitRef = inr hash ->
  exists ref,
    gitRefs git = inr [ref] /\
    Name ref = gitRef /\
    (tagToSemver ref = None -> versionOf ref = gitRef) /\
    (forall v, tagToSemver ref = Some v ->
               versionOf ref = semver.String_ v /\ versionOf ref <> gitRef).
Proof.
  intros Hne Hres. unfold gitRefs. rewrite Hres.
  apply String.eqb_neq in Hne. rewrite Hne. simpl.
  eexists. split; [reflexivity|].
  set (ref := NewReferenceFromStrings gitRef (Reference_String hash)).
  assert (Hname : Name ref = gitRef).
  { unfold ref, NewReferenceFromStrings. by destruct (strings.HasPrefix _ _). }
  split; [done|]. unfold versionOf. split.
  - by intros ->.
  - intros v Hv. rewrite Hv. split; [done|].
    destruct (tagToSemver_head ref v Hv) as (c & rest & Hc & Hrv).
    destruct (String_head v) as (c' & rest' & -> & Hr & Hv').
    rewrite <- Hname, Hc. intros [= -> _]. by destruct Hrv.
Qed.

End explicit_ref.

(** C6 on the branch [main]: the label is the literal reference. *)
Lemma explicit_ref_label_witness :
  exists ref,
    gitRefs (E:=sample.externals) (F:=sample.flagsFor "main") sample.repository = inr [ref] /\
    Name ref = "main" /\
    versionOf ref = "main".
Proof.
  destruct (@explicit_ref_label sample.externals (sample.flagsFor "main") sample.repository
              (HashReference "refs/heads/main" "5f0c1a")
              ltac:(discriminate) eq_refl) as (ref & Hrefs & Hname & Hlit & _).
  exists ref. split; [exact Hrefs|]. split; [exact Hname|].
  apply Hlit. vm_compute in Hrefs. injection Hrefs as <-. reflexivity.
Defined.

(** C6, as stated, fails: the reference [v1.2.0] is labelled [1.2.0]. *)
Lemma explicit_ref_label_counterexample :
  exists ref,
    gitRefs (E:=sample.externals) (F:=sample.flagsFor "v1.2.0") sample.repository
    = inr [ref] /\
    Name ref = "v1.2.0" /\
    versionOf ref = "1.2.0" /\
    versionOf ref <> gitRef (Flags:=sample.flagsFor "v1.2.0").
Proof. eexists. split; [vm_compute; reflexivity|]. by vm_compute. Qed.

(** ** Writing the schemas of a version *)

Section write_facts.
Context {E : Externals} {F : Flags}.

(** C7.  When the decoded file has no [spec] key, or a [spec] that is not
    an object, the conversion fails at the look-up of [spec], before
    [patchSchema] is reached: it fails in the same way whatever the flags
    that configure the patching are; [writeSchema] reports the failure with
    the quoted relative path of the file, and writes nothing. *)
Theorem spec_key_error (relPath r destDir version : string)
    (fs : gmap string string) (m : gmap string any) :
  yaml_Decode r = inr m ->
  (forall spec, m !! "spec" <> Some (AMap spec)) ->
  exists cause,
    specOf m = inl cause /\
    (m !! "spec" = None -> cause = "spec key not found in YAML") /\
    (forall v, m !! "spec" = Some v ->
               cause = "spec is not an object, got " +:+ typeName v) /\
    (forall flags : Flags,
        convertSpecYAMLToJSONSchema (F:=flags) relPath r version = inl cause) /\
    writeSchema relPath r destDir version fs
    = (fs, Some ("failed converting spec.yml file to JSON schema for "
                 +:+ Quote relPath +:+ ": " +:+ cause)).
Proof.
  intros Hdec Hspec.
  assert (Hcause : exists cause,
             specOf m = inl cause /\
             (m !! "spec" = None -> cause = "spec key not found in YAML") /\
             (forall v, m !! "spec" = Some v ->
                        cause = "spec is not an object, got " +:+ typeName v)).
  { unfold specOf. destruct (m !! "spec") as [v|] eqn:Hv.
    - destruct v; try (eexists; split; [reflexivity|]; split; [done|];
                        by intros ? [= <-]).
      by destruct (Hspec m0).
    - eexists. split; [reflexivity|]. by split. }
  destruct Hcause as (cause & Hc & Habsent & Hother).
  exists cause. split_and!; try done.
  - intros flags. unfold convertSpecYAMLToJSONSchema. by rewrite Hdec, Hc.
  - unfold writeSchema, convertSpecYAMLToJSONSchema. by rewrite Hdec, Hc.
Qed.

Lemma within_empty dir : within dir ∅.
Proof. intros p [x Hx]. by rewrite lookup_empty in Hx. Qed.

Lemma within_insert dir W p x :
  os.below dir p = true -> within dir W -> within dir (<[p := x]> W).
Proof.
  intros Hp HW q [y Hy]. destruct (decide (p = q)) as [<-|]; [done|].
  rewrite lookup_insert_ne in Hy by done. by apply HW.
Qed.

Lemma writeSchema_union relPath r dir version (fs0 fs : gmap string string) :
  writeSchema relPath r dir version (fs0 ∪ fs)
  = ((writeSchema relPath r dir version fs0).1 ∪ fs,
     (writeSchema relPath r dir version fs0).2).
Proof.
  unfold writeSchema. destruct (convertSpecYAMLToJSONSchema _ _ _); simpl; [done|].
  unfold os.WriteFile. by rewrite insert_union_l.
Qed.

Lemma writeSchema_within relPath r dir version fs0 :
  cleaned dir -> relative relPath -> within dir fs0 ->
  within dir (writeSchema relPath r dir version fs0).1.
Proof.
  intros Hdir Hrel H0'. unfold writeSchema.
  destruct (convertSpecYAMLToJSONSchema _ _ _); simpl; [done|].
  apply within_insert; [by apply path_facts.below_Join|done].
Qed.

Lemma walkFn_union repoPath dir ver fs0 fs written entry :
  walkFn repoPath dir ver (fs0 ∪ fs, written) entry
  = (((walkFn repoPath dir ver (fs0, written) entry).1.1 ∪ fs,
      (walkFn repoPath dir ver (fs0, written) entry).1.2),
     (walkFn repoPath dir ver (fs0, written) entry).2).
Proof.
  unfold walkFn. destruct entry as [path [[content|entries]|]]; [| |done].
  - destruct (negb _); [done|].
    rewrite writeSchema_union. by destruct (writeSchema _ _ _ _ fs0).
  - by destruct (negb _).
Qed.

Lemma walkFn_within repoPath dir ver fs0 written entry :
  cleaned dir -> relative repoPath -> under repoPath entry.1 -> within dir fs0 ->
  within dir (walkFn repoPath dir ver (fs0, written) entry).1.1.
Proof.
  intros Hdir Hroot Hunder H0'. unfold walkFn.
  destruct entry as [path [[content|entries]|]]; [| |done].
  - destruct (negb _); [done|].
    pose proof (writeSchema_within (relPathOf repoPath path) content dir ver fs0 Hdir
                  (path_facts.under_relPathOf _ _ Hroot Hunder) H0') as Hw.
    unfold relPathOf in Hw. by destruct (writeSchema _ _ _ _ fs0).
  - by destruct (negb _).
Qed.

Lemma walk_union repoPath dir ver entries fs0 fs written :
  walk (walkFn repoPath dir ver) entries (fs0 ∪ fs, written)
  = (((walk (walkFn repoPath dir ver) entries (fs0, written)).1.1 ∪ fs,
      (walk (walkFn repoPath dir ver) entries (fs0, written)).1.2),
     (walk (walkFn repoPath dir ver) entries (fs0, written)).2).
Proof.
  revert fs0 written. induction entries as [|entry entries IH]; intros fs0 written; [done|].
  cbn [walk]. rewrite walkFn_union.
  destruct (walkFn repoPath dir ver (fs0, written) entry) as [[fs1 written1] [err|]]; simpl.
  - done.
  - apply IH.
Qed.

Lemma walk_within repoPath dir ver entries fs0 written :
  cleaned dir -> relative repoPath ->
  Forall (fun entry => under repoPath entry.1) entries -> within dir fs0 ->
  within dir (walk (walkFn repoPath dir ver) entries (fs0, written)).1.1.
Proof.
  intros Hdir Hroot Hentries. revert fs0 written.
  induction Hentries as [|entry entries Hentry _ IH]; intros fs0 written H0'; [done|].
  cbn [walk].
  pose proof (walkFn_within repoPath dir ver fs0 written entry Hdir Hroot Hentry H0') as Hw.
  destruct (walkFn repoPath dir ver (fs0, written) entry) as [[fs1 written1] [err|]]; simpl in *.
  - done.
  - by apply IH.
Qed.

(** The two places where the specifications are looked for are paths of
    names. *)
Lemma getSpecPath_cases (wt : Filesystem) repoPath :
  getSpecPath wt = inr repoPath -> repoPath = "spec" \/ repoPath = "versions/1".
Proof.
  unfold getSpecPath. rewrite !filter_cons, filter_nil.
  repeat case_decide; intros [= <-]; auto.
Qed.

Lemma getSpecPath_relative (wt : Filesystem) repoPath :
  getSpecPath wt = inr repoPath -> relative repoPath.
Proof.
  intros [->| ->]%getSpecPath_cases; unfold relative; simpl; by repeat constructor.
Qed.

Lemma Walk_entries (wt : Filesystem) repoPath :
  relative repoPath -> Forall (fun entry => under repoPath entry.1) (Walk wt repoPath).
Proof.
  intros Hrel. apply Forall_forall. intros [p x] Hin.
  eapply path_facts.Walk_under; [|exact Hin]. by apply path_facts.Clean_relative.
Qed.

Lemma lookup_RemoveAll dir (fs : gmap string string) p :
  os.RemoveAll dir fs !! p = if os.below dir p then None else fs !! p.
Proof.
  unfold os.RemoveAll. rewrite map_lookup_filter.
  destruct (fs !! p) as [x|]; simpl; [|by destruct (os.below dir p)].
  destruct (os.below dir p) eqn:Hb.
  - by rewrite option_guard_False.
  - by rewrite option_guard_True.
Qed.

Lemma RemoveAll_empty dir : os.RemoveAll dir ∅ = ∅.
Proof. apply map_filter_empty. Qed.

(** [writeSchemas] either stops before it touches the files, or leaves the
    files written in this run over what [os.RemoveAll] left of the files
    before; which files it writes, and whether it fails, does not depend on
    the files before. *)
Lemma writeSchemas_union (git : GitRepository) (ref : Reference) :
  let dir := filepath.Join [outDir; versionOf ref; "jsonschema"] in
  (exists err, forall fs, writeSchemas git ref fs = (fs, Some err)) \/
  (exists W err, within dir W /\
                 forall fs, writeSchemas git ref fs = (W ∪ os.RemoveAll dir fs, err)).
Proof.
  intros dir. unfold writeSchemas. fold dir.
  destruct (repo_Checkout git (Hash ref)) as [err|wt]; [left; by exists err|].
  destruct (getSpecPath wt) as [err|repoPath] eqn:Hspec; [left; by exists err|].
  right.
  assert (Hdir : cleaned dir) by by apply path_facts.cleaned_Join3.
  assert (Hrel : relative repoPath) by by eapply getSpecPath_relative.
  pose proof (walk_within repoPath dir (versionOf ref) (Walk wt repoPath) ∅ []
                Hdir Hrel (Walk_entries wt repoPath Hrel) (within_empty dir)) as Hw.
  pose proof (fun fs => walk_union repoPath dir (versionOf ref) (Walk wt repoPath)
                          ∅ (os.RemoveAll dir fs) []) as Hu.
  destruct (walk _ (Walk wt repoPath) (∅, [])) as [[W written] [err|]]; simpl in *.
  { exists W, (Some err). split; [done|]. intros fs.
    rewrite <- (left_id_L ∅ (∪) (os.RemoveAll dir fs)) at 1. by rewrite Hu. }
  destruct (negb (bool_decide ("manifest.jsonschema.json" ∈ written))) eqn:Hroot; simpl.
  - destruct (combinedManifestSchema written (versionOf ref)) as [err|b] eqn:Hm.
    + exists W, (Some err). split; [done|]. intros fs.
      rewrite <- (left_id_L ∅ (∪) (os.RemoveAll dir fs)) at 1. by rewrite Hu, Hroot, Hm.
    + exists (os.WriteFile (filepath.Join [dir; "manifest.jsonschema.json"]) b W), None.
      split; [apply within_insert; [|done]|].
      { apply path_facts.below_Join; [done|]. by apply path_facts.relative_name. }
      intros fs.
      rewrite <- (left_id_L ∅ (∪) (os.RemoveAll dir fs)) at 1. rewrite Hu, Hroot, Hm.
      unfold os.WriteFile. by rewrite insert_union_l.
  - exists W, None. split; [done|]. intros fs.
    rewrite <- (left_id_L ∅ (∪) (os.RemoveAll dir fs)) at 1. by rewrite Hu, Hroot.
Qed.

(** C10.  After a successful [writeSchemas], a path outside the
    [jsonschema] directory of the version holds what it held before, and a
    path in that directory holds what the run writes there when it starts
    from no files at all: only what this run produced from the tree it
    checked out, and nothing of a former run. *)
Theorem writeSchemas_frame (git : GitRepository) (ref : Reference)
    (fs fs' : gmap string string) :
  writeSchemas git ref fs = (fs', None) ->
  let dir := filepath.Join [outDir; versionOf ref; "jsonschema"] in
  exists produced,
    writeSchemas git ref ∅ = (produced, None) /\
    within dir produced /\
    (forall p, os.below dir p = false -> fs' !! p = fs !! p) /\
    (forall p, os.below dir p = true -> fs' !! p = produced !! p).
Proof.
  intros Hrun dir.
  destruct (writeSchemas_union git ref) as [[err Hstop]|(W & err & Hw & Hall)].
  { by rewrite Hstop in Hrun. }
  fold dir in Hw, Hall. rewrite Hall in Hrun. injection Hrun as <- ->.
  exists W. split_and!.
  - rewrite Hall, RemoveAll_empty. by rewrite (right_id_L ∅ (∪)).
  - done.
  - intros p Hp. rewrite lookup_union_r; [by rewrite lookup_RemoveAll, Hp|].
    destruct (W !! p) eqn:Hwp; [|done]. rewrite Hw in Hp; [done|by eexists].
  - intros p Hp. destruct (W !! p) as [x|] eqn:Hwp.
    + by apply lookup_union_Some_l.
    + apply lookup_union_None. split; [done|]. by rewrite lookup_RemoveAll, Hp.
Qed.

End write_facts.

(** C7 on a file without a [spec] key. *)
Lemma spec_key_error_witness :
  writeSchema (E:=sample.externals) (F:=defaultFlags)
    "integration/manifest.jsonschema.json" "no schema here" "./1.2.0/jsonschema" "1.2.0" ∅
  = (∅, Some ("failed converting spec.yml file to JSON schema for "
              +:+ sample.quote "integration/manifest.jsonschema.json"
              +:+ ": spec key not found in YAML")).
Proof.
  destruct (@spec_key_error sample.externals defaultFlags
              "integration/manifest.jsonschema.json" "no schema here"
              "./1.2.0/jsonschema" "1.2.0" ∅
              {[ "description" := AString "no schema here" ]} eq_refl
              ltac:(intros spec; discriminate))
    as (cause & _ & Habsent & _ & _ & Hwrite).
  rewrite Hwrite, (Habsent eq_refl). reflexivity.
Defined.

(** C10 on files of two versions: the stale file of this version is gone,
    the file of the other version is kept. *)
Lemma writeSchemas_frame_witness :
  exists fs',
    writeSchemas (E:=sample.externals) (F:=defaultFlags) sample.repository
      (tag "v1.2.0" "5f0c1a") sample.staleFiles = (fs', None) /\
    fs' !! "1.1.0/jsonschema/manifest.jsonschema.json" = Some "kept" /\
    fs' !! "1.2.0/jsonschema/stale.jsonschema.json" = None /\
    is_Some (fs' !! "1.2.0/jsonschema/integration/manifest.jsonschema.json").
Proof.
  destruct (writeSchemas (E:=sample.externals) (F:=defaultFlags) sample.repository
              (tag "v1.2.0" "5f0c1a") sample.staleFiles) as [fs' err] eqn:Hrun.
  assert (Herr : err = None).
  { apply (f_equal snd) in Hrun. vm_compute in Hrun. congruence. }
  subst err. exists fs'. split; [reflexivity|].
  destruct (@writeSchemas_frame sample.externals defaultFlags sample.repository
              (tag "v1.2.0" "5f0c1a") sample.staleFiles fs' Hrun)
    as (produced & Hprod & _ & Hout & Hin).
  split_and!.
  - rewrite Hout by reflexivity. reflexivity.
  - rewrite Hin by reflexivity.
    apply (f_equal fst) in Hprod. simpl in Hprod. rewrite <- Hprod.
    vm_compute. reflexivity.
  - rewrite Hin by reflexivity.
    apply (f_equal fst) in Hprod. simpl in Hprod. rewrite <- Hprod.
    vm_compute. eexists. reflexivity.
Defined.

(** ** The bundler *)

Section bundle_claims.
Context {E : Externals} {S : bundle.System}.

Lemma bundleAll_app pre rest inDir outDir w0 w :
  bundle.bundleAll pre inDir outDir w0 = (w, None) ->
  bundle.bundleAll (pre ++ rest) inDir outDir w0 = bundle.bundleAll rest inDir outDir w.
Proof.
  revert w0. induction pre as [|schema pre IH]; intros w0; simpl.
  - by intros [= ->].
  - destruct (bundle.bundleSchema schema inDir outDir w0) as [w1 [err|]]; [done|]. apply IH.
Qed.

(** C8, amended.  When the tool fails on an entry, [bundleSchema]
    returns an error that holds the arguments of the call, the path of the
    entry among them, and the error of the run; what the tool printed on
    its standard error is copied to the standard error of the bundler and
    is not part of the error.  No file is written for the entry, and the
    loop of [run] stops there with an error that names the quoted path of
    the entry before the error of [bundleSchema]. *)
Theorem oracle_failure_reported (schemaPath inDir outDir : string)
    (w : bundle.World) (err : string) :
  let res := bundle.jsonschema ["bundle"; schemaPath; "--resolve"; inDir; "--without-id"]
               (bundle.files w) in
  bundle.runError res = Some err ->
  let msg := "failed running jsonschema "
             +:+ strings.Join ["bundle"; schemaPath; "--resolve"; inDir; "--without-id"] " "
             +:+ ": " +:+ err in
  let w' := {| bundle.files := bundle.files w;
               bundle.osStderr := bundle.osStderr w +:+ bundle.stderr res +:+ newline |} in
  bundle.bundleSchema schemaPath inDir outDir w = (w', Some msg) /\
  (forall pre rest w0,
      bundle.bundleAll pre inDir outDir w0 = (w, None) ->
      bundle.bundleAll (pre ++ schemaPath :: rest) inDir outDir w0
      = (w', Some ("bundling " +:+ Quote schemaPath +:+ " failed: " +:+ msg))).
Proof.
  intros res Herr msg w'.
  assert (Hb : bundle.bundleSchema schemaPath inDir outDir w = (w', Some msg)).
  { unfold bundle.bundleSchema, bundle.jsonschemaExec. fold res. rewrite Herr.
    reflexivity. }
  split; [done|]. intros pre rest w0 Hpre.
  rewrite (bundleAll_app _ _ _ _ _ _ Hpre). simpl. by rewrite Hb.
Qed.

End bundle_claims.

(** C8 on an entry that the tool cannot resolve. *)
Lemma oracle_failure_reported_witness :
  bundle.bundleSchema (S:=sample.tool) "in/broken.jsonschema.json" "in" "out"
    {| bundle.files := ∅; bundle.osStderr := "" |}
  = ({| bundle.files := ∅;
        bundle.osStderr := "error: could not resolve the reference" +:+ newline |},
     Some "failed running jsonschema bundle in/broken.jsonschema.json --resolve in --without-id: exit status 1").
Proof.
  apply (@oracle_failure_reported sample.externals sample.tool
           "in/broken.jsonschema.json" "in" "out"
           {| bundle.files := ∅; bundle.osStderr := "" |} "exit status 1" eq_refl).
Defined.

(** C8, as stated, fails: the error of the run does not hold what the tool
    printed; that text is on the standard error of the bundler. *)
Lemma oracle_failure_reported_counterexample :
  exists w' msg,
    bundle.run (E:=sample.externals) (S:=sample.tool) (F:={| bundle.inDir := "in"; bundle.outDir := "out" |})
      {| bundle.files := ∅; bundle.osStderr := "" |} = (w', Some msg) /\
    strings.Contains msg "in/broken.jsonschema.json" = true /\
    strings.Contains msg "exit status 1" = true /\
    strings.Contains msg "error: could not resolve the reference" = false /\
    strings.Contains (bundle.osStderr w') "error: could not resolve the reference" = true /\
    bundle.files w' !! "out/broken.jsonschema.json" = None /\
    bundle.files w' !! "out/c.jsonschema.json" = None /\
    bundle.files w' !! "out/a.jsonschema.json" = Some "{}".
Proof.
  eexists _, _. split; [vm_compute; reflexivity|].
  repeat split; vm_compute; reflexivity.
Qed.

(** * Further properties

    Properties of the code beyond the claims above: the functions around
    the ones the claims are about, and what these do at their edges. *)

(** ** More on strings *)

Section more_strings.
Import strings.
#[local] Arguments String.append !_ _ / : simpl nomatch.
#[local] Arguments Ascii.eqb !_ !_ / : simpl nomatch.

(** *** Paths *)




Lemma below_prefix dir p :
  os.below dir p = true -> HasPrefix (filepath.Clean p +:+ "/") (dir +:+ "/") = true.
Proof.
  unfold os.below. intros [Heq|Hp]%orb_true_iff.
  - apply String.eqb_eq in Heq as ->.
    rewrite <- (string_app_empty_r (dir +:+ "/")) at 1.
    apply strings_facts.HasPrefix_app_self.
  - by apply HasPrefix_app_l.
Qed.

(** *** [encodeURIFragment] and carets *)

Lemma Contains_ReplaceAll_caret s : Contains (ReplaceAll s "^" "%5E") "^" = false.
Proof.
  induction s as [|c s IH]; [done|]. simpl.
  destruct (Ascii.eqb c "^") eqn:Hc; simpl.
  - by rewrite IH.
  - rewrite Ascii.eqb_sym, Hc. simpl. exact IH.
Qed.

Lemma ReplaceAll_caret_absent s : Contains s "^" = false -> ReplaceAll s "^" "%5E" = s.
Proof.
  induction s as [|c s IH]; [done|]. simpl.
  rewrite (Ascii.eqb_sym "^"). destruct (Ascii.eqb c "^"); simpl; [done|].
  intros Hs. by rewrite IH.
Qed.

(** X11.  Encoding an encoded reference changes nothing; after the first
    [#] of an encoded reference there is no caret; and a reference with a
    [#] comes back as it was exactly when it has no caret after its first
    [#]. *)
Theorem encodeURIFragment_no_caret :
  (forall ref, encodeURIFragment (encodeURIFragment ref).1 = encodeURIFragment ref) /\
  (forall ref base fragment,
      (encodeURIFragment ref).1 = base +:+ "#" +:+ fragment ->
      Contains base "#" = false ->
      Contains fragment "^" = false) /\
  (forall base fragment,
      Contains base "#" = false ->
      (encodeURIFragment (base +:+ "#" +:+ fragment)).1 = base +:+ "#" +:+ fragment
      <-> Contains fragment "^" = false).
Proof.
  split_and!.
  - intros ref. apply injective_projections.
    + rewrite !strings_facts.encodeURIFragment_value. apply strings_facts.encodeAfterHash_idem.
    + by rewrite !strings_facts.encodeURIFragment_error.
  - intros ref base fragment Hr Hb.
    pose proof (strings_facts.encodeAfterHash_idem ref) as Hi.
    rewrite strings_facts.encodeURIFragment_value in Hr. rewrite Hr in Hi.
    rewrite strings_facts.encodeAfterHash_split in Hi by done.
    apply string_app_inv_head in Hi. simpl in Hi. injection Hi as Hi.
    rewrite <- Hi. apply Contains_ReplaceAll_caret.
  - intros base fragment Hb. rewrite strings_facts.encodeURIFragment_value.
    rewrite strings_facts.encodeAfterHash_split by done. split.
    + intros Hi. apply string_app_inv_head in Hi. simpl in Hi. injection Hi as Hi.
      rewrite <- Hi. apply Contains_ReplaceAll_caret.
    + intros Hf. by rewrite ReplaceAll_caret_absent.
Qed.

(** *** The name of the clone directory *)

Lemma slug_cons c s :
  Replacer_Replace slugSanitizer (String c s)
  = if Ascii.eqb c "/" then String "_" (Replacer_Replace slugSanitizer s)
    else if Ascii.eqb c " " then Replacer_Replace slugSanitizer s
    else String c (Replacer_Replace slugSanitizer s).
Proof.
  cbn [Replacer_Replace]. unfold slugSanitizer. cbn [list_find fmap option_fmap option_map fst].
  rewrite (Ascii.eqb_sym "/"), (Ascii.eqb_sym " ").
  destruct (Ascii.eqb c "/").
  - simpl. done.
  - simpl. destruct (Ascii.eqb c " "); simpl; done.
Qed.

Lemma slug_app x y :
  Replacer_Replace slugSanitizer (x +:+ y)
  = Replacer_Replace slugSanitizer x +:+ Replacer_Replace slugSanitizer y.
Proof.
  induction x as [|c x IH]; [done|].
  change (String c x +:+ y) with (String c (x +:+ y)). rewrite !slug_cons, IH.
  destruct (Ascii.eqb c "/"); [done|]. destruct (Ascii.eqb c " "); done.
Qed.

(** X18.  What [slugSanitizer] makes of a string has neither a slash nor a
    space, so it is one element of a path; a slash and an underscore in the
    string give the same result, and a space gives the same as no space. *)
Theorem slug_single_element :
  (forall s, lacks "/" (Replacer_Replace slugSanitizer s) = true /\
             lacks " " (Replacer_Replace slugSanitizer s) = true) /\
  (forall x y, Replacer_Replace slugSanitizer (x +:+ "/" +:+ y)
               = Replacer_Replace slugSanitizer (x +:+ "_" +:+ y)) /\
  (forall x y, Replacer_Replace slugSanitizer (x +:+ " " +:+ y)
               = Replacer_Replace slugSanitizer (x +:+ y)).
Proof.
  split_and!.
  - intros s. unfold lacks. induction s as [|c s [IH1 IH2]]; [done|].
    rewrite slug_cons.
    destruct (Ascii.eqb c "/") eqn:H1; [simpl; by rewrite IH1, IH2|].
    destruct (Ascii.eqb c " ") eqn:H2; [done|]. simpl. by rewrite H1, H2, IH1, IH2.
  - intros x y. by rewrite !slug_app.
  - intros x y. by rewrite !slug_app.
Qed.

Lemma slug_slash x y :
  Replacer_Replace slugSanitizer (x +:+ "/" +:+ y)
  = Replacer_Replace slugSanitizer (x +:+ "_" +:+ y).
Proof. by rewrite !slug_app. Qed.

Lemma repoDir_git workDir z :
  repoDir workDir ("/" +:+ z +:+ ".git")
  = filepath.Join [workDir; "git"; Replacer_Replace slugSanitizer z].
Proof.
  unfold repoDir. change ("/" +:+ z +:+ ".git") with ("/" +:+ (z +:+ ".git")).
  by rewrite TrimPrefix_app, TrimSuffix_app.
Qed.

End more_strings.

(** ** Versions and their labels *)

Lemma tagToSemver_v (s hash : string) :
  plain s = true -> tagToSemver (tag ("v" +:+ s) hash) = semver.NewVersion s.
Proof.
  intros Hs. unfold tagToSemver, tag. cbn [Name].
  rewrite Short_tag by done. done.
Qed.

Lemma tagToSemver_wellFormed ref v : tagToSemver ref = Some v -> wellFormed v.
Proof.
  unfold tagToSemver. destruct (negb _); [done|]. apply NewVersion_wellFormed.
Qed.

Lemma versionOf_String ref v : tagToSemver ref = Some v -> versionOf ref = semver.String_ v.
Proof. unfold versionOf. by intros ->. Qed.

(** X3.  The label of a reference that is a version, with [v] before it,
    is the name of a tag of the same version: the name of the directory of
    a release can be read back. *)
Theorem version_label_round_trip (ref : Reference) (v : semver.Version) (hash : string) :
  tagToSemver ref = Some v ->
  tagToSemver (tag ("v" +:+ versionOf ref) hash) = Some v.
Proof.
  intros Hv. pose proof (tagToSemver_wellFormed _ _ Hv) as Hw.
  rewrite (versionOf_String ref v Hv), tagToSemver_v by by apply String_plain.
  by apply NewVersion_String.
Qed.

(** X4.  Two references that are versions have the same label, and so the
    same output directory, exactly when they are the same version; two
    tags of one version, as [v1.2.0] and [v01.2.0], share a directory. *)
Theorem same_label_same_version (r1 r2 : Reference) (v1 v2 : semver.Version) :
  tagToSemver r1 = Some v1 -> tagToSemver r2 = Some v2 ->
  (versionOf r1 = versionOf r2 <-> v1 = v2).
Proof.
  intros H1 H2. rewrite (versionOf_String _ _ H1), (versionOf_String _ _ H2).
  split; [|by intros ->].
  apply String_inj; by eapply tagToSemver_wellFormed.
Qed.

(** ** The repository *)

Section repository_facts.
Context {E : Externals} {F : Flags}.

(** X1.  [getSpecPath] gives [spec] exactly when [spec] is there, whatever
    else is; [versions/1] exactly when [spec] is not there and [versions/1]
    is; and fails exactly when neither is.  What it gives is there. *)
Theorem getSpecPath_priority (fs : Filesystem) :
  (getSpecPath fs = inr "spec" <-> Stat fs "spec" = true) /\
  (getSpecPath fs = inr "versions/1"
   <-> Stat fs "spec" = false /\ Stat fs "versions/1" = true) /\
  (getSpecPath fs = inl "no spec found"
   <-> Stat fs "spec" = false /\ Stat fs "versions/1" = false) /\
  (forall path, getSpecPath fs = inr path -> Stat fs path = true).
Proof.
  unfold getSpecPath. rewrite !filter_cons, filter_nil.
  destruct (Stat fs "spec") eqn:H1, (Stat fs "versions/1") eqn:H2; simpl;
    repeat case_decide; try done.
  all: split_and!; try (split; [try done; by intros [??]|try done; by intros [??]]).
  all: try (intros path [= <-]; done).
  all: try done.
Qed.

Lemma last_filter_Some {A} (P : A -> Prop) `{!forall x, Decision (P x)} (l : list A) (x : A) :
  last (filter P l) = Some x ->
  exists pre post, l = (pre ++ x :: post)%list /\ P x /\ Forall (fun y => ~ P y) post.
Proof.
  induction l as [|y l IH] using rev_ind; [done|].
  rewrite filter_app, filter_cons, filter_nil.
  destruct (decide (P y)) as [Hy|Hy].
  - rewrite last_snoc. intros [= ->]. exists l, []. by split_and!.
  - rewrite app_nil_r. intros (pre & post & -> & Hx & Hpost)%IH.
    exists pre, (post ++ [y])%list. split_and!; [by rewrite <- app_assoc| done |].
    apply Forall_app. split; [done|]. by constructor.
Qed.

Lemma last_filter_None {A} (P : A -> Prop) `{!forall x, Decision (P x)} (l : list A) :
  last (filter P l) = None -> Forall (fun y => ~ P y) l.
Proof.
  intros Hl. apply last_None in Hl. apply Forall_forall. intros y Hy HP.
  assert (y ∈ filter P l) as Hin by by apply list_elem_of_filter.
  rewrite Hl in Hin. by apply elem_of_nil in Hin.
Qed.

(** X2.  When the revision resolves to a hash, [ResolveReference] gives a
    reference with that hash: the last of the references of the repository
    that have it, in the order of the iterator, or, when none has it, a new
    reference named [refs/heads/] and the revision. *)
Theorem ResolveReference_last (g : GitRepository) (ref hash : string)
    (refs : list Reference) :
  repo_ResolveRevision g ref = inr hash ->
  repo_References g = inr refs ->
  exists r,
    ResolveReference g ref = inr r /\
    Hash r = hash /\
    ((exists pre post, refs = (pre ++ r :: post)%list /\
                       Forall (fun r' => Hash r' <> hash) post)
     \/ (Forall (fun r' => Hash r' <> hash) refs /\
         r = HashReference ("refs/heads/" +:+ ref) hash)).
Proof.
  intros Hrev Hrefs. unfold ResolveReference. rewrite Hrev, Hrefs.
  destruct (last (filter (fun r => Hash r = hash) refs)) as [r|] eqn:Hl.
  - exists r. apply last_filter_Some in Hl as (pre & post & -> & Hr & Hpost).
    split_and!; [done..|]. left. by exists pre, post.
  - eexists. split_and!; [done..|]. right. split; [|done].
    exact (last_filter_None _ _ Hl).
Qed.

(** X24.  With an explicit reference, the reference that [run] goes on
    with has the hash that the revision resolved to, and so that commit is
    the one checked out, although [run] makes the reference from the
    rendering of a reference, a hash and a name, and not from a hash:
    provided [plumbing.NewHash] reads the hash at the head of such a
    rendering, as the one of go-git does, and the hash does not begin as
    the rendering of a symbolic reference does. *)
Theorem explicit_ref_hash (git : GitRepository) (hash : string) (refs : list Reference) :
  gitRef <> "" ->
  repo_ResolveRevision git gitRef = inr hash ->
  repo_References git = inr refs ->
  (forall name, NewHash (hash +:+ " " +:+ name) = hash) ->
  (forall rest, strings.HasPrefix (hash +:+ rest) "ref: " = false) ->
  exists ref,
    gitRefs git = inr [ref] /\ Name ref = gitRef /\ Hash ref = hash.
Proof.
  intros Hne Hrev Hrefs Hnew Hhex. unfold gitRefs.
  apply String.eqb_neq in Hne. rewrite Hne. simpl.
  assert (Hres : exists r, ResolveReference git gitRef = inr r /\ Hash r = hash).
  { unfold ResolveReference. rewrite Hrev, Hrefs.
    destruct (last (filter (fun r => Hash r = hash) refs)) as [r|] eqn:Hl.
    - exists r. split; [done|].
      by apply last_filter_Some in Hl as (pre & post & _ & Hr & _).
    - by eexists. }
  destruct Hres as (r & -> & Hr). eexists. split; [reflexivity|].
  unfold NewReferenceFromStrings. destruct r as [name h|name target]; simpl in *.
  - subst h. rewrite Hhex. simpl. by rewrite Hnew.
  - by rewrite <- Hr.
Qed.

(** X19.  Two URLs whose paths differ in a slash for an underscore have
    the same clone directory.  When that directory holds a repository,
    [NewGitRepository] gives the same for both URLs: the repository that is
    there, which it does not clone again, and which it returns as it is
    without a fetch, and also when the fetch finds it up to date. *)
Theorem NewGitRepository_shared_clone (G : Git) (u1 u2 : string) (U1 U2 : URL)
    (workDir x y : string) (fetch : bool) (repo : GitRepository) :
  url_Parse u1 = inr U1 -> url_Path U1 = "/" +:+ x +:+ "/" +:+ y +:+ ".git" ->
  url_Parse u2 = inr U2 -> url_Path U2 = "/" +:+ x +:+ "_" +:+ y +:+ ".git" ->
  repoDir workDir (url_Path U1) = repoDir workDir (url_Path U2) /\
  (PlainOpen G (repoDir workDir (url_Path U1)) = inr repo ->
   NewGitRepository G u1 workDir fetch = NewGitRepository G u2 workDir fetch /\
   NewGitRepository G u2 workDir false = inr repo /\
   (repo_Fetch G repo = inl NoErrAlreadyUpToDate ->
    NewGitRepository G u2 workDir true = inr repo)).
Proof.
  intros HU1 Hp1 HU2 Hp2.
  assert (Hdir : repoDir workDir (url_Path U1) = repoDir workDir (url_Path U2)).
  { rewrite Hp1, Hp2.
    rewrite <- (strings_facts.app_assoc x "/" (y +:+ ".git")).
    rewrite <- (strings_facts.app_assoc x "_" (y +:+ ".git")).
    rewrite <- !(strings_facts.app_assoc _ y ".git").
    rewrite !repoDir_git, !strings_facts.app_assoc. by rewrite slug_slash. }
  split; [done|]. intros Hopen.
  unfold NewGitRepository. rewrite HU1, HU2, <- Hdir, Hopen. simpl.
  split_and!; [done..|]. unfold Fetch. by intros ->.
Qed.

End repository_facts.

(** ** More on writing the schemas of a version *)

Section write_more.
Context {E : Externals} {F : Flags}.

(** Whatever the outcome, [writeSchemas] leaves a path outside the
    directory of the version as it was. *)
Lemma writeSchemas_outside (git : GitRepository) (ref : Reference)
    (fs fs' : gmap string string) (err : option string) (p : string) :
  writeSchemas git ref fs = (fs', err) ->
  os.below (filepath.Join [outDir; versionOf ref; "jsonschema"]) p = false ->
  fs' !! p = fs !! p.
Proof.
  intros Hrun Hp.
  destruct (writeSchemas_union git ref) as [[e Hstop]|(W & e & Hw & Hall)].
  { rewrite Hstop in Hrun. by injection Hrun as <- _. }
  rewrite Hall in Hrun. injection Hrun as <- _.
  rewrite lookup_union_r; [by rewrite lookup_RemoveAll, Hp|].
  destruct (W !! p) eqn:Hwp; [|done]. rewrite Hw in Hp; [done|by eexists].
Qed.

(** Once the directory of the specifications is found, the files after
    the run are what the run writes, over what [os.RemoveAll] left. *)
Lemma writeSchemas_found (git : GitRepository) (ref : Reference)
    (wt : Filesystem) (repoPath : string) :
  repo_Checkout git (Hash ref) = inr wt -> getSpecPath wt = inr repoPath ->
  let dir := filepath.Join [outDir; versionOf ref; "jsonschema"] in
  exists W err, within dir W /\
                forall fs, writeSchemas git ref fs = (W ∪ os.RemoveAll dir fs, err).
Proof.
  intros Hwt Hpath dir. unfold writeSchemas. fold dir. rewrite Hwt, Hpath.
  assert (Hdir : cleaned dir) by by apply path_facts.cleaned_Join3.
  assert (Hrel : relative repoPath) by by eapply getSpecPath_relative.
  pose proof (walk_within repoPath dir (versionOf ref) (Walk wt repoPath) ∅ []
                Hdir Hrel (Walk_entries wt repoPath Hrel) (within_empty dir)) as Hw.
  pose proof (fun fs => walk_union repoPath dir (versionOf ref) (Walk wt repoPath)
                          ∅ (os.RemoveAll dir fs) []) as Hu.
  destruct (walk _ (Walk wt repoPath) (∅, [])) as [[W written] [err|]]; simpl in *.
  { exists W, (Some err). split; [done|]. intros fs.
    rewrite <- (left_id_L ∅ (∪) (os.RemoveAll dir fs)) at 1. by rewrite Hu. }
  destruct (negb (bool_decide ("manifest.jsonschema.json" ∈ written))) eqn:Hroot; simpl.
  - destruct (combinedManifestSchema written (versionOf ref)) as [err|b] eqn:Hm.
    + exists W, (Some err). split; [done|]. intros fs.
      rewrite <- (left_id_L ∅ (∪) (os.RemoveAll dir fs)) at 1. by rewrite Hu, Hroot, Hm.
    + exists (os.WriteFile (filepath.Join [dir; "manifest.jsonschema.json"]) b W), None.
      split; [apply within_insert; [|done]|].
      { apply path_facts.below_Join; [done|]. by apply path_facts.relative_name. }
      intros fs.
      rewrite <- (left_id_L ∅ (∪) (os.RemoveAll dir fs)) at 1. rewrite Hu, Hroot, Hm.
      unfold os.WriteFile. by rewrite insert_union_l.
  - exists W, None. split; [done|]. intros fs.
    rewrite <- (left_id_L ∅ (∪) (os.RemoveAll dir fs)) at 1. by rewrite Hu, Hroot.
Qed.

(** X6.  [writeSchemas] is not transactional.  When the check-out fails,
    or no directory of specifications is found, the files in the directory
    of the version are what they were: the former output survives.  Once
    that directory is found, the former files of the directory of the
    version are gone, also when the run fails later: the directory holds
    what the run wrote until it stopped. *)
Theorem writeSchemas_not_transactional (git : GitRepository) (ref : Reference)
    (fs fs' : gmap string string) (err : option string) :
  writeSchemas git ref fs = (fs', err) ->
  let dir := filepath.Join [outDir; versionOf ref; "jsonschema"] in
  (forall e, repo_Checkout git (Hash ref) = inl e ->
             err = Some e /\ forall p, os.below dir p = true -> fs' !! p = fs !! p) /\
  (forall wt e, repo_Checkout git (Hash ref) = inr wt -> getSpecPath wt = inl e ->
                err = Some e /\ forall p, os.below dir p = true -> fs' !! p = fs !! p) /\
  (forall wt repoPath,
      repo_Checkout git (Hash ref) = inr wt -> getSpecPath wt = inr repoPath ->
      forall p, os.below dir p = true -> fs' !! p = (writeSchemas git ref ∅).1 !! p).
Proof.
  intros Hrun dir. split_and!.
  - intros e He. unfold writeSchemas in Hrun. rewrite He in Hrun. by injection Hrun as <- <-.
  - intros wt e Hwt He. unfold writeSchemas in Hrun. rewrite Hwt, He in Hrun.
    by injection Hrun as <- <-.
  - intros wt repoPath Hwt Hpath p Hp.
    destruct (writeSchemas_found git ref wt repoPath Hwt Hpath) as (W & e & Hw & Hall).
    fold dir in Hw, Hall. rewrite Hall in Hrun. injection Hrun as <- _.
    rewrite Hall, RemoveAll_empty, (right_id_L ∅ (∪)). simpl.
    destruct (W !! p) as [x|] eqn:Hwp.
    + by apply lookup_union_Some_l.
    + apply lookup_union_None. split; [done|]. by rewrite lookup_RemoveAll, Hp.
Qed.

(** The loop of [run] over the references. *)
Lemma writeAll_outside (git : GitRepository) (refs : list Reference)
    (fs fs' : gmap string string) (err : option string) (p : string) :
  writeAll git refs fs = (fs', err) ->
  Forall (fun ref => os.below (filepath.Join [outDir; versionOf ref; "jsonschema"]) p
                     = false) refs ->
  fs' !! p = fs !! p.
Proof.
  revert fs. induction refs as [|ref refs IH]; intros fs; simpl.
  - by intros [= <- _].
  - intros Hrun [Hp Hrest]%Forall_cons.
    destruct (writeSchemas git ref fs) as [fs1 [e|]] eqn:Hrun1.
    + injection Hrun as <- _. by eapply writeSchemas_outside.
    + rewrite (IH fs1 Hrun Hrest). by eapply writeSchemas_outside.
Qed.

(** X7.  Whatever the outcome of a run, a path that is neither in the
    directory of the clones, [git] in the working directory, nor in the
    [jsonschema] directory of one of the versions that the run generates,
    holds what it held: the bundles, and the directories of other versions,
    are not touched.  A run that cannot open the repository, or cannot find
    its references, returns that error.  The directory of the clone is taken
    to lie in the directory of the clones, as it does unless the path of the
    repository URL gives the name [..]. *)
Theorem run_outside (G : Git) (fs fs' : gmap string string) (err : option string)
    (p : string) :
  run (NewGitRepository G gitURL workDir gitFetch) fs = (fs', err) ->
  (forall repoURL, url_Parse gitURL = inr repoURL ->
     os.below (filepath.Join [workDir; "git"]) (repoDir workDir (url_Path repoURL))
     = true) ->
  os.below (filepath.Join [workDir; "git"]) p = false ->
  (forall e, NewGitRepository G gitURL workDir gitFetch = inl e ->
             err = Some e /\ fs' !! p = fs !! p) /\
  (forall git e, NewGitRepository G gitURL workDir gitFetch = inr git ->
                 gitRefs git = inl e -> err = Some e /\ fs' !! p = fs !! p) /\
  (forall git refs,
      NewGitRepository G gitURL workDir gitFetch = inr git -> gitRefs git = inr refs ->
      Forall (fun ref => os.below (filepath.Join [outDir; versionOf ref; "jsonschema"]) p
                         = false) refs ->
      fs' !! p = fs !! p).
Proof.
  unfold run. intros Hrun _ _. split_and!.
  - intros e He. rewrite He in Hrun. by injection Hrun as <- <-.
  - intros git e Hgit He. rewrite Hgit, He in Hrun. by injection Hrun as <- <-.
  - intros git refs Hgit Hrefs Hp. rewrite Hgit, Hrefs in Hrun. by eapply writeAll_outside.
Qed.

Lemma release_directories_disjoint (r1 r2 : Reference) (v1 v2 : semver.Version) (p : string) :
  tagToSemver r1 = Some v1 -> tagToSemver r2 = Some v2 -> v1 <> v2 ->
  os.below (filepath.Join [outDir; versionOf r1; "jsonschema"]) p = true ->
  os.below (filepath.Join [outDir; versionOf r2; "jsonschema"]) p = false.
Proof.
  intros H1 H2 Hne Hp1.
  destruct (os.below (filepath.Join [outDir; versionOf r2; "jsonschema"]) p) eqn:Hp2; [|done].
  exfalso. apply Hne.
  pose proof (tagToSemver_wellFormed _ _ H1) as Hw1.
  pose proof (tagToSemver_wellFormed _ _ H2) as Hw2.
  apply below_prefix in Hp1, Hp2.
  rewrite (versionOf_String _ _ H1) in Hp1. rewrite (versionOf_String _ _ H2) in Hp2.
  destruct (path_facts.Join_version outDir) as [O HO].
  rewrite HO in Hp1, Hp2 by by apply String_isName.
  rewrite !strings_facts.app_assoc in Hp1, Hp2. cbn [String.append] in Hp1, Hp2.
  rewrite HasPrefix_app in Hp1, Hp2.
  apply andb_true_iff in Hp1 as [_ Hp1]. apply andb_true_iff in Hp2 as [_ Hp2].
  apply String_inj; [done..|].
  eapply (prefix_sep_unique "/"); [by apply lacks_slash_String..| exact Hp1 | exact Hp2].
Qed.

(** X5.  The output directories of two different versions are apart, so
    writing the schemas of one version, with whatever outcome, leaves every
    file in the directory of the other as it was. *)
Theorem releases_do_not_interfere (git : GitRepository) (r1 r2 : Reference)
    (v1 v2 : semver.Version) (fs fs' : gmap string string) (err : option string) :
  tagToSemver r1 = Some v1 -> tagToSemver r2 = Some v2 -> v1 <> v2 ->
  writeSchemas git r2 fs = (fs', err) ->
  forall p, os.below (filepath.Join [outDir; versionOf r1; "jsonschema"]) p = true ->
            os.below (filepath.Join [outDir; versionOf r2; "jsonschema"]) p = false /\
            fs' !! p = fs !! p.
Proof.
  intros H1 H2 Hne Hrun p Hp.
  pose proof (release_directories_disjoint r1 r2 v1 v2 p H1 H2 Hne Hp) as Hp2.
  split; [done|]. by eapply writeSchemas_outside.
Qed.

(** After a success, a path in the directory of the version holds what the
    run writes there when it starts from no files. *)
Lemma writeSchemas_inside (git : GitRepository) (ref : Reference)
    (fs fs' : gmap string string) (p : string) :
  writeSchemas git ref fs = (fs', None) ->
  os.below (filepath.Join [outDir; versionOf ref; "jsonschema"]) p = true ->
  fs' !! p = (writeSchemas git ref ∅).1 !! p.
Proof.
  intros Hrun Hp.
  destruct (writeSchemas_union git ref) as [[e Hstop]|(W & e & Hw & Hall)].
  { by rewrite Hstop in Hrun. }
  rewrite Hall in Hrun. injection Hrun as <- _.
  rewrite Hall, RemoveAll_empty, (right_id_L ∅ (∪)). simpl.
  destruct (W !! p) as [x|] eqn:Hwp.
  - by apply lookup_union_Some_l.
  - apply lookup_union_None. split; [done|]. by rewrite lookup_RemoveAll, Hp.
Qed.

Lemma writeAll_inside (git : GitRepository) (refs : list Reference)
    (fs fs' : gmap string string) :
  writeAll git refs fs = (fs', None) ->
  Forall (fun r => is_Some (tagToSemver r)) refs ->
  NoDup (versionOf <$> refs) ->
  forall r p,
    r ∈ refs ->
    os.below (filepath.Join [outDir; versionOf r; "jsonschema"]) p = true ->
    fs' !! p = (writeSchemas git r ∅).1 !! p.
Proof.
  revert fs. induction refs as [|r0 refs IH]; intros fs Hrun Hver Hnodup r p Hr Hp.
  { by apply elem_of_nil in Hr. }
  simpl in Hrun. destruct (writeSchemas git r0 fs) as [fs1 [e|]] eqn:Hrun0; [done|].
  apply Forall_cons in Hver as [[v0 Hv0] Hver].
  rewrite fmap_cons in Hnodup. apply NoDup_cons in Hnodup as [Hfresh Hnodup].
  apply elem_of_cons in Hr as [->|Hr]; [|exact (IH fs1 Hrun Hver Hnodup r p Hr Hp)].
  rewrite (writeAll_outside git refs fs1 fs' None p Hrun).
  - by apply (writeSchemas_inside git r0 fs fs1 p).
  - apply Forall_forall. intros r' Hr'.
    rewrite Forall_forall in Hver. destruct (Hver r' Hr') as [v' Hv'].
    apply (release_directories_disjoint r0 r' v0 v' p Hv0 Hv'); [|done].
    intros <-. apply Hfresh. apply list_elem_of_fmap. exists r'. split; [|done].
    by rewrite (versionOf_String _ _ Hv0), (versionOf_String _ _ Hv').
Qed.

(** X23.  After a successful run over references that are versions with
    different labels, as the release tags of different versions are, the
    directory of every version holds exactly what [writeSchemas] writes for
    that version when it starts from no files: nothing of a former run, and
    nothing of another version. *)
Theorem run_versions (git : GitRepository) (refs : list Reference)
    (fs fs' : gmap string string) :
  run (inr git) fs = (fs', None) ->
  gitRefs git = inr refs ->
  Forall (fun r => is_Some (tagToSemver r)) refs ->
  NoDup (versionOf <$> refs) ->
  forall r p,
    r ∈ refs ->
    os.below (filepath.Join [outDir; versionOf r; "jsonschema"]) p = true ->
    fs' !! p = (writeSchemas git r ∅).1 !! p.
Proof.
  unfold run. intros Hrun Hrefs. rewrite Hrefs in Hrun.
  exact (writeAll_inside git refs fs fs' Hrun).
Qed.

(** *** The files that are converted *)

Lemma walkFn_skip repoPath dir ver st entry :
  isSpecFile entry = false -> walkFn repoPath dir ver st entry = (st, None).
Proof.
  unfold isSpecFile, walkFn. destruct st as [fs written], entry as [path [f|]]; [|done].
  simpl. by intros ->.
Qed.

Lemma walk_filter repoPath dir ver entries st :
  walk (walkFn repoPath dir ver) entries st
  = walk (walkFn repoPath dir ver) (filter (fun e => isSpecFile e = true) entries) st.
Proof.
  revert st. induction entries as [|entry entries IH]; intros st; [done|].
  rewrite filter_cons. destruct (isSpecFile entry) eqn:Hs.
  - rewrite decide_True by done. cbn [walk].
    destruct (walkFn repoPath dir ver st entry) as [st1 [err|]]; [done|apply IH].
  - rewrite decide_False by done. cbn [walk]. rewrite walkFn_skip by done. apply IH.
Qed.

(** X8.  Only what the walk meets under a name that ends in [.spec.yml]
    counts, files and directories alike: two checked out trees that have
    the same of the two directories of specifications, and in which the
    walk meets the same such files and directories in the same order, give
    the same files and the same outcome, whatever else they hold.  A
    directory of that name makes the run fail. *)
Theorem writeSchemas_spec_files_only (git1 git2 : GitRepository) (ref : Reference)
    (wt1 wt2 : Filesystem) (fs : gmap string string) :
  repo_Checkout git1 (Hash ref) = inr wt1 ->
  repo_Checkout git2 (Hash ref) = inr wt2 ->
  Stat wt1 "spec" = Stat wt2 "spec" ->
  Stat wt1 "versions/1" = Stat wt2 "versions/1" ->
  (forall root,
      getSpecPath wt1 = inr root ->
      filter (fun e => isSpecFile e = true) (Walk wt1 root)
      = filter (fun e => isSpecFile e = true) (Walk wt2 root)) ->
  writeSchemas git1 ref fs = writeSchemas git2 ref fs /\
  (forall root path entries,
      getSpecPath wt1 = inr root ->
      (path, Some (Directory entries)) ∈ Walk wt1 root ->
      strings.HasSuffix (filepath.Base path) ".spec.yml" = true ->
      exists err, (writeSchemas git1 ref fs).2 = Some err).
Proof.
  intros H1 H2 Hspec Hversions Hwalk.
  assert (Hpath : getSpecPath wt1 = getSpecPath wt2).
  { unfold getSpecPath. rewrite !filter_cons, filter_nil. by rewrite Hspec, Hversions. }
  split.
  - unfold writeSchemas. rewrite H1, H2. rewrite <- Hpath.
    destruct (getSpecPath wt1) as [err|repoPath]; [done|].
    rewrite (walk_filter _ _ _ (Walk wt1 repoPath)).
    rewrite Hwalk by done. by rewrite <- walk_filter.
  - intros root path entries Hroot Hin Hsuffix. unfold writeSchemas. rewrite H1, Hroot.
    assert (Hfail : forall st, exists st' err,
               walk (walkFn root (filepath.Join [outDir; versionOf ref; "jsonschema"])
                       (versionOf ref)) (Walk wt1 root) st = (st', Some err)).
    { revert Hin. generalize (Walk wt1 root). intros l. induction l as [|entry l IH].
      - by intros ?%elem_of_nil.
      - intros Hin st. cbn [walk].
        destruct (walkFn _ _ _ st entry) as [st1 [err|]] eqn:Hfn; [by eexists _, _|].
        apply elem_of_cons in Hin as [<-|Hin]; [|by apply IH].
        unfold walkFn in Hfn. destruct st as [fs0 written]. rewrite Hsuffix in Hfn.
        simpl in Hfn. done. }
    destruct (Hfail (os.RemoveAll (filepath.Join [outDir; versionOf ref; "jsonschema"]) fs, []))
      as ([fs1 written] & err & ->).
    by exists err.
Qed.

(** What a successful walk has written, and the names it has collected. *)
Lemma walk_written repoPath dir ver entries fs written fs' written' :
  walk (walkFn repoPath dir ver) entries (fs, written) = ((fs', written'), None) ->
  (forall rel, rel ∈ written -> is_Some (fs !! filepath.Join [dir; rel])) ->
  written' = (written ++ ((relPathOf repoPath ∘ fst)
                            <$> filter (fun e => isSpecFile e = true) entries))%list /\
  (forall rel, rel ∈ written' -> is_Some (fs' !! filepath.Join [dir; rel])).
Proof.
  revert fs written. induction entries as [|[path info] entries IH]; intros fs written.
  - simpl. intros [= <- <-] Hw. by rewrite app_nil_r.
  - cbn [walk]. destruct (isSpecFile (path, info)) eqn:Hs.
    + rewrite filter_cons_True by done. unfold walkFn at 1.
      unfold isSpecFile in Hs. simpl in Hs.
      destruct info as [[content|dirents]|]; [|by rewrite Hs|done].
      rewrite Hs. simpl.
      fold (relPathOf repoPath path). unfold writeSchema.
      destruct (convertSpecYAMLToJSONSchema _ content ver) as [err|buf]; [done|].
      intros Hwalk Hw.
      apply IH in Hwalk as [-> Hall].
      * split; [|done]. by rewrite <- app_assoc.
      * intros rel [Hrel|Hrel%list_elem_of_singleton]%elem_of_app; unfold os.WriteFile;
          [|subst rel].
        -- destruct (decide (filepath.Join [dir; relPathOf repoPath path]
                             = filepath.Join [dir; rel])) as [->|Hne].
           ++ rewrite lookup_insert_eq. by eexists.
           ++ rewrite lookup_insert_ne by done. by apply Hw.
        -- rewrite lookup_insert_eq. by eexists.
    + rewrite filter_cons_False by (by rewrite Hs). rewrite walkFn_skip by done.
      intros Hwalk Hw. by apply IH in Hwalk.
Qed.

(** X9.  After a successful [writeSchemas] the directory of the version
    has a root [manifest.jsonschema.json], converted or synthesized, and a
    schema for every file of the tree whose name ends in [.spec.yml], at
    the relative path that [writeSchemas] computes for it. *)
Theorem writeSchemas_complete (git : GitRepository) (ref : Reference)
    (wt : Filesystem) (repoPath : string) (fs fs' : gmap string string) :
  writeSchemas git ref fs = (fs', None) ->
  repo_Checkout git (Hash ref) = inr wt ->
  getSpecPath wt = inr repoPath ->
  let dir := filepath.Join [outDir; versionOf ref; "jsonschema"] in
  is_Some (fs' !! filepath.Join [dir; "manifest.jsonschema.json"]) /\
  (forall path info,
      (path, info) ∈ Walk wt repoPath ->
      strings.HasSuffix (filepath.Base path) ".spec.yml" = true ->
      is_Some (fs' !! filepath.Join [dir; relPathOf repoPath path])).
Proof.
  intros Hrun Hwt Hpath dir. unfold writeSchemas in Hrun. fold dir in Hrun.
  rewrite Hwt, Hpath in Hrun.
  destruct (walk _ (Walk wt repoPath) (os.RemoveAll dir fs, [])) as [[fs1 written] [err|]]
    eqn:Hwalk; [done|].
  apply walk_written in Hwalk as [Hwritten Hall]; [|by intros rel Hrel%elem_of_nil].
  assert (Hfiles : forall path info,
             (path, info) ∈ Walk wt repoPath ->
             strings.HasSuffix (filepath.Base path) ".spec.yml" = true ->
             is_Some (fs1 !! filepath.Join [dir; relPathOf repoPath path])).
  { intros path info Hin Hs. apply Hall. rewrite Hwritten. simpl.
    apply list_elem_of_fmap. exists (path, info). split; [done|].
    apply list_elem_of_filter. split; [|done]. unfold isSpecFile. simpl.
    by destruct info. }
  destruct (bool_decide ("manifest.jsonschema.json" ∈ written)) eqn:Hroot; simpl in Hrun.
  - injection Hrun as <-. split; [|done]. apply Hall. by apply bool_decide_eq_true in Hroot.
  - destruct (combinedManifestSchema written (versionOf ref)) as [err|b]; [done|].
    injection Hrun as <-. unfold os.WriteFile. split.
    + rewrite lookup_insert_eq. by eexists.
    + intros path info Hin Hs.
      destruct (decide (filepath.Join [dir; "manifest.jsonschema.json"]
                        = filepath.Join [dir; relPathOf repoPath path])) as [->|Hne].
      * rewrite lookup_insert_eq. by eexists.
      * rewrite lookup_insert_ne by done. by eapply Hfiles.
Qed.


Lemma RemoveAll_union dir (W fs : gmap string string) :
  within dir W -> os.RemoveAll dir (W ∪ os.RemoveAll dir fs) = os.RemoveAll dir fs.
Proof.
  intros HW. apply map_eq. intros p. rewrite !lookup_RemoveAll.
  destruct (os.below dir p) eqn:Hp; [done|].
  rewrite lookup_union_r; [by rewrite lookup_RemoveAll, Hp|].
  destruct (W !! p) eqn:Hwp; [|done]. rewrite HW in Hp; [done|by eexists].
Qed.

(** X22.  Running [writeSchemas] again, for the same reference of the same
    repository, on the files that it left, changes no file and has the same
    outcome: the run can be repeated, after a success and after a
    failure. *)
Theorem writeSchemas_again (git : GitRepository) (ref : Reference)
    (fs fs' : gmap string string) (err : option string) :
  writeSchemas git ref fs = (fs', err) ->
  writeSchemas git ref fs' = (fs', err).
Proof.
  intros Hrun.
  destruct (writeSchemas_union git ref) as [[e Hstop]|(W & e & Hw & Hall)].
  { rewrite Hstop in Hrun. injection Hrun as <- <-. apply Hstop. }
  rewrite Hall in Hrun. injection Hrun as <- <-.
  by rewrite Hall, RemoveAll_union.
Qed.

End write_more.

(** ** More on the patch pass *)

Section patch_more.
Context {E : Externals}.

Lemma settled_entry isRoot (m : gmap string any) k x :
  negb (String.eqb k "$id") && negb (String.eqb k "$ref") = true ->
  m !! k = Some x -> settled isRoot (AMap m) -> settled false x.
Proof.
  intros Hk Hx Hm p obj Hw Hp.
  destruct (Hm (Key k :: p) obj) as (Hid & Hap & Href).
  - simpl. by rewrite Hk.
  - simpl. by rewrite Hx.
  - split_and!; [|done..]. intros _. apply Hid. by rewrite andb_false_r.
Qed.

Lemma settled_item isRoot (l : list any) i x :
  l !! i = Some x -> settled isRoot (ASlice l) -> settled false x.
Proof.
  intros Hx Hl p obj Hw Hp.
  destruct (Hl (Index i :: p) obj) as (Hid & Hap & Href).
  - done.
  - simpl. by rewrite Hx.
  - split_and!; [|done..]. intros _. apply Hid. by rewrite andb_false_r.
Qed.

Lemma patched_settled v isRoot : settled isRoot v -> patched v isRoot = v.
Proof.
  revert isRoot. induction v as [| | | | |l IH|m IH| | |] using any_ind'; intros isRoot Hv; try done.
  - simpl. f_equal. apply list_eq. intros i.
    rewrite list_lookup_fmap. destruct (l !! i) as [x|] eqn:Hx; [|done]. simpl. f_equal.
    rewrite Forall_lookup in IH. apply (IH i x Hx). by eapply settled_item.
  - simpl. f_equal. apply map_eq. intros k. rewrite lookup_patched.
    destruct (m !! k) as [x|] eqn:Hx; [|done]. simpl.
    destruct (Hv [] m eq_refl eq_refl) as (Hid & Hap & Href).
    destruct (String.eqb_spec k "$id") as [->|Hkid].
    { unfold patchedEntry; simpl. destruct isRoot; [done|].
      rewrite Hid in Hx; done. }
    destruct (String.eqb_spec k "$ref") as [->|Hkref].
    { unfold patchedEntry; simpl. destruct x; try done. by rewrite (Href s Hx). }
    apply String.eqb_neq in Hkid, Hkref.
    assert (Hk : negb (String.eqb k "$id") && negb (String.eqb k "$ref") = true)
      by by rewrite Hkid, Hkref.
    rewrite patchedEntry_dropped by done.
    destruct (dropped k x) eqn:Hd.
    + unfold dropped in Hd. apply andb_true_iff in Hd as [->%String.eqb_eq Hd].
      destruct x as [|[]| | | | | | | |]; try done.
    + f_equal. apply (IH k x Hx). by eapply settled_entry.
Qed.

Lemma settled_patched v isRoot : patched v isRoot = v -> settled isRoot v.
Proof.
  intros Hv p obj Hw Hp.
  pose proof (at_path_patched p v isRoot obj Hw Hp) as Hobj.
  rewrite Hv, Hp in Hobj. injection Hobj as Hobj.
  set (root := isRoot && bool_decide (p = [])) in *.
  assert (Hk : forall k, obj !! k ≫= patchedEntry (fun value => patched value false) root k
                         = obj !! k).
  { intros k. by rewrite <- lookup_patched, <- Hobj. }
  split_and!.
  - intros Hroot. specialize (Hk "$id"). rewrite Hroot in Hk.
    destruct (obj !! "$id"); [|done]. by simpl in Hk.
  - intros Hap. specialize (Hk "additionalProperties"). rewrite Hap in Hk.
    by simpl in Hk.
  - intros refStr Href. specialize (Hk "$ref"). rewrite Href in Hk.
    simpl in Hk. unfold patchedEntry in Hk. simpl in Hk. by injection Hk.
Qed.

(** X12.  The documents that the pass leaves as they are, are those in
    which, at every object that the pass walks to, there is no [$id] below
    the root, no [additionalProperties] that is [true], and no string
    [$ref] that the rewriting changes. *)
Theorem patchSchemaInPlace_unchanged (doc : any) :
  patchSchemaInPlace doc = inr doc <-> settled true doc.
Proof.
  unfold patchSchemaInPlace. rewrite patchSchemaInPlaceRecursive_patched. split.
  - intros [= Hd]. by apply settled_patched.
  - intros Hd. f_equal. by apply patched_settled.
Qed.

Context {F : Flags}.

(** X13.  [patchSchema] fails only when the identifier cannot be made,
    with the error of [schemaID] behind [failed to make schema id].
    Otherwise the patched document has the dialect of the run as its
    [$schema] and the identifier made from the version and the path as its
    [$id], whatever [$schema] and [$id] the specification had, and no
    key but these two and keys of the specification. *)
Theorem patchSchema_identity (version relativePath : string) (spec : gmap string any) :
  (forall err, schemaID version relativePath = inl err ->
               patchSchema version relativePath spec
               = inl ("failed to make schema id: " +:+ err)) /\
  (forall id, schemaID version relativePath = inr id ->
              exists spec1,
                patchSchema version relativePath spec = inr spec1 /\
                spec1 !! "$schema" = Some (AString dialect) /\
                spec1 !! "$id" = Some (AString id) /\
                (forall k, is_Some (spec1 !! k) ->
                           k = "$schema" \/ k = "$id" \/ is_Some (spec !! k))).
Proof.
  split.
  - intros err Herr. unfold patchSchema. by rewrite Herr.
  - intros id Hid. eexists. split; [by apply patchSchema_patched|].
    split_and!.
    + rewrite lookup_patched, lookup_insert_ne by done. by rewrite lookup_insert_eq.
    + by rewrite lookup_patched, lookup_insert_eq.
    + intros k. rewrite lookup_patched.
      destruct (decide (k = "$id")) as [->|Hkid]; [auto|].
      destruct (decide (k = "$schema")) as [->|Hksch]; [auto|].
      rewrite !lookup_insert_ne by done. intros [x Hx]. right. right.
      destruct (spec !! k); [by eexists|done].
Qed.

(** X21.  Patching, for a version and a path, a document that was patched
    before for whatever version and path, gives what patching the original
    document for that version and path gives, when every string [$ref] that
    the pass walks to has [.spec.yml] at most once: of the earlier patch
    only the [$id] would differ, and it is replaced. *)
Theorem patchSchema_repatch (version1 path1 version2 path2 : string)
    (spec spec1 : gmap string any) :
  refsOnce (AMap spec) ->
  patchSchema version1 path1 spec = inr spec1 ->
  patchSchema version2 path2 spec1 = patchSchema version2 path2 spec.
Proof.
  intros Honce Hp.
  destruct (schemaID version1 path1) as [e|id1] eqn:Hid1.
  { unfold patchSchema in Hp. by rewrite Hid1 in Hp. }
  rewrite (patchSchema_patched _ _ _ id1 Hid1) in Hp. injection Hp as <-.
  destruct (schemaID version2 path2) as [e|id2] eqn:Hid2.
  { unfold patchSchema. by rewrite Hid2. }
  rewrite !(patchSchema_patched _ _ _ id2 Hid2). f_equal.
  set (spec0 := <["$id" := AString id1]> (<["$schema" := AString dialect]> spec)).
  assert (Hidem : patched (patched (AMap spec0) true) true = patched (AMap spec0) true).
  { apply patched_idem. unfold spec0.
    apply refsOnce_insert_string; [done|]. by apply refsOnce_insert_string. }
  simpl in Hidem. injection Hidem as Hidem.
  apply map_eq. intros k. rewrite !lookup_patched.
  destruct (decide (k = "$id")) as [->|Hkid]; [by rewrite !lookup_insert_eq|].
  rewrite !(lookup_insert_ne _ "$id") by done.
  destruct (decide (k = "$schema")) as [->|Hksch]; [by rewrite !lookup_insert_eq|].
  rewrite !(lookup_insert_ne _ "$schema") by done.
  apply (f_equal (fun m : gmap string any => m !! k)) in Hidem.
  rewrite !lookup_patched in Hidem. unfold spec0 in Hidem.
  rewrite !lookup_insert_ne in Hidem by done.
  rewrite lookup_patched. fold spec0. unfold spec0.
  rewrite !lookup_insert_ne by done. exact Hidem.
Qed.

End patch_more.

(** ** More on the synthesized manifest *)

Section manifest_more.
Context {E : Externals} {F : Flags}.

Lemma schemaID_error version relativePath err :
  schemaID version relativePath = inl err ->
  exists cause, err = "failed to parse base-uri: " +:+ cause.
Proof.
  unfold schemaID. destruct (url_Parse baseURI) as [cause|u]; [|done].
  intros [= <-]. by exists cause.
Qed.

(** X14.  In the synthesized manifest every present type has its
    definition, [<type>-manifest], which refers to the manifest file of the
    type; there are no other definitions; every conditional of [allOf]
    refers to a definition that is there; the [$id] is the identifier made
    from the version and [manifest.jsonschema.json]; and the [$schema] is
    the 2020-12 draft, whatever the dialect of the run is. *)
Theorem combinedManifest_defs (files : list string) (version : string) (s : Schema) :
  combinedManifest files version = inr s ->
  (forall t, t ∈ presentTypes files ->
             Defs s !! (t +:+ "-manifest")
             = Some (refSchema ("./" +:+ t +:+ "/manifest.jsonschema.json"))) /\
  size (Defs s) = length (presentTypes files) /\
  (forall branch, branch ∈ AllOf s ->
                  exists name, Then branch = Some (refSchema ("#/$defs/" +:+ name)) /\
                               is_Some (Defs s !! name)) /\
  schemaID version "manifest.jsonschema.json" = inr (ID s) /\
  Schema_ s = "https://json-schema.org/draft/2020-12/schema".
Proof.
  unfold combinedManifest, presentTypes.
  rewrite manifestTypes_table.
  rewrite !filter_cons, filter_nil. unfold filepath.ToSlash.
  change ("content" +:+ "/manifest.jsonschema.json") with "content/manifest.jsonschema.json".
  change ("input" +:+ "/manifest.jsonschema.json") with "input/manifest.jsonschema.json".
  change ("integration" +:+ "/manifest.jsonschema.json")
    with "integration/manifest.jsonschema.json".
  destruct (existsb _ files), (existsb _ files), (existsb _ files);
    destruct (schemaID version "manifest.jsonschema.json") as [err|id];
    try (vm_compute; discriminate).
  all: intros Hs; vm_compute in Hs; injection Hs as <-.
  all: split_and!; [ | by vm_compute | | done | done ].
  all: try (intros t Ht; vm_compute in Ht; apply list_elem_of_In in Ht; simpl in Ht;
            repeat (destruct Ht as [<-|Ht]; [by vm_compute|]); done).
  all: intros branch Hb; vm_compute in Hb; apply list_elem_of_In in Hb; simpl in Hb.
  all: repeat (destruct Hb as [<-|Hb];
               [eexists; split; [reflexivity|]; vm_compute; by eexists|]); done.
Qed.

(** X15.  [combinedManifest] fails with [no manifest types found] exactly
    when no written file ends in the manifest path of one of the three
    types.  A file counts for a type when its path ends in
    [<type>/manifest.jsonschema.json], whatever is before: the file may be
    deeper in the tree, and the name of its directory may only end in the
    name of the type; with such a file the synthesis does not fail in that
    way. *)
Theorem combinedManifest_no_types (files : list string) (version : string) :
  (combinedManifest files version = inl "no manifest types found"
   <-> presentTypes files = []) /\
  (forall t pre,
      t ∈ ["content"; "input"; "integration"] ->
      pre +:+ t +:+ "/manifest.jsonschema.json" ∈ files ->
      t ∈ presentTypes files /\
      combinedManifest files version <> inl "no manifest types found").
Proof.
  assert (Hiff : combinedManifest files version = inl "no manifest types found"
                 <-> presentTypes files = []).
  2: { split; [done|]. intros t pre Ht Hin.
       assert (Hpresent : t ∈ presentTypes files).
       { unfold presentTypes. apply list_elem_of_filter. split; [|done].
         apply existsb_exists. exists (pre +:+ t +:+ "/manifest.jsonschema.json").
         split; [by apply list_elem_of_In|]. unfold filepath.ToSlash.
         apply HasSuffix_app. }
       split; [done|]. intros Hnone%Hiff. rewrite Hnone in Hpresent.
       by apply elem_of_nil in Hpresent. }
  - unfold combinedManifest, presentTypes.
    rewrite manifestTypes_table.
    rewrite !filter_cons, filter_nil. unfold filepath.ToSlash.
    change ("content" +:+ "/manifest.jsonschema.json") with "content/manifest.jsonschema.json".
    change ("input" +:+ "/manifest.jsonschema.json") with "input/manifest.jsonschema.json".
    change ("integration" +:+ "/manifest.jsonschema.json")
      with "integration/manifest.jsonschema.json".
    destruct (existsb _ files), (existsb _ files), (existsb _ files).
    all: try (split; [by vm_compute|by vm_compute]).
    all: destruct (schemaID version "manifest.jsonschema.json") as [err|id] eqn:Hid.
    all: try (apply schemaID_error in Hid as [cause ->]).
    all: split; [vm_compute; discriminate|vm_compute; discriminate].
Qed.

Lemma existsb_elements {A} (f : A -> bool) (l1 l2 : list A) :
  (forall x, x ∈ l1 <-> x ∈ l2) -> existsb f l1 = existsb f l2.
Proof.
  intros Hl. apply eq_true_iff_eq. rewrite !existsb_exists.
  split; intros (x & Hx & Hf); exists x; (split; [|done]);
    apply list_elem_of_In, Hl, list_elem_of_In, Hx.
Qed.

(** X20.  The synthesized manifest depends on the written files as a set:
    two lists with the same elements, in whatever order and with whatever
    repetitions, give the same manifest or the same error. *)
Theorem combinedManifest_order (files1 files2 : list string) (version : string) :
  (forall f, f ∈ files1 <-> f ∈ files2) ->
  combinedManifest files1 version = combinedManifest files2 version /\
  combinedManifestSchema files1 version = combinedManifestSchema files2 version.
Proof.
  intros Hfiles.
  assert (Hc : combinedManifest files1 version = combinedManifest files2 version).
  { unfold combinedManifest.
    assert (Hfilter :
      filter (fun '(typ, path) =>
                existsb (fun s => strings.HasSuffix (filepath.ToSlash s) path) files1 = true)
        ({[ "content" := "content/manifest.jsonschema.json";
            "input" := "input/manifest.jsonschema.json";
            "integration" := "integration/manifest.jsonschema.json" ]} : gmap string string)
      = filter (fun '(typ, path) =>
                existsb (fun s => strings.HasSuffix (filepath.ToSlash s) path) files2 = true)
        ({[ "content" := "content/manifest.jsonschema.json";
            "input" := "input/manifest.jsonschema.json";
            "integration" := "integration/manifest.jsonschema.json" ]} : gmap string string)).
    { apply map_filter_ext. intros typ path _. by rewrite (existsb_elements _ files1 files2). }
    by rewrite Hfilter. }
  split; [done|]. unfold combinedManifestSchema. by rewrite Hc.
Qed.

End manifest_more.

(** ** More on the bundler *)

Section bundle_more.
Context {E : Externals} {S : bundle.System}.

Lemma bundleSchema_effects schemaPath inDir outDir w w' err :
  bundle.bundleSchema schemaPath inDir outDir w = (w', err) ->
  let outFile := filepath.Join [outDir; bundle.trimFilePrefix schemaPath inDir] in
  (forall p, p <> outFile -> bundle.files w' !! p = bundle.files w !! p) /\
  (forall p, is_Some (bundle.files w !! p) -> is_Some (bundle.files w' !! p)) /\
  (err = None -> bundle.osStderr w' = bundle.osStderr w /\
                 is_Some (bundle.files w' !! outFile)).
Proof.
  unfold bundle.bundleSchema, bundle.jsonschemaExec.
  destruct (bundle.runError _) as [e|].
  - intros [= <- <-]. simpl. by split_and!.
  - intros [= <- <-]. simpl. unfold os.WriteFile. split_and!.
    + intros p Hp. by rewrite lookup_insert_ne.
    + intros p Hp.
      destruct (decide (filepath.Join [outDir; bundle.trimFilePrefix schemaPath inDir] = p))
        as [<-|Hne]; [rewrite lookup_insert_eq; by eexists|by rewrite lookup_insert_ne].
    + intros _. split; [done|]. rewrite lookup_insert_eq. by eexists.
Qed.

Lemma bundleAll_effects (schemas : list string) (inDir outDir : string)
    (w w' : bundle.World) (err : option string) :
  bundle.bundleAll schemas inDir outDir w = (w', err) ->
  (forall p,
      (forall s, s ∈ schemas ->
                 p <> filepath.Join [outDir; bundle.trimFilePrefix s inDir]) ->
      bundle.files w' !! p = bundle.files w !! p) /\
  (forall p, is_Some (bundle.files w !! p) -> is_Some (bundle.files w' !! p)) /\
  (err = None ->
   bundle.osStderr w' = bundle.osStderr w /\
   forall s, s ∈ schemas ->
             is_Some (bundle.files w' !! filepath.Join [outDir; bundle.trimFilePrefix s inDir])).
Proof.
  revert w. induction schemas as [|schema schemas IH]; intros w; simpl.
  - intros [= <- <-]. split_and!; [done..|]. intros _. split; [done|].
    by intros s Hs%elem_of_nil.
  - destruct (bundle.bundleSchema schema inDir outDir w) as [w1 [e|]] eqn:Hb;
      apply bundleSchema_effects in Hb as (Hout & Hmono & Hok).
    + intros [= <- <-]. split_and!; [|done..]. intros p Hp. apply Hout, Hp. by left.
    + intros (Hout' & Hmono' & Hok')%IH. destruct (Hok eq_refl) as [Herr Hfile].
      split_and!.
      * intros p Hp. rewrite Hout'; [apply Hout, Hp; by left|].
        intros s Hs. apply Hp. by right.
      * intros p Hp. by apply Hmono', Hmono.
      * intros ->. destruct (Hok' eq_refl) as [Herr' Hfiles]. split; [congruence|].
        intros s [->|Hs]%elem_of_cons; [by apply Hmono'|by apply Hfiles].
Qed.

Context {F : bundle.Flags}.

(** X16.  The bundler changes no file but the ones it writes a bundle to,
    and removes none: a path other than [filepath.Join(outDir, rel)], for
    the schemas that the walk of the input directory meets under a name
    that ends in [.jsonschema.json] and their paths [rel] without the input
    directory, holds what it held.  When it succeeds it has printed nothing
    on its standard error, and every such schema has its bundle at that
    path.  The path is the cleaned one, which is not in the output
    directory for every [rel]. *)
Theorem bundle_run_effects (w w' : bundle.World) (err : option string) :
  bundle.run w = (w', err) ->
  (forall p,
      (forall paths schema,
          bundle.filepath_Walk bundle.inDir (bundle.files w) = inr paths ->
          schema ∈ paths -> strings.HasSuffix schema ".jsonschema.json" = true ->
          p <> filepath.Join [bundle.outDir; bundle.trimFilePrefix schema bundle.inDir]) ->
      bundle.files w' !! p = bundle.files w !! p) /\
  (forall p, is_Some (bundle.files w !! p) -> is_Some (bundle.files w' !! p)) /\
  (err = None ->
   bundle.osStderr w' = bundle.osStderr w /\
   forall paths schema,
     bundle.filepath_Walk bundle.inDir (bundle.files w) = inr paths ->
     schema ∈ paths -> strings.HasSuffix schema ".jsonschema.json" = true ->
     is_Some (bundle.files w' !! filepath.Join
                [bundle.outDir; bundle.trimFilePrefix schema bundle.inDir])).
Proof.
  unfold bundle.run.
  destruct (String.eqb bundle.inDir ""); [by intros [= <- <-]|].
  destruct (String.eqb_spec bundle.outDir "") as [|Hout]; [by intros [= <- <-]|].
  destruct (negb _); [by intros [= <- <-]|].
  unfold bundle.findFiles.
  destruct (bundle.filepath_Walk bundle.inDir (bundle.files w)) as [e|paths];
    [by intros [= <- <-]|].
  intros (Hframe & Hmono & Hok)%bundleAll_effects. split_and!; [|done|].
  - intros p Hp. apply Hframe. intros s [Hin Hs]%list_elem_of_filter.
    by apply (Hp paths s).
  - intros ->. destruct (Hok eq_refl) as [Herr Hfiles]. split; [done|].
    intros paths' schema [= <-] Hin Hs. apply Hfiles. by apply list_elem_of_filter.
Qed.

End bundle_more.

(** X17.  The schema [<inDir>/<rel>] is trimmed to [<rel>], so that its
    bundle is written to [<rel>] in the output directory: the output mirrors
    the input directory, and two schemas of the input directory never share
    a bundle.  When the input directory is given with a slash at its end,
    nothing is trimmed, and the bundle is written to [<inDir>/<rel>] in the
    output directory. *)
Theorem bundle_output_mirror {S : bundle.System} (inDir : string) :
  (forall rel, bundle.trimFilePrefix (inDir +:+ "/" +:+ rel) inDir = rel) /\
  (forall rel1 rel2,
      bundle.trimFilePrefix (inDir +:+ "/" +:+ rel1) inDir
      = bundle.trimFilePrefix (inDir +:+ "/" +:+ rel2) inDir ->
      rel1 = rel2) /\
  (forall rel,
      strings.HasPrefix rel "/" = false ->
      bundle.trimFilePrefix (inDir +:+ "/" +:+ rel) (inDir +:+ "/")
      = inDir +:+ "/" +:+ rel) /\
  (forall rel outDir w w',
      bundle.bundleSchema (inDir +:+ "/" +:+ rel) inDir outDir w = (w', None) ->
      is_Some (bundle.files w' !! filepath.Join [outDir; rel])) /\
  (forall rel outDir w w',
      strings.HasPrefix rel "/" = false ->
      bundle.bundleSchema (inDir +:+ "/" +:+ rel) (inDir +:+ "/") outDir w = (w', None) ->
      is_Some (bundle.files w' !! filepath.Join [outDir; inDir +:+ "/" +:+ rel])).
Proof.
  assert (Htrim : forall rel, bundle.trimFilePrefix (inDir +:+ "/" +:+ rel) inDir = rel).
  { intros rel. unfold bundle.trimFilePrefix, filepath.ToSlash.
    by rewrite <- (strings_facts.app_assoc inDir "/"), TrimPrefix_app. }
  assert (Hslash : forall rel,
             strings.HasPrefix rel "/" = false ->
             bundle.trimFilePrefix (inDir +:+ "/" +:+ rel) (inDir +:+ "/")
             = inDir +:+ "/" +:+ rel).
  { intros rel Hrel. unfold bundle.trimFilePrefix, filepath.ToSlash, strings.TrimPrefix.
    rewrite <- (strings_facts.app_assoc inDir "/" rel) at 1.
    rewrite HasPrefix_app, strings_facts.HasPrefix_app_self, strings_facts.drop_app_length.
    by rewrite Hrel. }
  split_and!; [done| |done|..].
  - intros rel1 rel2. by rewrite !Htrim.
  - intros rel outDir w w' Hb.
    apply bundleSchema_effects in Hb as (_ & _ & Hok).
    destruct (Hok eq_refl) as [_ Hfile]. by rewrite Htrim in Hfile.
  - intros rel outDir w w' Hrel Hb.
    apply bundleSchema_effects in Hb as (_ & _ & Hok).
    destruct (Hok eq_refl) as [_ Hfile]. by rewrite Hslash in Hfile.
Qed.

(** ** The further properties on concrete inputs *)

(** X2 on the sample repository: of the tag and the branch at the commit,
    the branch, which comes last, is the one returned. *)
Lemma ResolveReference_last_witness :
  exists r,
    ResolveReference (E:=sample.externals) sample.repository "main" = inr r /\
    Hash r = "5f0c1a" /\
    ((exists pre post,
         [tag "v1.2.0" "5f0c1a"; HashReference "refs/heads/main" "5f0c1a"]
         = (pre ++ r :: post)%list /\
         Forall (fun r' => Hash r' <> "5f0c1a") post)
     \/ (Forall (fun r' => Hash r' <> "5f0c1a")
           [tag "v1.2.0" "5f0c1a"; HashReference "refs/heads/main" "5f0c1a"] /\
         r = HashReference ("refs/heads/" +:+ "main") "5f0c1a")).
Proof.
  apply (@ResolveReference_last sample.externals sample.repository "main" "5f0c1a"
           [tag "v1.2.0" "5f0c1a"; HashReference "refs/heads/main" "5f0c1a"]
           eq_refl eq_refl).
Defined.

(** X24 on the branch [main] of the sample repository. *)
Lemma explicit_ref_hash_witness :
  exists ref,
    gitRefs (E:=sample.externals) (F:=sample.flagsFor "main") sample.repository
    = inr [ref] /\
    Name ref = "main" /\ Hash ref = "5f0c1a".
Proof.
  apply (@explicit_ref_hash sample.externals (sample.flagsFor "main") sample.repository
           "5f0c1a" [tag "v1.2.0" "5f0c1a"; HashReference "refs/heads/main" "5f0c1a"]
           ltac:(discriminate) eq_refl eq_refl).
  - intros name. reflexivity.
  - intros rest. reflexivity.
Defined.

(** X3 on a tag that is not in canonical form. *)
Lemma version_label_round_trip_witness :
  tagToSemver (tag ("v" +:+ versionOf (tag "v01.2.3-rc.1" "5f0c1a")) "5f0c1a")
  = Some {| semver.Major := 1; semver.Minor := 2; semver.Patch := 3;
            semver.PreRelease := "rc.1"; semver.Metadata := "" |}.
Proof. apply version_label_round_trip. reflexivity. Defined.

(** X4 on a tag and a branch of one version. *)
Lemma same_label_same_version_witness :
  versionOf (tag "v1.2.0" "a1") = versionOf (HashReference "refs/heads/v01.2.0" "b2").
Proof.
  apply (same_label_same_version _ _
           {| semver.Major := 1; semver.Minor := 2; semver.Patch := 0;
              semver.PreRelease := ""; semver.Metadata := "" |}
           {| semver.Major := 1; semver.Minor := 2; semver.Patch := 0;
              semver.PreRelease := ""; semver.Metadata := "" |}); reflexivity.
Defined.

(** X5: the run for 1.3.0 leaves the manifest of 1.2.0 as it was. *)
Lemma releases_do_not_interfere_witness :
  exists fs' err,
    writeSchemas (E:=sample.externals) (F:=sample.flagsOut) sample.repository
      (tag "v1.3.0" "d4") sample.outFiles = (fs', err) /\
    fs' !! "out/1.2.0/jsonschema/manifest.jsonschema.json" = Some "kept".
Proof.
  destruct (writeSchemas (E:=sample.externals) (F:=sample.flagsOut) sample.repository
              (tag "v1.3.0" "d4") sample.outFiles) as [fs' err] eqn:Hrun.
  exists fs', err. split; [reflexivity|].
  destruct (@releases_do_not_interfere sample.externals sample.flagsOut sample.repository
              (tag "v1.2.0" "5f0c1a") (tag "v1.3.0" "d4")
              {| semver.Major := 1; semver.Minor := 2; semver.Patch := 0;
                 semver.PreRelease := ""; semver.Metadata := "" |}
              {| semver.Major := 1; semver.Minor := 3; semver.Patch := 0;
                 semver.PreRelease := ""; semver.Metadata := "" |}
              sample.outFiles fs' err eq_refl eq_refl ltac:(discriminate) Hrun
              "out/1.2.0/jsonschema/manifest.jsonschema.json" eq_refl) as [_ Hkept].
  rewrite Hkept. reflexivity.
Defined.

(** X6: the run for 1.3.0 fails at a file without a [spec] key, and the
    former file of 1.3.0 is gone all the same. *)
Lemma writeSchemas_not_transactional_witness :
  exists fs' err,
    writeSchemas (E:=sample.externals) (F:=sample.flagsOut) sample.repository
      (tag "v1.3.0" "d4") sample.outFiles = (fs', Some err) /\
    fs' !! "out/1.3.0/jsonschema/stale.jsonschema.json" = None.
Proof.
  destruct (writeSchemas (E:=sample.externals) (F:=sample.flagsOut) sample.repository
              (tag "v1.3.0" "d4") sample.outFiles) as [fs' err] eqn:Hrun.
  assert (Herr : exists e, err = Some e).
  { apply (f_equal snd) in Hrun. vm_compute in Hrun. subst err. by eexists. }
  destruct Herr as [e ->]. exists fs', e. split; [reflexivity|].
  destruct (@writeSchemas_not_transactional sample.externals sample.flagsOut
              sample.repository (tag "v1.3.0" "d4") sample.outFiles fs' (Some e) Hrun)
    as (_ & _ & Hin).
  rewrite (Hin sample.brokenTree "spec" eq_refl eq_refl) by reflexivity.
  vm_compute. reflexivity.
Defined.

(** X7: a run over the three releases of the clone on the sample disk,
    which fails at 1.3.0, leaves the bundle of 1.2.0 as it was. *)
Lemma run_outside_witness :
  exists fs' err,
    run (E:=sample.externals) (F:=sample.flagsOut)
      (NewGitRepository (E:=sample.externals) sample.disk
         "https://github.com/elastic/package-spec.git" ".package-spec-schema" false)
      sample.outFiles
    = (fs', err) /\
    fs' !! "out/1.2.0/bundles/manifest.jsonschema.json" = Some "bundle".
Proof.
  destruct (run (E:=sample.externals) (F:=sample.flagsOut)
              (NewGitRepository (E:=sample.externals) sample.disk
                 "https://github.com/elastic/package-spec.git" ".package-spec-schema" false)
              sample.outFiles) as [fs' err] eqn:Hrun.
  exists fs', err. split; [reflexivity|].
  assert (Hclone : forall repoURL,
             url_Parse (Externals:=sample.externals)
               "https://github.com/elastic/package-spec.git" = inr repoURL ->
             os.below (filepath.Join [".package-spec-schema"; "git"])
               (repoDir ".package-spec-schema" (url_Path repoURL)) = true).
  { intros repoURL Hurl. vm_compute in Hurl. injection Hurl as <-.
    vm_compute. reflexivity. }
  destruct (@run_outside sample.externals sample.flagsOut sample.disk
              sample.outFiles fs' err "out/1.2.0/bundles/manifest.jsonschema.json"
              Hrun Hclone eq_refl) as (_ & _ & Hout).
  rewrite (Hout sample.repository
             [tag "v1.2.0" "5f0c1a"; tag "v1.3.0" "d4"; tag "v1.10.0" "b2"]
             eq_refl eq_refl).
  - reflexivity.
  - repeat constructor.
Defined.

(** X23: a run over two releases; the former file of 1.3.0 is gone, and
    each release has the schema of its tree. *)
Lemma run_versions_witness :
  exists fs',
    run (E:=sample.externals) (F:=sample.flagsOut) (inr sample.releases) sample.outFiles
    = (fs', None) /\
    fs' !! "out/1.3.0/jsonschema/stale.jsonschema.json" = None /\
    is_Some (fs' !! "out/1.2.0/jsonschema/input/manifest.jsonschema.json").
Proof.
  destruct (run (E:=sample.externals) (F:=sample.flagsOut) (inr sample.releases)
              sample.outFiles) as [fs' err] eqn:Hrun.
  assert (Herr : err = None).
  { apply (f_equal snd) in Hrun. vm_compute in Hrun. congruence. }
  subst err. exists fs'. split; [reflexivity|].
  pose proof (@run_versions sample.externals sample.flagsOut sample.releases
                [tag "v1.2.0" "a1"; tag "v1.3.0" "b2"] sample.outFiles fs' Hrun eq_refl)
    as Hin.
  assert (Hver : Forall (fun r => is_Some (tagToSemver r))
                   [tag "v1.2.0" "a1"; tag "v1.3.0" "b2"]).
  { repeat constructor; eexists; reflexivity. }
  assert (Hnodup : NoDup (versionOf <$> [tag "v1.2.0" "a1"; tag "v1.3.0" "b2"])).
  { apply (bool_decide_unpack _). vm_compute. exact I. }
  specialize (Hin Hver Hnodup). split.
  - rewrite (Hin (tag "v1.3.0" "b2")); [|by right; left|reflexivity].
    vm_compute. reflexivity.
  - rewrite (Hin (tag "v1.2.0" "a1")); [|by left|reflexivity].
    vm_compute. eexists. reflexivity.
Defined.

(** X8: a tree with a read-me, a change log and a directory of documents
    gives what the tree without them gives. *)
Lemma writeSchemas_spec_files_only_witness :
  writeSchemas (E:=sample.externals) (F:=sample.flagsOut)
    (sample.repositoryOf sample.plainTree) (tag "v1.2.0" "5f0c1a") sample.outFiles
  = writeSchemas (E:=sample.externals) (F:=sample.flagsOut)
      (sample.repositoryOf sample.noisyTree) (tag "v1.2.0" "5f0c1a") sample.outFiles.
Proof.
  apply (@writeSchemas_spec_files_only sample.externals sample.flagsOut
           (sample.repositoryOf sample.plainTree) (sample.repositoryOf sample.noisyTree)
           (tag "v1.2.0" "5f0c1a") sample.plainTree sample.noisyTree sample.outFiles
           eq_refl eq_refl eq_refl eq_refl).
  intros root Hroot. vm_compute in Hroot. injection Hroot as <-. reflexivity.
Defined.

(** X9: after the run for 1.2.0 the manifest of the integration type and
    the synthesized root manifest are there. *)
Lemma writeSchemas_complete_witness :
  exists fs',
    writeSchemas (E:=sample.externals) (F:=sample.flagsOut) sample.repository
      (tag "v1.2.0" "5f0c1a") sample.outFiles = (fs', None) /\
    is_Some (fs' !! "out/1.2.0/jsonschema/manifest.jsonschema.json") /\
    is_Some (fs' !! "out/1.2.0/jsonschema/integration/manifest.jsonschema.json").
Proof.
  destruct (writeSchemas (E:=sample.externals) (F:=sample.flagsOut) sample.repository
              (tag "v1.2.0" "5f0c1a") sample.outFiles) as [fs' err] eqn:Hrun.
  assert (Herr : err = None).
  { apply (f_equal snd) in Hrun. vm_compute in Hrun. congruence. }
  subst err. exists fs'. split; [reflexivity|].
  destruct (@writeSchemas_complete sample.externals sample.flagsOut sample.repository
              (tag "v1.2.0" "5f0c1a") sample.tree "spec" sample.outFiles fs' Hrun
              eq_refl eq_refl) as [Hroot Hfiles].
  split; [exact Hroot|].
  apply (Hfiles "spec/integration/manifest.spec.yml" (Some (Regular "spec: integration"))).
  - apply list_elem_of_lookup. exists 5. reflexivity.
  - reflexivity.
Defined.


(** X22: the run for 1.2.0, and the run again on what it left. *)
Lemma writeSchemas_again_witness :
  exists fs' err,
    writeSchemas (E:=sample.externals) (F:=sample.flagsOut) sample.repository
      (tag "v1.2.0" "5f0c1a") sample.outFiles = (fs', err) /\
    writeSchemas (E:=sample.externals) (F:=sample.flagsOut) sample.repository
      (tag "v1.2.0" "5f0c1a") fs' = (fs', err).
Proof.
  destruct (writeSchemas (E:=sample.externals) (F:=sample.flagsOut) sample.repository
              (tag "v1.2.0" "5f0c1a") sample.outFiles) as [fs' err] eqn:Hrun.
  exists fs', err. split; [reflexivity|].
  exact (@writeSchemas_again sample.externals sample.flagsOut sample.repository
           (tag "v1.2.0" "5f0c1a") sample.outFiles fs' err Hrun).
Defined.

(** X21: a reference patched for 3.4.1 and then for 3.5.0. *)
Lemma patchSchema_repatch_witness :
  exists spec1,
    patchSchema (E:=sample.externals) (F:=defaultFlags) "3.4.1" "a.jsonschema.json"
      {[ "$ref" := AString "foo.spec.yml#/bar^baz" ]} = inr spec1 /\
    patchSchema (E:=sample.externals) (F:=defaultFlags) "3.5.0" "b.jsonschema.json" spec1
    = patchSchema (E:=sample.externals) (F:=defaultFlags) "3.5.0" "b.jsonschema.json"
        {[ "$ref" := AString "foo.spec.yml#/bar^baz" ]}.
Proof.
  eexists. split; [vm_compute; reflexivity|].
  apply (@patchSchema_repatch sample.externals defaultFlags "3.4.1" "a.jsonschema.json"
           "3.5.0" "b.jsonschema.json" {[ "$ref" := AString "foo.spec.yml#/bar^baz" ]}).
  - intros p obj r Hw Hp Hr. destruct p as [|[k|i] p]; simpl in Hp.
    + simplify_eq. rewrite lookup_singleton_eq in Hr. simplify_eq. vm_compute. lia.
    + destruct (decide (k = "$ref")) as [->|]; [done|].
      by rewrite lookup_singleton_ne in Hp.
    + done.
  - vm_compute. reflexivity.
Defined.

(** X14 on the two manifests of the scenario. *)
Lemma combinedManifest_defs_witness :
  exists s,
    combinedManifest (E:=sample.externals) (F:=defaultFlags)
      ["input/manifest.jsonschema.json"; "integration/manifest.jsonschema.json"] "3.4.1"
    = inr s /\
    Defs s !! "input-manifest" = Some (refSchema "./input/manifest.jsonschema.json") /\
    size (Defs s) = 2 /\
    ID s = "https://schemas.elastic.dev/package-spec/3.4.1/manifest.jsonschema.json".
Proof.
  destruct (combinedManifest (E:=sample.externals) (F:=defaultFlags)
              ["input/manifest.jsonschema.json"; "integration/manifest.jsonschema.json"]
              "3.4.1") as [err|s] eqn:Hs; [by vm_compute in Hs|].
  destruct (@combinedManifest_defs sample.externals defaultFlags _ _ s Hs)
    as (Hdefs & Hsize & _ & Hid & _).
  exists s. split; [reflexivity|]. split_and!.
  - apply (Hdefs "input"). vm_compute. apply list_elem_of_In. simpl. auto.
  - rewrite Hsize. reflexivity.
  - assert (Hurl : schemaID (E:=sample.externals) (F:=defaultFlags) "3.4.1"
                     "manifest.jsonschema.json"
                   = inr "https://schemas.elastic.dev/package-spec/3.4.1/manifest.jsonschema.json")
      by (vm_compute; reflexivity).
    rewrite Hurl in Hid. injection Hid as <-. reflexivity.
Defined.

(** X20: the two manifests of the scenario, in the other order and one of
    them twice. *)
Lemma combinedManifest_order_witness :
  combinedManifestSchema (E:=sample.externals) (F:=defaultFlags)
    ["input/manifest.jsonschema.json"; "integration/manifest.jsonschema.json"] "3.4.1"
  = combinedManifestSchema (E:=sample.externals) (F:=defaultFlags)
      ["integration/manifest.jsonschema.json"; "input/manifest.jsonschema.json";
       "integration/manifest.jsonschema.json"] "3.4.1".
Proof.
  apply (@combinedManifest_order sample.externals defaultFlags
           ["input/manifest.jsonschema.json"; "integration/manifest.jsonschema.json"]
           ["integration/manifest.jsonschema.json"; "input/manifest.jsonschema.json";
            "integration/manifest.jsonschema.json"] "3.4.1").
  intros f. rewrite !elem_of_cons, !elem_of_nil. tauto.
Defined.

(** X16: a successful run of the bundler over two schemas and a text
    file. *)
Lemma bundle_run_effects_witness :
  exists w',
    bundle.run (E:=sample.externals) (S:=sample.bundler)
      (F:={| bundle.inDir := "in"; bundle.outDir := "out" |})
      {| bundle.files := {[ "in/notes.txt" := "notes" ]}; bundle.osStderr := "" |}
    = (w', None) /\
    bundle.files w' !! "in/notes.txt" = Some "notes" /\
    bundle.osStderr w' = "" /\
    is_Some (bundle.files w' !! "out/x/b.jsonschema.json").
Proof.
  destruct (bundle.run (E:=sample.externals) (S:=sample.bundler)
              (F:={| bundle.inDir := "in"; bundle.outDir := "out" |})
              {| bundle.files := {[ "in/notes.txt" := "notes" ]}; bundle.osStderr := "" |})
    as [w' err] eqn:Hrun.
  assert (Herr : err = None).
  { apply (f_equal snd) in Hrun. vm_compute in Hrun. congruence. }
  subst err. exists w'. split; [reflexivity|].
  destruct (@bundle_run_effects sample.externals sample.bundler
              {| bundle.inDir := "in"; bundle.outDir := "out" |} _ w' None Hrun)
    as (Hout & _ & Hok).
  destruct (Hok eq_refl) as [Hstderr Hfiles]. split_and!.
  - rewrite Hout; [reflexivity|].
    intros paths schema [= <-] Hin Hs Heq.
    rewrite !elem_of_cons, elem_of_nil in Hin.
    destruct Hin as [->|[->|[->|[->|[]]]]]; vm_compute in Hs, Heq; discriminate.
  - rewrite Hstderr. reflexivity.
  - apply (Hfiles ["in"; "in/a.jsonschema.json"; "in/notes.txt"; "in/x/b.jsonschema.json"]
             "in/x/b.jsonschema.json" eq_refl).
    + apply list_elem_of_lookup. exists 3. reflexivity.
    + reflexivity.
Defined.

(** X19: the URL of the package specifications and a URL that has an
    underscore for the slash open the same clone. *)
Lemma NewGitRepository_shared_clone_witness :
  NewGitRepository (E:=sample.externals) sample.disk
    "https://github.com/elastic/package-spec.git" ".package-spec-schema" false
  = NewGitRepository (E:=sample.externals) sample.disk
      "https://github.com/elastic_package-spec.git" ".package-spec-schema" false.
Proof.
  destruct (@NewGitRepository_shared_clone sample.externals sample.disk
           "https://github.com/elastic/package-spec.git"
           "https://github.com/elastic_package-spec.git"
              ("https://github.com", "/elastic/package-spec.git")
              ("https://github.com", "/elastic_package-spec.git")
              ".package-spec-schema" "elastic" "package-spec" false sample.repository
           eq_refl eq_refl eq_refl eq_refl) as [_ Hopen].
  destruct (Hopen eq_refl) as [Hsame _]. exact Hsame.
Defined.
